(** * Kubermatic reconciliation engine: a shallow embedding

    The development follows three source files:

    - [api/pkg/controller/cluster/resources.go]: the per-kind ensure loops
      of the cluster controller, the three-way patch helper and the
      checksum functions;
    - [pkg/controller/master-controller-manager/project-synchronizer/controller.go]:
      the Project fan-out synchronizer and the seed-watch dispatcher;
    - [api/pkg/handler/v1/provider/hetzner.go]: the endpoints that list
      the Hetzner server sizes.

    Go values are embedded as follows.  A Go [string] and a [[]byte] are
    both sequences of bytes and are embedded as [string] (a list of
    [ascii], one per byte).  A Go [map[string]T] is a [gmap string T]; the
    order in which a [range] statement visits it is not determined by the
    map, so every function that ranges over a map takes the visiting order
    as an explicit list of keys.  A Go [error] result is an
    [option error], [None] standing for [nil].  Calls against the API
    server and the lister caches are threaded through an explicit world
    record. *)

From Stdlib Require Import ZArith NArith String Ascii List Lia Bool.
From Stdlib Require Import DecimalString.
From stdpp Require Import base option list gmap strings sorting.

(* ===================================================================== *)
(** * Errors *)
(* ===================================================================== *)

(** [metav1.StatusReason] of an API status error; only the reasons the
    sources distinguish are listed, everything else is [StatusReasonOther]. *)
Inductive StatusReason : Type :=
  | StatusReasonNotFound
  | StatusReasonAlreadyExists
  | StatusReasonConflict
  | StatusReasonOther.

(** A Go [error]: either a status error returned by a client, a plain
    [fmt.Errorf] message (verb [%v]: the cause is flattened into the
    text), or an error wrapping its cause (verb [%w]). *)
Inductive error : Type :=
  | StatusError (reason : StatusReason) (msg : string)
  | ErrorString (msg : string)
  | WrapError (msg : string) (cause : error).

(** [err.Error()] *)
Definition Error (e : error) : string :=
  match e with
  | StatusError _ m => m
  | ErrorString m => m
  | WrapError m _ => m
  end.

(** [errors.Unwrap] *)
Definition Unwrap (e : error) : option error :=
  match e with
  | WrapError _ c => Some c
  | _ => None
  end.

(** [fmt.Errorf(prefix + "%v", err)] *)
Definition Errorf_v (prefix : string) (e : error) : error :=
  ErrorString (prefix +:+ Error e).

(** [fmt.Errorf(prefix + "%w", err)] *)
Definition Errorf_w (prefix : string) (e : error) : error :=
  WrapError (prefix +:+ Error e) e.

(** [apierrors.IsNotFound]: the reason of the first status error found
    along the unwrap chain. *)
Fixpoint IsNotFound (e : error) : bool :=
  match e with
  | StatusError StatusReasonNotFound _ => true
  | StatusError _ _ => false
  | ErrorString _ => false
  | WrapError _ c => IsNotFound c
  end.

(** [ctrlruntimeclient.IgnoreNotFound] *)
Definition IgnoreNotFound (err : option error) : option error :=
  match err with
  | Some e => if IsNotFound e then None else Some e
  | None => None
  end.

(** Results of calls that return [(value, error)]. *)
Inductive result (A : Type) : Type :=
  | Ok (a : A)
  | Err (e : error).
Arguments Ok {A} a.
Arguments Err {A} e.

(** [m[k]] on a [map[string]string]: the zero value when the key is
    absent. *)
Definition index (m : gmap string string) (k : string) : string :=
  default "" (m !! k).

(* ===================================================================== *)
(** * ChecksumComputer (resources.go, lines 703-728) *)
(* ===================================================================== *)

Module Checksum.

(** ** [sort.Strings]: byte-wise lexicographic order *)

Definition string_le (a b : string) : Prop := String.leb a b = true.

#[global] Instance string_le_dec a b : Decision (string_le a b).
Proof. unfold string_le. apply _. Defined.

Definition sort_Strings (l : list string) : list string :=
  merge_sort string_le l.

(** ** [hash/crc32]: the IEEE polynomial, table driven *)

Definition IEEE : Z := 0xedb88320.

(** One round of [simpleMakeTable]'s inner loop. *)
Definition crc_round (crc : Z) : Z :=
  if Z.testbit crc 0 then Z.lxor (Z.shiftr crc 1) IEEE else Z.shiftr crc 1.

(** [simpleMakeTable(IEEE)[i]] *)
Definition IEEETable (i : Z) : Z :=
  Nat.iter 8 crc_round i.

Definition byte_of (c : ascii) : Z := Z.of_N (N_of_ascii c).

(** Loop body of [simpleUpdate]:
    [crc = tab[byte(crc)^v] ^ (crc >> 8)] *)
Definition crc_update_byte (crc : Z) (v : ascii) : Z :=
  Z.lxor (IEEETable (Z.lxor (Z.land crc 0xff) (byte_of v))) (Z.shiftr crc 8).

Fixpoint crc_update (crc : Z) (p : string) : Z :=
  match p with
  | EmptyString => crc
  | String v p' => crc_update (crc_update_byte crc v) p'
  end.

(** Bitwise complement of a [uint32]. *)
Definition not32 (x : Z) : Z := Z.lxor x 0xffffffff.

(** [crc32.ChecksumIEEE] *)
Definition ChecksumIEEE (data : string) : Z :=
  not32 (crc_update (not32 0) data).

(** [fmt.Sprintf("%v", x)] for an unsigned integer: decimal digits. *)
Definition Sprintf_v (x : Z) : string :=
  NilZero.string_of_uint (N.to_uint (Z.to_N x)).

(** [bytes.Buffer]: [WriteString] of every item in turn, then [Bytes()]. *)
Fixpoint buffer_WriteStrings (buffer : string) (items : list string) : string :=
  match items with
  | [] => buffer
  | item :: rest => buffer_WriteStrings (buffer +:+ item) rest
  end.

(** [getChecksumForStringSlice] *)
Definition getChecksumForStringSlice (stringSlice : list string) : string :=
  let sorted := sort_Strings stringSlice in
  let buffer := buffer_WriteStrings "" sorted in
  Sprintf_v (ChecksumIEEE buffer).

(** [fmt.Sprintf("%s:%s", k, v)] *)
Definition Sprintf_kv (k v : string) : string := k +:+ ":" +:+ v.

(** [getChecksumForMapStringString].  [visit] is the order in which
    [for k := range data] happens to visit the keys of [data]. *)
Definition getChecksumForMapStringString
    (visit : list string) (data : gmap string string) : string :=
  let keyVals := map (fun k => Sprintf_kv k (index data k)) visit in
  getChecksumForStringSlice keyVals.

(** [getChecksumForMapStringByteSlice]; [string(data[k])] is the identity
    on the embedding of byte slices. *)
Definition getChecksumForMapStringByteSlice
    (visit : list string) (data : gmap string string) : string :=
  let keyVals := map (fun k => Sprintf_kv k (index data k)) visit in
  getChecksumForStringSlice keyVals.

(** A visiting order of a map: every key exactly once. *)
Definition range_order (visit : list string) (data : gmap string string) : Prop :=
  visit ≡ₚ elements (dom data).

End Checksum.


(* ===================================================================== *)
(** * The cluster controller's resource ensurers (resources.go) *)
(* ===================================================================== *)

Module Cluster.

Definition nodeDeletionFinalizer : string := "kubermatic.io/delete-nodes".
Definition annotationPrefix : string := "kubermatic.io/".
Definition lastAppliedConfigAnnotation : string :=
  annotationPrefix +:+ "last-applied-configuration".
Definition checksumAnnotation : string := annotationPrefix +:+ "checksum".

(** ** API objects *)

(** [metav1.ObjectMeta], the fields the ensurers touch.  A nil map and an
    empty map are the same [gmap]: [equality.Semantic.DeepEqual] does not
    tell them apart, and the [if x.Annotations == nil] initialisations of
    the source are the identity here. *)
Record ObjectMeta : Type := mkObjectMeta {
  Name : string;
  Namespace : string;
  Annotations : gmap string string;
}.

#[global] Instance ObjectMeta_eq_dec : EqDecision ObjectMeta.
Proof. solve_decision. Defined.

(** [metav1.Object], with the structural equality that
    [equality.Semantic.DeepEqual] decides. *)
Class Object (T : Type) : Type := {
  GetObjectMeta : T → ObjectMeta;
  Object_eq_dec :: EqDecision T;
}.

Definition GetName {T} `{Object T} (o : T) : string := Name (GetObjectMeta o).
Definition GetNamespace {T} `{Object T} (o : T) : string :=
  Namespace (GetObjectMeta o).
Definition GetAnnotations {T} `{Object T} (o : T) : gmap string string :=
  Annotations (GetObjectMeta o).

(** [equality.Semantic.DeepEqual] *)
Definition DeepEqual {A} `{EqDecision A} (a b : A) : bool := bool_decide (a = b).

(** [x.DeepCopy()]: values are immutable in the embedding. *)
Definition DeepCopy {A} (a : A) : A := a.

(** Kinds whose spec the ensurers only compare as a whole carry it as an
    opaque serialisation. *)
Record ServiceAccount : Type :=
  mkServiceAccount { ServiceAccount_Meta : ObjectMeta; ServiceAccount_Body : string }.
Record Role : Type := mkRole { Role_Meta : ObjectMeta; Role_Rules : string }.
Record RoleBinding : Type :=
  mkRoleBinding { RoleBinding_Meta : ObjectMeta; RoleBinding_Body : string }.
Record ClusterRoleBinding : Type :=
  mkClusterRoleBinding { ClusterRoleBinding_Meta : ObjectMeta; ClusterRoleBinding_Body : string }.
Record Service : Type := mkService { Service_Meta : ObjectMeta; Service_Spec : string }.
Record PodDisruptionBudget : Type :=
  mkPodDisruptionBudget { PodDisruptionBudget_Meta : ObjectMeta; PodDisruptionBudget_Spec : string }.

(** [metav1.LabelSelector] *)
Record LabelSelector : Type := mkLabelSelector { MatchLabels : gmap string string }.

(** [appsv1.DeploymentSpec] and [appsv1.StatefulSetSpec]: the selector and
    the rest of the spec. *)
Record WorkloadSpec : Type := mkWorkloadSpec {
  Selector : LabelSelector;
  Template : string;
}.
Record Deployment : Type := mkDeployment { Deployment_Meta : ObjectMeta; Deployment_Spec : WorkloadSpec }.
Record StatefulSet : Type := mkStatefulSet { StatefulSet_Meta : ObjectMeta; StatefulSet_Spec : WorkloadSpec }.

(** [corev1.Secret] ([Data : map[string][]byte]) and [corev1.ConfigMap]
    ([Data : map[string]string]). *)
Record Secret : Type := mkSecret { Secret_Meta : ObjectMeta; Secret_Data : gmap string string }.
Record ConfigMap : Type := mkConfigMap { ConfigMap_Meta : ObjectMeta; ConfigMap_Data : gmap string string }.

#[global] Instance LabelSelector_eq_dec : EqDecision LabelSelector.
Proof. solve_decision. Defined.
#[global] Instance WorkloadSpec_eq_dec : EqDecision WorkloadSpec.
Proof. solve_decision. Defined.

#[global] Instance ServiceAccount_Object : Object ServiceAccount.
Proof. refine {| GetObjectMeta := ServiceAccount_Meta |}. solve_decision. Defined.
#[global] Instance Role_Object : Object Role.
Proof. refine {| GetObjectMeta := Role_Meta |}. solve_decision. Defined.
#[global] Instance RoleBinding_Object : Object RoleBinding.
Proof. refine {| GetObjectMeta := RoleBinding_Meta |}. solve_decision. Defined.
#[global] Instance ClusterRoleBinding_Object : Object ClusterRoleBinding.
Proof. refine {| GetObjectMeta := ClusterRoleBinding_Meta |}. solve_decision. Defined.
#[global] Instance Service_Object : Object Service.
Proof. refine {| GetObjectMeta := Service_Meta |}. solve_decision. Defined.
#[global] Instance PodDisruptionBudget_Object : Object PodDisruptionBudget.
Proof. refine {| GetObjectMeta := PodDisruptionBudget_Meta |}. solve_decision. Defined.
#[global] Instance Deployment_Object : Object Deployment.
Proof. refine {| GetObjectMeta := Deployment_Meta |}. solve_decision. Defined.
#[global] Instance StatefulSet_Object : Object StatefulSet.
Proof. refine {| GetObjectMeta := StatefulSet_Meta |}. solve_decision. Defined.
#[global] Instance Secret_Object : Object Secret.
Proof. refine {| GetObjectMeta := Secret_Meta |}. solve_decision. Defined.
#[global] Instance ConfigMap_Object : Object ConfigMap.
Proof. refine {| GetObjectMeta := ConfigMap_Meta |}. solve_decision. Defined.

(** Kinds with a [Spec.Selector.MatchLabels]. *)
Class Workload (T : Type) `{Object T} : Type := {
  GetSpec : T → WorkloadSpec;
}.
#[global] Instance Deployment_Workload : Workload Deployment :=
  {| GetSpec := Deployment_Spec |}.
#[global] Instance StatefulSet_Workload : Workload StatefulSet :=
  {| GetSpec := StatefulSet_Spec |}.

(** [obj.Annotations[key] = value] *)
Definition setAnnotation (key value : string) (m : ObjectMeta) : ObjectMeta :=
  {| Name := Name m; Namespace := Namespace m;
     Annotations := <[key := value]> (Annotations m) |}.

(** [obj.Name = name] *)
Definition setName (name : string) (m : ObjectMeta) : ObjectMeta :=
  {| Name := name; Namespace := Namespace m; Annotations := Annotations m |}.

(** ** The cluster under reconciliation and the controller *)

(** [kubermaticv1.Cluster], the fields read here. *)
Record ClusterT : Type := mkCluster {
  Cluster_Name : string;
  Spec_Cloud_DatacenterName : string;
  Spec_MachineNetworks : list string;
  Status_NamespaceName : string;
}.

(** [resources.TemplateData]: what [resources.NewTemplateData] captures
    for the creators. *)
Record TemplateData : Type := mkTemplateData {
  TemplateData_cluster : ClusterT;
  TemplateData_dc : string;
}.

(** [Controller], the configuration read by [getClusterTemplateData]. *)
Record Controller : Type := mkController {
  dcs : gmap string string;
}.

(** [getClusterTemplateData] *)
Definition getClusterTemplateData (cc : Controller) (c : ClusterT) : result TemplateData :=
  match dcs cc !! Spec_Cloud_DatacenterName c with
  | None =>
      Err (ErrorString ("failed to get datacenter " +:+ Spec_Cloud_DatacenterName c))
  | Some dc => Ok (mkTemplateData c dc)
  end.

(** ** The API server, the lister caches and the calls issued *)

Inductive DeletionPropagation : Type :=
  | DeletePropagationOrphan
  | DeletePropagationBackground
  | DeletePropagationForeground.

Inductive PatchType : Type :=
  | JSONPatchType
  | MergePatchType
  | StrategicMergePatchType.

(** A call on [cc.kubeClient] for one kind, within the cluster namespace. *)
Inductive Call (T : Type) : Type :=
  | Create (obj : T)
  | Update (obj : T)
  | Delete (name : string) (PropagationPolicy : option DeletionPropagation)
  | Patch (name : string) (pt : PatchType) (data : string).
Arguments Create {T} obj.
Arguments Update {T} obj.
Arguments Delete {T} name PropagationPolicy.
Arguments Patch {T} name pt data.

(** What lies outside the controller: whether the API server refuses a
    call, how long the informer takes to publish a change of an object to
    the lister (in milliseconds, [None]: not within any wait), and how the
    server applies a merge patch. *)
Record Env (T : Type) : Type := mkEnv {
  rejects : Call T → option error;
  informerLag : string → option nat;
  applyPatch : T → string → T;
}.
Arguments mkEnv {T} _ _ _.
Arguments rejects {T} _ _.
Arguments informerLag {T} _ _.
Arguments applyPatch {T} _ _ _.

(** The state one kind's ensurer runs against.  [lister] is the cached
    store read through [cc.xyzLister]; [apiserver] is the live store the
    client writes to; [calls] lists the calls issued so far, oldest first;
    [counters] the (kind, name) pairs counted by
    [countSeedResourceUpdate]; [informer] the changes not yet published to
    the lister, each with the time at which it will be. *)
Record World (T : Type) : Type := mkWorld {
  lister : gmap string T;
  apiserver : gmap string T;
  calls : list (Call T);
  counters : list (string * string);
  clock : nat;
  informer : list (nat * string);
}.
Arguments mkWorld {T} _ _ _ _ _ _.
Arguments lister {T} _.
Arguments apiserver {T} _.
Arguments calls {T} _.
Arguments counters {T} _.
Arguments clock {T} _.
Arguments informer {T} _.

Section Client.
Context {T : Type} `{Object T}.
Variable env : Env T.

Definition notFound (name : string) : error :=
  StatusError StatusReasonNotFound ("'" +:+ name +:+ "' not found").

Definition alreadyExists (name : string) : error :=
  StatusError StatusReasonAlreadyExists ("'" +:+ name +:+ "' already exists").

(** [cc.xyzLister.Xyzs(namespace).Get(name)] *)
Definition lister_Get (name : string) (w : World T) : result T :=
  match lister w !! name with
  | Some obj => Ok obj
  | None => Err (notFound name)
  end.

Definition issue (call : Call T) (w : World T) : World T :=
  mkWorld (lister w) (apiserver w) (calls w ++ [call]) (counters w)
          (clock w) (informer w).

(** The server commits a change to [name]; the informer will publish it
    after its lag. *)
Definition commit (name : string) (store : gmap string T) (w : World T) : World T :=
  mkWorld (lister w) store (calls w) (counters w) (clock w)
          (match informerLag env name with
           | Some d => informer w ++ [(clock w + d, name)]
           | None => informer w
           end).

(** [kubeClient...Create(obj)] *)
Definition kubeClient_Create (obj : T) (w : World T) : option error * World T :=
  let w := issue (Create obj) w in
  match rejects env (Create obj) with
  | Some err => (Some err, w)
  | None =>
      match apiserver w !! GetName obj with
      | Some _ => (Some (alreadyExists (GetName obj)), w)
      | None => (None, commit (GetName obj) (<[GetName obj := obj]> (apiserver w)) w)
      end
  end.

(** [kubeClient...Update(obj)] *)
Definition kubeClient_Update (obj : T) (w : World T) : option error * World T :=
  let w := issue (Update obj) w in
  match rejects env (Update obj) with
  | Some err => (Some err, w)
  | None =>
      match apiserver w !! GetName obj with
      | None => (Some (notFound (GetName obj)), w)
      | Some _ => (None, commit (GetName obj) (<[GetName obj := obj]> (apiserver w)) w)
      end
  end.

(** [kubeClient...Delete(name, &metav1.DeleteOptions{PropagationPolicy})] *)
Definition kubeClient_Delete (name : string) (policy : option DeletionPropagation)
    (w : World T) : option error * World T :=
  let w := issue (Delete name policy) w in
  match rejects env (Delete name policy) with
  | Some err => (Some err, w)
  | None =>
      match apiserver w !! name with
      | None => (Some (notFound name), w)
      | Some _ => (None, commit name (delete name (apiserver w)) w)
      end
  end.

(** [kubeClient...Patch(name, pt, data)] *)
Definition kubeClient_Patch (name : string) (pt : PatchType) (data : string)
    (w : World T) : option error * World T :=
  let w := issue (Patch name pt data) w in
  match rejects env (Patch name pt data) with
  | Some err => (Some err, w)
  | None =>
      match apiserver w !! name with
      | None => (Some (notFound name), w)
      | Some cur => (None, commit name (<[name := applyPatch env cur data]> (apiserver w)) w)
      end
  end.

(** [countSeedResourceUpdate(c, kind, name)] *)
Definition countSeedResourceUpdate (c : ClusterT) (kind name : string)
    (w : World T) : World T :=
  mkWorld (lister w) (apiserver w) (calls w) (counters w ++ [(kind, name)])
          (clock w) (informer w).

(** The informer publishes the live state of [name] to the lister. *)
Definition publish (store : gmap string T) (cache : gmap string T) (name : string)
    : gmap string T :=
  match store !! name with
  | Some obj => <[name := obj]> cache
  | None => delete name cache
  end.

(** [d] milliseconds pass: every change that is due by then reaches the
    lister. *)
Definition sleep (d : nat) (w : World T) : World T :=
  let now := clock w + d in
  let due := filter (λ ev, ev.1 ≤ now) (informer w) in
  let later := filter (λ ev, ¬ ev.1 ≤ now) (informer w) in
  mkWorld (foldl (publish (apiserver w)) (lister w) due.*2) (apiserver w)
          (calls w) (counters w) now later.

(** The informer has caught up: the state between two passes when
    nothing else touches the store. *)
Definition resync (w : World T) : World T :=
  mkWorld (apiserver w) (apiserver w) (calls w) (counters w) (clock w) [].
End Client.

(** ** Control flow of a [for ... range] body *)

(** A loop body either falls through to the next iteration ([continue] or
    the end of the body) or leaves the function with [return err]. *)
Inductive Flow (T : Type) : Type :=
  | Continue (w : World T)
  | Return (err : option error) (w : World T).
Arguments Continue {T} w.
Arguments Return {T} err w.

(** [for _, x := range items { body }; return nil] *)
Fixpoint rangeLoop {T A : Type} (body : A → World T → Flow T) (items : list A)
    (w : World T) : option error * World T :=
  match items with
  | [] => (None, w)
  | x :: rest =>
      match body x w with
      | Continue w' => rangeLoop body rest w'
      | Return err w' => (err, w')
      end
  end.

(** ** Creators *)

(** [resources.XyzCreator]: a function from the template data and the
    existing object to the desired object or an error; [None] is the nil
    [existing]. *)
Definition Creator (T : Type) : Type := TemplateData → option T → result T.

(** The wording that differs between the per-kind copies of the loop. *)
Record KindText : Type := mkKindText {
  kindName : string;     (* "Service" *)
  updateVerb : string;   (* "patch" or "update" in the Update error *)
  counterName : string;  (* "service" *)
}.

Section Ensure.
Context {T : Type} `{Object T}.
Variable env : Env T.
Variable kt : KindText.
Variable c : ClusterT.
Variable data : TemplateData.

Definition failedToBuild (err : error) : error :=
  Errorf_v ("failed to build " +:+ kindName kt +:+ ": ") err.
Definition failedToCreate (name : string) (err : error) : error :=
  Errorf_v ("failed to create " +:+ kindName kt +:+ " " +:+ name +:+ ": ") err.
Definition failedToUpdate (name : string) (err : error) : error :=
  Errorf_v ("failed to " +:+ updateVerb kt +:+ " " +:+ kindName kt +:+ " "
            +:+ name +:+ ": ") err.

(** The [!errors.IsNotFound(err)] branch of every loop: a lister miss
    leads to a live Create. *)
Definition createMissing (obj : T) (w : World T) : Flow T :=
  match kubeClient_Create env obj w with
  | (Some err, w) => Return (Some (failedToCreate (GetName obj) err)) w
  | (None, w) => Continue w
  end.

(** The tail of every loop: a live Update, counted on success. *)
Definition updateExisting (obj : T) (w : World T) : Flow T :=
  match kubeClient_Update env obj w with
  | (Some err, w) => Return (Some (failedToUpdate (GetName obj) err)) w
  | (None, w) => Continue (countSeedResourceUpdate c (counterName kt) (GetName obj) w)
  end.

(** Loop body of [ensureServices], [ensureRoles], [ensureRoleBindings],
    [ensureClusterRoleBindings], [ensurePodDisruptionBudgets] and
    [ensureCheckServiceAccounts]. *)
Definition ensureBody (create : Creator T) (w : World T) : Flow T :=
  match create data None with
  | Err err => Return (Some (failedToBuild err)) w
  | Ok obj =>
      match lister_Get (GetName obj) w with
      | Err err =>
          if negb (IsNotFound err) then Return (Some err) w
          else createMissing obj w
      | Ok existing =>
          match create data (Some (DeepCopy existing)) with
          | Err err => Return (Some (failedToBuild err)) w
          | Ok obj =>
              if DeepEqual obj existing then Continue w
              else updateExisting obj w
          end
      end
  end.

(** Loop body of [ensureDeployments] and [ensureStatefulSets]. *)
Definition ensureWorkloadBody `{!Workload T} (create : Creator T) (w : World T)
    : Flow T :=
  match create data None with
  | Err err => Return (Some (failedToBuild err)) w
  | Ok dep =>
      match lister_Get (GetName dep) w with
      | Err err =>
          if negb (IsNotFound err) then Return (Some err) w
          else createMissing dep w
      | Ok existing =>
          match create data (Some (DeepCopy existing)) with
          | Err err => Return (Some (failedToBuild err)) w
          | Ok dep =>
              if DeepEqual dep existing then Continue w
              else if negb (DeepEqual (MatchLabels (Selector (GetSpec dep)))
                                      (MatchLabels (Selector (GetSpec existing))))
              then
                (* In case we update something immutable we need to
                   delete&recreate. Creation happens on next sync *)
                let propagation := DeletePropagationForeground in
                let '(err, w) := kubeClient_Delete env (GetName dep)
                                   (Some propagation) w in
                Return err w
              else updateExisting dep w
          end
      end
  end.
End Ensure.

(** [creators := ...; data, err := cc.getClusterTemplateData(c); for ...] *)
Definition ensureAll {T} `{Object T} (env : Env T) (kt : KindText)
    (creators : list (Creator T)) (cc : Controller) (c : ClusterT)
    (w : World T) : option error * World T :=
  match getClusterTemplateData cc c with
  | Err err => (Some err, w)
  | Ok data => rangeLoop (ensureBody env kt c data) creators w
  end.

Definition ensureAllWorkloads {T} `{Workload T} (env : Env T) (kt : KindText)
    (creators : list (Creator T)) (cc : Controller) (c : ClusterT)
    (w : World T) : option error * World T :=
  match getClusterTemplateData cc c with
  | Err err => (Some err, w)
  | Ok data => rangeLoop (ensureWorkloadBody env kt c data) creators w
  end.

(** ** The creators in use *)

(** [secretOp] of [ensureSecrets].  [gen] is a method of the controller:
    besides the cluster and the existing secret it sees the controller's
    secret lister. *)
Record secretOp : Type := mkSecretOp {
  name : string;
  gen : gmap string Secret → ClusterT → option Secret → result (Secret * string);
}.

(** The builders imported from [pkg/resources/...]; they are outside this
    file and are taken as given.  Each field stands for the list literal of
    the function of that name. *)
Record Resources : Type := mkResources {
  PrometheusServiceAccountName : string;
  resources_ServiceAccount : string → TemplateData → option ServiceAccount → ServiceAccount;
  prometheus_Role : Creator Role;
  prometheus_RoleBinding : Creator RoleBinding;
  ServiceCreators : list (Creator Service);
  DeploymentCreators : list (Creator Deployment);
  ipamcontroller_Deployment : Creator Deployment;
  SecretCreators : gmap string (Creator Secret);
  ConfigMapCreators : list (Creator ConfigMap);
  StatefulSetCreators : list (Creator StatefulSet);
  PodDisruptionBudgetCreators : list (Creator PodDisruptionBudget);
  secretOps : list secretOp;
  ipamSecret : secretOp;
}.

(** [GetServiceCreators] *)
Definition GetServiceCreators (res : Resources) : list (Creator Service) :=
  ServiceCreators res.

(** [GetDeploymentCreators]; [c == nil] is [None]. *)
Definition GetDeploymentCreators (res : Resources) (c : option ClusterT)
    : list (Creator Deployment) :=
  let creators := DeploymentCreators res in
  match c with
  | Some c =>
      if decide (0 < length (Spec_MachineNetworks c))
      then creators ++ [ipamcontroller_Deployment res]
      else creators
  | None => creators
  end.

(** [GetSecretCreators] *)
Definition GetSecretCreators (res : Resources) : gmap string (Creator Secret) :=
  SecretCreators res.

(** [GetConfigMapCreators] *)
Definition GetConfigMapCreators (res : Resources) : list (Creator ConfigMap) :=
  ConfigMapCreators res.

(** [GetStatefulSetCreators] *)
Definition GetStatefulSetCreators (res : Resources) : list (Creator StatefulSet) :=
  StatefulSetCreators res.

(** [GetPodDisruptionBudgetCreators] *)
Definition GetPodDisruptionBudgetCreators (res : Resources)
    : list (Creator PodDisruptionBudget) :=
  PodDisruptionBudgetCreators res.

(** ** The structural kinds *)

Definition ServiceText := mkKindText "Service" "patch" "service".
Definition ServiceAccountText := mkKindText "ServiceAccount" "patch" "serviceaccount".
Definition RoleText := mkKindText "Role" "update" "role".
Definition RoleBindingText := mkKindText "RoleBinding" "update" "rolebinding".
Definition ClusterRoleBindingText :=
  mkKindText "ClusterRoleBinding" "update" "clusterrolebinding".
Definition DeploymentText := mkKindText "Deployment" "update" "deployment".
Definition StatefulSetText := mkKindText "StatefulSet" "update" "statefulset".
Definition PodDisruptionBudgetText :=
  mkKindText "PodDisruptionBudget" "update" "poddisruptionbudget".

(** [ensureServices] *)
Definition ensureServices (env : Env Service) (res : Resources) :=
  ensureAll env ServiceText (GetServiceCreators res).

(** The [names] of [ensureCheckServiceAccounts], each with the call of
    [resources.ServiceAccount] that builds it; the builder cannot fail. *)
Definition ServiceAccountCreators (res : Resources) : list (Creator ServiceAccount) :=
  let names := [PrometheusServiceAccountName res] in
  map (λ name data existing, Ok (resources_ServiceAccount res name data existing)) names.

(** [ensureCheckServiceAccounts] *)
Definition ensureCheckServiceAccounts (env : Env ServiceAccount) (res : Resources) :=
  ensureAll env ServiceAccountText (ServiceAccountCreators res).

(** [ensureRoles] *)
Definition ensureRoles (env : Env Role) (res : Resources) :=
  ensureAll env RoleText [prometheus_Role res].

(** [ensureRoleBindings] *)
Definition ensureRoleBindings (env : Env RoleBinding) (res : Resources) :=
  ensureAll env RoleBindingText [prometheus_RoleBinding res].

(** [ensureClusterRoleBindings]: the creator list is empty in the source. *)
Definition ensureClusterRoleBindings (env : Env ClusterRoleBinding) (res : Resources) :=
  ensureAll env ClusterRoleBindingText [].

(** [ensurePodDisruptionBudgets] *)
Definition ensurePodDisruptionBudgets (env : Env PodDisruptionBudget) (res : Resources) :=
  ensureAll env PodDisruptionBudgetText (GetPodDisruptionBudgetCreators res).

(** [ensureDeployments] *)
Definition ensureDeployments (env : Env Deployment) (res : Resources)
    (cc : Controller) (c : ClusterT) :=
  ensureAllWorkloads env DeploymentText (GetDeploymentCreators res (Some c)) cc c.

(** [ensureStatefulSets] *)
Definition ensureStatefulSets (env : Env StatefulSet) (res : Resources) :=
  ensureAllWorkloads env StatefulSetText (GetStatefulSetCreators res).

(** ** The checksum-gated kinds *)

(** The checksum functions range over the payload map; the result does
    not depend on the visiting order (shown below), so the loops use the
    order of [elements]. *)
Definition checksumOfBytes (data : gmap string string) : string :=
  Checksum.getChecksumForMapStringByteSlice (elements (dom data)) data.
Definition checksumOfStrings (data : gmap string string) : string :=
  Checksum.getChecksumForMapStringString (elements (dom data)) data.

(** [se.Annotations[checksumAnnotation] = getChecksumForMapStringByteSlice(se.Data)] *)
Definition stampSecret (se : Secret) : Secret :=
  mkSecret (setAnnotation checksumAnnotation (checksumOfBytes (Secret_Data se))
                          (Secret_Meta se))
           (Secret_Data se).

(** [cm.Annotations[checksumAnnotation] = getChecksumForMapStringString(cm.Data)] *)
Definition stampConfigMap (cm : ConfigMap) : ConfigMap :=
  mkConfigMap (setAnnotation checksumAnnotation (checksumOfStrings (ConfigMap_Data cm))
                             (ConfigMap_Meta cm))
              (ConfigMap_Data cm).

Definition SecretText := mkKindText "Secret" "update" "secret".
Definition ConfigMapText := mkKindText "ConfigMap" "update" "configmap".

(** Loop body of [ensureSecretsV2]; the loop ranges over a map, [name] is
    the key and [create] the value. *)
Definition ensureSecretsV2Body (env : Env Secret) (c : ClusterT) (data : TemplateData)
    (entry : string * Creator Secret) (w : World Secret) : Flow Secret :=
  let '(name, create) := entry in
  match lister_Get name w with
  | Err err =>
      if negb (IsNotFound err) then Return (Some err) w
      else
        match create data None with
        | Err err => Return (Some (failedToBuild SecretText err)) w
        | Ok se => createMissing env SecretText (stampSecret se) w
        end
  | Ok existing =>
      match create data (Some (DeepCopy existing)) with
      | Err err => Return (Some (failedToBuild SecretText err)) w
      | Ok se =>
          let se := stampSecret se in
          match GetAnnotations existing !! checksumAnnotation with
          | Some annotationVal =>
              if decide (annotationVal = index (GetAnnotations se) checksumAnnotation)
              then Continue w
              else updateExisting env SecretText c se w
          | None => updateExisting env SecretText c se w
          end
      end
  end.

(** [ensureSecretsV2].  [visit] is the order in which the range statement
    visits [GetSecretCreators()]. *)
Definition ensureSecretsV2 (env : Env Secret) (visit : list (string * Creator Secret))
    (cc : Controller) (c : ClusterT) (w : World Secret) : option error * World Secret :=
  match getClusterTemplateData cc c with
  | Err err => (Some err, w)
  | Ok data => rangeLoop (ensureSecretsV2Body env c data) visit w
  end.

(** Loop body of [ensureConfigMaps]. *)
Definition ensureConfigMapsBody (env : Env ConfigMap) (c : ClusterT) (data : TemplateData)
    (create : Creator ConfigMap) (w : World ConfigMap) : Flow ConfigMap :=
  match create data None with
  | Err err => Return (Some (failedToBuild ConfigMapText err)) w
  | Ok cm =>
      let cm := stampConfigMap cm in
      match lister_Get (GetName cm) w with
      | Err err =>
          if negb (IsNotFound err) then Return (Some err) w
          else createMissing env ConfigMapText cm w
      | Ok existing =>
          match create data (Some (DeepCopy existing)) with
          | Err err => Return (Some (failedToBuild ConfigMapText err)) w
          | Ok cm =>
              let cm := stampConfigMap cm in
              match GetAnnotations existing !! checksumAnnotation with
              | Some annotationVal =>
                  if decide (annotationVal = index (GetAnnotations cm) checksumAnnotation)
                  then Continue w
                  else updateExisting env ConfigMapText c cm w
              | None => updateExisting env ConfigMapText c cm w
              end
          end
      end
  end.

(** [ensureConfigMaps] *)
Definition ensureConfigMaps (env : Env ConfigMap) (res : Resources)
    (cc : Controller) (c : ClusterT) (w : World ConfigMap)
    : option error * World ConfigMap :=
  match getClusterTemplateData cc c with
  | Err err => (Some err, w)
  | Ok data => rangeLoop (ensureConfigMapsBody env c data) (GetConfigMapCreators res) w
  end.

(** ** ThreeWayPatchBuilder and the ordered Secrets path *)

(** [k8s.io/apimachinery/pkg/util/json] and [.../jsonmergepatch]: library
    code, taken as given. *)
Record JSONLib (T : Type) : Type := mkJSONLib {
  json_Marshal : T → result string;
  CreateThreeWayJSONMergePatch : string → string → string → result string;
}.
Arguments mkJSONLib {T} _ _.
Arguments json_Marshal {T} _ _.
Arguments CreateThreeWayJSONMergePatch {T} _ _ _ _.

(** [getPatch] *)
Definition getPatch {T} `{Object T} (js : JSONLib T) (currentObj updateObj : T)
    : result string :=
  match json_Marshal js currentObj with
  | Err err => Err err
  | Ok currentData =>
      match json_Marshal js updateObj with
      | Err err => Err err
      | Ok modifiedData =>
          (* a missing annotation is only logged; [originalData] is then empty *)
          let originalData := index (GetAnnotations currentObj) lastAppliedConfigAnnotation in
          CreateThreeWayJSONMergePatch js originalData modifiedData currentData
      end
  end.

Definition Millisecond : nat := 1.
Definition Second : nat := 1000.

(** [wait.ErrWaitTimeout] *)
Definition ErrWaitTimeout : error := ErrorString "timed out waiting for the condition".

(** [wait.Poll(interval, timeout, condition)]: the condition is tried
    after every interval until it holds, fails, or the timeout has passed;
    [timeout / interval] tries fit. *)
Fixpoint pollLoop {T} `{Object T} (tries interval : nat)
    (condition : World T → bool * option error) (w : World T)
    : option error * World T :=
  match tries with
  | O => (Some ErrWaitTimeout, w)
  | S tries =>
      let w := sleep interval w in
      match condition w with
      | (_, Some err) => (Some err, w)
      | (true, None) => (None, w)
      | (false, None) => pollLoop tries interval condition w
      end
  end.

Definition wait_Poll {T} `{Object T} (interval timeout : nat)
    (condition : World T → bool * option error) (w : World T)
    : option error * World T :=
  pollLoop (timeout / interval) interval condition w.

(** The closure [secretExistsInLister] of [ensureSecrets]: any lister
    error means "not yet". *)
Definition secretExistsInLister (generatedSecret : Secret) (w : World Secret)
    : bool * option error :=
  match lister_Get (GetName generatedSecret) w with
  | Err _ => (false, None)
  | Ok _ => (true, None)
  end.

(** [generatedSecret.Annotations[lastAppliedConfigAnnotation] = currentJSON;
     generatedSecret.Name = op.name].  The gen functions hand back a secret
    whose annotation map is allocated. *)
Definition finishGenerated (op : secretOp) (generatedSecret : Secret)
    (currentJSON : string) : Secret :=
  mkSecret (setName (name op)
              (setAnnotation lastAppliedConfigAnnotation currentJSON
                             (Secret_Meta generatedSecret)))
           (Secret_Data generatedSecret).

(** Loop body of [ensureSecrets].  [exists] of the source is
    [existingSecret] being [Some]. *)
Definition ensureSecretsBody (env : Env Secret) (js : JSONLib Secret) (c : ClusterT)
    (op : secretOp) (w : World Secret) : Flow Secret :=
  match
    match lister_Get (name op) w with
    | Err err =>
        if negb (IsNotFound err)
        then Err (Errorf_v ("failed to get secret " +:+ name op +:+ " from lister: ") err)
        else Ok None
    | Ok existingSecret => Ok (Some existingSecret)
    end
  with
  | Err err => Return (Some err) w
  | Ok existingSecret =>
      match gen op (lister w) c existingSecret with
      | Err err =>
          Return (Some (Errorf_v ("failed to generate Secret " +:+ name op +:+ ": ") err)) w
      | Ok (generatedSecret, currentJSON) =>
          let generatedSecret := finishGenerated op generatedSecret currentJSON in
          match existingSecret with
          | None =>
              match kubeClient_Create env generatedSecret w with
              | (Some err, w) =>
                  Return (Some (Errorf_v ("failed to create secret for " +:+ name op
                                          +:+ ": ") err)) w
              | (None, w) =>
                  match wait_Poll (100 * Millisecond) (30 * Second)
                                  (secretExistsInLister generatedSecret) w with
                  | (Some err, w) =>
                      Return (Some (Errorf_v ("failed waiting for secret '"
                                 +:+ GetName generatedSecret
                                 +:+ "' to exist in the lister: ") err)) w
                  | (None, w) => Continue w
                  end
              end
          | Some existingSecret =>
              if decide (index (GetAnnotations existingSecret) lastAppliedConfigAnnotation
                         ≠ currentJSON)
              then
                match getPatch js existingSecret generatedSecret with
                | Err err => Return (Some err) w
                | Ok patch =>
                    match kubeClient_Patch env (name op) MergePatchType patch w with
                    | (Some err, w) =>
                        Return (Some (Errorf_v ("failed to patch secret '" +:+ name op
                                                +:+ "': ") err)) w
                    | (None, w) =>
                        Continue (countSeedResourceUpdate c "secret" (name op) w)
                    end
                end
              else Continue w
          end
      end
  end.

(** The [ops] slice of [ensureSecrets]. *)
Definition secretOpsFor (res : Resources) (c : ClusterT) : list secretOp :=
  let ops := secretOps res in
  if decide (0 < length (Spec_MachineNetworks c))
  then ops ++ [ipamSecret res]
  else ops.

(** [ensureSecrets] (deprecated in the source, still called first) *)
Definition ensureSecrets (env : Env Secret) (js : JSONLib Secret) (res : Resources)
    (c : ClusterT) (w : World Secret) : option error * World Secret :=
  rangeLoop (ensureSecretsBody env js c) (secretOpsFor res c) w.

(** The state in which the loop enters the iteration that follows
    [items], when every iteration over [items] falls through. *)
Fixpoint reaches {T A : Type} (body : A → World T → Flow T) (items : list A)
    (w : World T) : option (World T) :=
  match items with
  | [] => Some w
  | x :: rest =>
      match body x w with
      | Continue w' => reaches body rest w'
      | Return _ _ => None
      end
  end.

(** The state a loop body leaves behind. *)
Definition flowWorld {T} (f : Flow T) : World T :=
  match f with
  | Continue w => w
  | Return _ w => w
  end.

(** The object a call is addressed to. *)
Definition callName {T} `{Object T} (call : Call T) : string :=
  match call with
  | Create obj => GetName obj
  | Update obj => GetName obj
  | Delete name _ => name
  | Patch name _ _ => name
  end.

(** ** Vocabulary for the idempotence properties *)

(** [create] builds an object named [k] whatever it is given. *)
Definition namedCreator {T} `{Object T} (data : TemplateData) (create : Creator T)
    (k : string) : Prop :=
  ∀ existing obj, create data existing = Ok obj → GetName obj = k.

(** [create] reproduces its own output: given what it built, it builds
    the same again. *)
Definition reproducesOutput {T} (data : TemplateData) (create : Creator T) : Prop :=
  ∀ existing obj, create data existing = Ok obj → create data (Some obj) = Ok obj.

(** [create] reproduces its payload: given what it built, stamped by
    [stamp], it builds an object with the same payload. *)
Definition reproducesPayload {T} (stamp : T → T) (payload : T → gmap string string)
    (data : TemplateData) (create : Creator T) : Prop :=
  ∀ existing obj, create data existing = Ok obj →
    ∃ obj', create data (Some (stamp obj)) = Ok obj' ∧ payload obj' = payload obj.

(** [op] reproduces its JSON: on any secret that records a JSON it once
    generated, and whatever the lister holds, it generates that JSON
    again. *)
Definition reproducesJSON (c : ClusterT) (op : secretOp) : Prop :=
  ∀ secrets existing generated currentJSON,
    gen op secrets c existing = Ok (generated, currentJSON) →
    ∀ secrets' stored,
      index (GetAnnotations stored) lastAppliedConfigAnnotation = currentJSON →
      ∃ generated', gen op secrets' c (Some stored) = Ok (generated', currentJSON).

(** The server's way of applying a patch makes the patched object record
    the last-applied configuration of the object the patch was computed
    for, under the same name. *)
Definition patchRecordsLastApplied (env : Env Secret) (js : JSONLib Secret) : Prop :=
  ∀ existing desired patch,
    getPatch js existing desired = Ok patch →
    index (GetAnnotations (applyPatch env existing patch)) lastAppliedConfigAnnotation
    = index (GetAnnotations desired) lastAppliedConfigAnnotation.

(** The name under which [create] looks its object up: that of the
    object it builds from nothing. *)
Definition creatorName {T} `{Object T} (data : TemplateData) (create : Creator T)
    : string :=
  match create data None with
  | Ok obj => GetName obj
  | Err _ => ""
  end.

(** Creators of a structural kind that keep to their own, distinct names
    and reproduce their output. *)
Definition reproducing {T} `{Object T} (data : TemplateData)
    (creators : list (Creator T)) : Prop :=
  NoDup (creatorName data <$> creators)
  ∧ ∀ create, create ∈ creators →
      namedCreator data create (creatorName data create)
      ∧ reproducesOutput data create.

(** Creators of a checksum-gated kind that keep to their own, distinct
    names and reproduce their payload. *)
Definition reproducingPayload {T} `{Object T} (stamp : T → T)
    (payload : T → gmap string string) (data : TemplateData)
    (creators : list (Creator T)) : Prop :=
  NoDup (creatorName data <$> creators)
  ∧ ∀ create, create ∈ creators →
      namedCreator data create (creatorName data create)
      ∧ reproducesPayload stamp payload data create.

(** A creator of a structural kind that keeps to its name and reproduces
    its output. *)
Definition behaves {T} `{Object T} (data : TemplateData) (create : Creator T) : Prop :=
  namedCreator data create (creatorName data create) ∧ reproducesOutput data create.

(** On [x], [create] has nothing left to do. *)
Definition nothingToDo {T} (data : TemplateData) (create : Creator T) (x : T) : Prop :=
  (∃ obj0, create data None = Ok obj0) ∧ create data (Some x) = Ok x.

(** An entry of the map of Secret creators that keeps to its key and
    reproduces its payload. *)
Definition secretBehaves (data : TemplateData) (entry : string * Creator Secret) : Prop :=
  namedCreator data entry.2 entry.1
  ∧ reproducesPayload stampSecret Secret_Data data entry.2.

(** The stored checksum of [x] is that of the payload built from [x]. *)
Definition secretUpToDate (data : TemplateData) (entry : string * Creator Secret)
    (x : Secret) : Prop :=
  ∃ se, entry.2 data (Some x) = Ok se
        ∧ GetAnnotations x !! checksumAnnotation = Some (checksumOfBytes (Secret_Data se)).

Definition configMapBehaves (data : TemplateData) (create : Creator ConfigMap) : Prop :=
  namedCreator data create (creatorName data create)
  ∧ reproducesPayload stampConfigMap ConfigMap_Data data create.

Definition configMapUpToDate (data : TemplateData) (create : Creator ConfigMap)
    (x : ConfigMap) : Prop :=
  (∃ cm0, create data None = Ok cm0)
  ∧ ∃ cm, create data (Some x) = Ok cm
          ∧ GetAnnotations x !! checksumAnnotation
            = Some (checksumOfStrings (ConfigMap_Data cm)).

(** On [x], whatever the lister holds, [op] generates the JSON that [x]
    records. *)
Definition secretApplied (c : ClusterT) (op : secretOp) (x : Secret) : Prop :=
  ∀ secrets, ∃ generated,
    gen op secrets c (Some x)
    = Ok (generated, index (GetAnnotations x) lastAppliedConfigAnnotation).

(** The calls issued between two states of a pass. *)
Definition issuedSince {T} (before after : World T) : list (Call T) :=
  drop (length (calls before)) (calls after).

(** Two consecutive passes of [ensure] with nothing else touching the
    store: the lister is in sync with the server when the first pass
    starts, the first pass returns nil and issues no Delete, and the
    informer catches up before the second pass.  The second pass then
    returns nil, issues no call and leaves everything as it is. *)
Definition quietSecondPass {T} (ensure : World T → option error * World T) : Prop :=
  ∀ w0 w1,
    lister w0 = apiserver w0 →
    ensure w0 = (None, w1) →
    (∀ n p, Delete n p ∉ issuedSince w0 w1) →
    ensure (resync w1) = (None, resync w1)
    ∧ issuedSince (resync w1) (ensure (resync w1)).2 = [].

(** The lister and the server hold the same object, or both none, under
    [k]. *)
Definition inSync {T} (k : string) (w : World T) : Prop :=
  lister w !! k = apiserver w !! k.

(** ** The cluster namespace (resources.go, lines 128-157) *)

(** [corev1.Namespace]: its metadata and its owner references. *)
Record NamespaceT : Type := mkNamespace {
  Namespace_Meta : ObjectMeta;
  Namespace_OwnerReferences : list string;
}.

#[global] Instance Namespace_Object : Object NamespaceT.
Proof. refine {| GetObjectMeta := Namespace_Meta |}. solve_decision. Defined.

(** [c.Status.NamespaceName = n] *)
Definition setNamespaceName (n : string) (c : ClusterT) : ClusterT :=
  mkCluster (Cluster_Name c) (Spec_Cloud_DatacenterName c) (Spec_MachineNetworks c) n.

Section Namespace.
Variable env : Env NamespaceT.

(** [cc.updateCluster] and [cc.getOwnerRefForCluster] are methods of the
    controller declared in other files of the package; they are taken as
    given.  [updateCluster name modify] answers with the updated cluster
    or an error. *)
Variable updateCluster : string → (ClusterT → ClusterT) → result ClusterT.
Variable getOwnerRefForCluster : ClusterT → string.

(** [ensureNamespaceExists].  The source returns a cluster pointer and an
    error; [None] is the nil pointer. *)
Definition ensureNamespaceExists (c : ClusterT) (w : World NamespaceT)
    : (option ClusterT * option error) * World NamespaceT :=
  match
    if decide (Status_NamespaceName c = "") then
      updateCluster (Cluster_Name c)
        (λ c, setNamespaceName ("cluster-" +:+ Cluster_Name c) c)
    else Ok c
  with
  | Err err => ((None, Some err), w)
  | Ok c =>
      match lister_Get (Status_NamespaceName c) w with
      | Ok _ => ((Some c, None), w)
      | Err err =>
          if negb (IsNotFound err) then ((Some c, Some err), w)
          else
            let ns := mkNamespace (mkObjectMeta (Status_NamespaceName c) "" ∅)
                                  [getOwnerRefForCluster c] in
            match kubeClient_Create env ns w with
            | (Some err, w) =>
                ((None, Some (Errorf_v ("failed to create namespace "
                                        +:+ Status_NamespaceName c +:+ ": ") err)), w)
            | (None, w) =>
                ((Some c, None),
                 countSeedResourceUpdate c "namespace" (Status_NamespaceName c) w)
            end
      end
  end.
End Namespace.

(** ** One pass over every kind (resources.go, lines 47-104) *)

(** The stores of the cluster namespace, one per kind, named after the
    accessors of [cc.kubeClient]. *)
Record Seed : Type := mkSeed {
  ServiceAccounts : World ServiceAccount;
  Roles : World Role;
  RoleBindings : World RoleBinding;
  ClusterRoleBindings : World ClusterRoleBinding;
  Services : World Service;
  Secrets : World Secret;
  ConfigMaps : World ConfigMap;
  Deployments : World Deployment;
  StatefulSets : World StatefulSet;
  PodDisruptionBudgets : World PodDisruptionBudget;
}.

(** What lies outside the controller, per kind. *)
Record Envs : Type := mkEnvs {
  forServiceAccounts : Env ServiceAccount;
  forRoles : Env Role;
  forRoleBindings : Env RoleBinding;
  forClusterRoleBindings : Env ClusterRoleBinding;
  forServices : Env Service;
  forSecrets : Env Secret;
  forConfigMaps : Env ConfigMap;
  forDeployments : Env Deployment;
  forStatefulSets : Env StatefulSet;
  forPodDisruptionBudgets : Env PodDisruptionBudget;
  json : JSONLib Secret;
}.

Definition withServiceAccounts (w : World ServiceAccount) (s : Seed) : Seed :=
  mkSeed w (Roles s) (RoleBindings s) (ClusterRoleBindings s) (Services s) (Secrets s)
         (ConfigMaps s) (Deployments s) (StatefulSets s) (PodDisruptionBudgets s).
Definition withRoles (w : World Role) (s : Seed) : Seed :=
  mkSeed (ServiceAccounts s) w (RoleBindings s) (ClusterRoleBindings s) (Services s)
         (Secrets s) (ConfigMaps s) (Deployments s) (StatefulSets s)
         (PodDisruptionBudgets s).
Definition withRoleBindings (w : World RoleBinding) (s : Seed) : Seed :=
  mkSeed (ServiceAccounts s) (Roles s) w (ClusterRoleBindings s) (Services s)
         (Secrets s) (ConfigMaps s) (Deployments s) (StatefulSets s)
         (PodDisruptionBudgets s).
Definition withClusterRoleBindings (w : World ClusterRoleBinding) (s : Seed) : Seed :=
  mkSeed (ServiceAccounts s) (Roles s) (RoleBindings s) w (Services s)
         (Secrets s) (ConfigMaps s) (Deployments s) (StatefulSets s)
         (PodDisruptionBudgets s).
Definition withServices (w : World Service) (s : Seed) : Seed :=
  mkSeed (ServiceAccounts s) (Roles s) (RoleBindings s) (ClusterRoleBindings s) w
         (Secrets s) (ConfigMaps s) (Deployments s) (StatefulSets s)
         (PodDisruptionBudgets s).
Definition withSecrets (w : World Secret) (s : Seed) : Seed :=
  mkSeed (ServiceAccounts s) (Roles s) (RoleBindings s) (ClusterRoleBindings s)
         (Services s) w (ConfigMaps s) (Deployments s) (StatefulSets s)
         (PodDisruptionBudgets s).
Definition withConfigMaps (w : World ConfigMap) (s : Seed) : Seed :=
  mkSeed (ServiceAccounts s) (Roles s) (RoleBindings s) (ClusterRoleBindings s)
         (Services s) (Secrets s) w (Deployments s) (StatefulSets s)
         (PodDisruptionBudgets s).
Definition withDeployments (w : World Deployment) (s : Seed) : Seed :=
  mkSeed (ServiceAccounts s) (Roles s) (RoleBindings s) (ClusterRoleBindings s)
         (Services s) (Secrets s) (ConfigMaps s) w (StatefulSets s)
         (PodDisruptionBudgets s).
Definition withStatefulSets (w : World StatefulSet) (s : Seed) : Seed :=
  mkSeed (ServiceAccounts s) (Roles s) (RoleBindings s) (ClusterRoleBindings s)
         (Services s) (Secrets s) (ConfigMaps s) (Deployments s) w
         (PodDisruptionBudgets s).
Definition withPodDisruptionBudgets (w : World PodDisruptionBudget) (s : Seed) : Seed :=
  mkSeed (ServiceAccounts s) (Roles s) (RoleBindings s) (ClusterRoleBindings s)
         (Services s) (Secrets s) (ConfigMaps s) (Deployments s) (StatefulSets s) w.

(** A step of the pass: an ensurer run against the store of its kind. *)
Definition Step : Type := Seed → option error * Seed.

Definition on {T} (get : Seed → World T) (set : World T → Seed → Seed)
    (ensure : World T → option error * World T) : Step :=
  λ s, let '(err, w) := ensure (get s) in (err, set w s).

(** [if err := step; err != nil { return err }; rest] *)
Definition orReturn (step rest : Step) : Step :=
  λ s, match step s with
       | (Some err, s) => (Some err, s)
       | (None, s) => rest s
       end.

(** The eleven checks of [ensureResourcesAreDeployed], in the order of the
    source.  [visit] is the order in which [ensureSecretsV2] happens to
    visit the map of its creators. *)
Definition checks (envs : Envs) (res : Resources) (visit : list (string * Creator Secret))
    (cc : Controller) (cluster : ClusterT) : list Step :=
  [ (* check that all service accounts are created *)
    on ServiceAccounts withServiceAccounts
       (ensureCheckServiceAccounts (forServiceAccounts envs) res cc cluster);
    (* check that all roles are created *)
    on Roles withRoles (ensureRoles (forRoles envs) res cc cluster);
    (* check that all role bindings are created *)
    on RoleBindings withRoleBindings
       (ensureRoleBindings (forRoleBindings envs) res cc cluster);
    (* check that all cluster role bindings are created *)
    on ClusterRoleBindings withClusterRoleBindings
       (ensureClusterRoleBindings (forClusterRoleBindings envs) res cc cluster);
    (* check that all services are available *)
    on Services withServices (ensureServices (forServices envs) res cc cluster);
    (* check that all secrets are available *)
    on Secrets withSecrets (ensureSecrets (forSecrets envs) (json envs) res cluster);
    (* check that all secrets are available // New way of handling secrets *)
    on Secrets withSecrets (ensureSecretsV2 (forSecrets envs) visit cc cluster);
    (* check that all ServerClientConfigsConfigMap's are available *)
    on ConfigMaps withConfigMaps (ensureConfigMaps (forConfigMaps envs) res cc cluster);
    (* check that all deployments are available *)
    on Deployments withDeployments
       (ensureDeployments (forDeployments envs) res cc cluster);
    (* check that all StatefulSet's are created *)
    on StatefulSets withStatefulSets
       (ensureStatefulSets (forStatefulSets envs) res cc cluster);
    (* check that all PodDisruptionBudget's are created *)
    on PodDisruptionBudgets withPodDisruptionBudgets
       (ensurePodDisruptionBudgets (forPodDisruptionBudgets envs) res cc cluster) ].

(** [ensureResourcesAreDeployed] *)
Definition ensureResourcesAreDeployed (envs : Envs) (res : Resources)
    (visit : list (string * Creator Secret)) (cc : Controller) (cluster : ClusterT)
    : Step :=
  foldr orReturn (λ s, (None, s)) (checks envs res visit cc cluster).

(** ** Vocabulary for the properties of the calls issued *)

Definition isCreate {T} (call : Call T) : bool :=
  match call with Create _ => true | _ => false end.
Definition isUpdate {T} (call : Call T) : bool :=
  match call with Update _ => true | _ => false end.
Definition isForegroundDelete {T} (call : Call T) : bool :=
  match call with Delete _ (Some DeletePropagationForeground) => true | _ => false end.
Definition isMergePatch {T} (call : Call T) : bool :=
  match call with Patch _ MergePatchType _ => true | _ => false end.

(** The objects a list of calls updates, in order. *)
Definition updated {T} (issued : list (Call T)) : list T :=
  omap (λ call, match call with Update obj => Some obj | _ => None end) issued.

(** The objects a list of calls creates, in order. *)
Definition created {T} (issued : list (Call T)) : list T :=
  omap (λ call, match call with Create obj => Some obj | _ => None end) issued.

(** The calls issued on every kind of [after] beyond those of [before],
    reduced to the object each is addressed to. *)
Definition addressed (before after : Seed) : list string :=
  map callName (issuedSince (ServiceAccounts before) (ServiceAccounts after))
  ++ map callName (issuedSince (Roles before) (Roles after))
  ++ map callName (issuedSince (RoleBindings before) (RoleBindings after))
  ++ map callName (issuedSince (ClusterRoleBindings before) (ClusterRoleBindings after))
  ++ map callName (issuedSince (Services before) (Services after))
  ++ map callName (issuedSince (Secrets before) (Secrets after))
  ++ map callName (issuedSince (ConfigMaps before) (ConfigMaps after))
  ++ map callName (issuedSince (Deployments before) (Deployments after))
  ++ map callName (issuedSince (StatefulSets before) (StatefulSets after))
  ++ map callName (issuedSince (PodDisruptionBudgets before) (PodDisruptionBudgets after)).

(** What a call of a structural loop answers to, for the creator and the
    state of the iteration that issues it: a Create carries what the
    creator builds from nothing, under a name the lister does not hold; an
    Update carries what the creator makes of the lister's copy, and
    differs from that copy; there is no other call. *)
Definition structuralCall {T} `{Object T} (data : TemplateData) (create : Creator T)
    (w : World T) (call : Call T) : Prop :=
  match call with
  | Create obj => create data None = Ok obj ∧ lister w !! GetName obj = None
  | Update obj =>
      ∃ obj0 existing,
        create data None = Ok obj0 ∧ lister w !! GetName obj0 = Some existing
        ∧ create data (Some existing) = Ok obj ∧ obj ≠ existing
  | _ => False
  end.

(** The same for a workload loop: an Update keeps the selector of the
    lister's copy, and a Delete, always foreground, answers to a selector
    that changed. *)
Definition workloadCall {T} `{Workload T} (data : TemplateData) (create : Creator T)
    (w : World T) (call : Call T) : Prop :=
  match call with
  | Create obj => create data None = Ok obj ∧ lister w !! GetName obj = None
  | Update obj =>
      ∃ obj0 existing,
        create data None = Ok obj0 ∧ lister w !! GetName obj0 = Some existing
        ∧ create data (Some existing) = Ok obj ∧ obj ≠ existing
        ∧ MatchLabels (Selector (GetSpec obj)) = MatchLabels (Selector (GetSpec existing))
  | Delete n policy =>
      policy = Some DeletePropagationForeground
      ∧ ∃ obj0 existing obj,
          create data None = Ok obj0 ∧ lister w !! GetName obj0 = Some existing
          ∧ create data (Some existing) = Ok obj ∧ n = GetName obj
          ∧ MatchLabels (Selector (GetSpec obj)) ≠ MatchLabels (Selector (GetSpec existing))
  | Patch _ _ _ => False
  end.

(** The same for [ensureConfigMaps]: what is written is stamped with the
    checksum of its data, and an Update answers to a stored checksum that
    is missing or differs from the one of the data just built. *)
Definition configMapCall (data : TemplateData) (create : Creator ConfigMap)
    (w : World ConfigMap) (call : Call ConfigMap) : Prop :=
  match call with
  | Create obj =>
      ∃ cm, create data None = Ok cm ∧ obj = stampConfigMap cm
            ∧ lister w !! GetName obj = None
  | Update obj =>
      ∃ cm0 existing cm,
        create data None = Ok cm0
        ∧ lister w !! GetName (stampConfigMap cm0) = Some existing
        ∧ create data (Some existing) = Ok cm ∧ obj = stampConfigMap cm
        ∧ GetAnnotations existing !! checksumAnnotation
          ≠ Some (checksumOfStrings (ConfigMap_Data cm))
  | _ => False
  end.

(** The same for [ensureSecretsV2], whose lookups go by the key of the
    creator in the map. *)
Definition secretV2Call (data : TemplateData) (entry : string * Creator Secret)
    (w : World Secret) (call : Call Secret) : Prop :=
  match call with
  | Create obj =>
      ∃ se, entry.2 data None = Ok se ∧ obj = stampSecret se
            ∧ lister w !! entry.1 = None
  | Update obj =>
      ∃ existing se,
        lister w !! entry.1 = Some existing
        ∧ entry.2 data (Some existing) = Ok se ∧ obj = stampSecret se
        ∧ GetAnnotations existing !! checksumAnnotation
          ≠ Some (checksumOfBytes (Secret_Data se))
  | _ => False
  end.

(** The same for [ensureSecrets]: a Create carries what the op generates
    from nothing, finished with the op's name and the generated JSON; a
    Patch is a merge patch addressed to the op's secret. *)
Definition orderedSecretCall (c : ClusterT) (op : secretOp)
    (w : World Secret) (call : Call Secret) : Prop :=
  match call with
  | Create obj =>
      lister w !! name op = None
      ∧ ∃ generated currentJSON,
          gen op (lister w) c None = Ok (generated, currentJSON)
          ∧ obj = finishGenerated op generated currentJSON
  | Patch n pt _ => n = name op ∧ pt = MergePatchType ∧ is_Some (lister w !! name op)
  | _ => False
  end.

(** The entry [countSeedResourceUpdate] records for an accepted call:
    Updates and Patches are counted under the kind, nothing else is. *)
Definition counted {T} `{Object T} (kind : string) (call : Call T)
    : list (string * string) :=
  match call with
  | Update obj => [(kind, GetName obj)]
  | Patch n _ _ => [(kind, n)]
  | _ => []
  end.

(** Between [before] and [after] the log of calls has only grown, and
    only by calls that [allowed] admits. *)
Definition onlyIssues {T} (allowed : Call T → bool) (before after : World T) : Prop :=
  ∃ issued, calls after = calls before ++ issued ∧ Forall (λ call, allowed call = true) issued.

(** The calls of the structural and the checksum-gated kinds, of the
    Secrets and of the workloads. *)
Definition createOrUpdate {T} (call : Call T) : bool := isCreate call || isUpdate call.
Definition createUpdateOrMergePatch {T} (call : Call T) : bool :=
  isCreate call || isUpdate call || isMergePatch call.
Definition createUpdateOrForegroundDelete {T} (call : Call T) : bool :=
  isCreate call || isUpdate call || isForegroundDelete call.

(** Between two states of the namespace every kind has only received
    calls of its own sort: merge patches go to Secrets only, foreground
    Deletes to Deployments and StatefulSets only. *)
Definition keepsToVerbs (before after : Seed) : Prop :=
  onlyIssues createOrUpdate (ServiceAccounts before) (ServiceAccounts after)
  ∧ onlyIssues createOrUpdate (Roles before) (Roles after)
  ∧ onlyIssues createOrUpdate (RoleBindings before) (RoleBindings after)
  ∧ onlyIssues createOrUpdate (ClusterRoleBindings before) (ClusterRoleBindings after)
  ∧ onlyIssues createOrUpdate (Services before) (Services after)
  ∧ onlyIssues createUpdateOrMergePatch (Secrets before) (Secrets after)
  ∧ onlyIssues createOrUpdate (ConfigMaps before) (ConfigMaps after)
  ∧ onlyIssues createUpdateOrForegroundDelete (Deployments before) (Deployments after)
  ∧ onlyIssues createUpdateOrForegroundDelete (StatefulSets before) (StatefulSets after)
  ∧ onlyIssues createOrUpdate (PodDisruptionBudgets before) (PodDisruptionBudgets after).

(** The informer has caught up on every kind. *)
Definition resyncSeed (s : Seed) : Seed :=
  mkSeed (resync (ServiceAccounts s)) (resync (Roles s)) (resync (RoleBindings s))
         (resync (ClusterRoleBindings s)) (resync (Services s)) (resync (Secrets s))
         (resync (ConfigMaps s)) (resync (Deployments s)) (resync (StatefulSets s))
         (resync (PodDisruptionBudgets s)).

(** Every lister shows what the server holds. *)
Definition inSyncSeed (s : Seed) : Prop :=
  lister (ServiceAccounts s) = apiserver (ServiceAccounts s)
  ∧ lister (Roles s) = apiserver (Roles s)
  ∧ lister (RoleBindings s) = apiserver (RoleBindings s)
  ∧ lister (ClusterRoleBindings s) = apiserver (ClusterRoleBindings s)
  ∧ lister (Services s) = apiserver (Services s)
  ∧ lister (Secrets s) = apiserver (Secrets s)
  ∧ lister (ConfigMaps s) = apiserver (ConfigMaps s)
  ∧ lister (Deployments s) = apiserver (Deployments s)
  ∧ lister (StatefulSets s) = apiserver (StatefulSets s)
  ∧ lister (PodDisruptionBudgets s) = apiserver (PodDisruptionBudgets s).

(** The builders of every kind keep to their own, distinct names and
    reproduce what they built; the ordered Secrets and the Secrets of the
    map of creators are different secrets. *)
Definition buildersReproduce (data : TemplateData) (res : Resources) (c : ClusterT) : Prop :=
  reproducing data (ServiceAccountCreators res)
  ∧ reproducing data [prometheus_Role res]
  ∧ reproducing data [prometheus_RoleBinding res]
  ∧ reproducing data (GetServiceCreators res)
  ∧ reproducing data (GetPodDisruptionBudgetCreators res)
  ∧ reproducing data (GetDeploymentCreators res (Some c))
  ∧ reproducing data (GetStatefulSetCreators res)
  ∧ reproducingPayload stampConfigMap ConfigMap_Data data (GetConfigMapCreators res)
  ∧ (∀ key create, GetSecretCreators res !! key = Some create →
       namedCreator data create key
       ∧ reproducesPayload stampSecret Secret_Data data create)
  ∧ NoDup (name <$> secretOpsFor res c)
  ∧ (∀ op, op ∈ secretOpsFor res c → reproducesJSON c op)
  ∧ (∀ op, op ∈ secretOpsFor res c → GetSecretCreators res !! name op = None).

(** An item of the two loops over Secrets, run one after the other: an op
    of [ensureSecrets] or an entry of the map of [ensureSecretsV2]. *)
Definition secretItem : Type := secretOp + string * Creator Secret.

Definition secretItemBody (env : Env Secret) (js : JSONLib Secret) (c : ClusterT)
    (data : TemplateData) (item : secretItem) : World Secret → Flow Secret :=
  match item with
  | inl op => ensureSecretsBody env js c op
  | inr entry => ensureSecretsV2Body env c data entry
  end.

Definition secretItemKey (item : secretItem) : string :=
  match item with
  | inl op => name op
  | inr entry => entry.1
  end.

Definition secretItemBehaves (c : ClusterT) (data : TemplateData) (item : secretItem) : Prop :=
  match item with
  | inl op => reproducesJSON c op
  | inr entry => secretBehaves data entry
  end.

Definition secretItemSettled (c : ClusterT) (data : TemplateData) (item : secretItem)
    (x : Secret) : Prop :=
  match item with
  | inl op => secretApplied c op x
  | inr entry => secretUpToDate data entry x
  end.

End Cluster.

(* ===================================================================== *)
(** * The Project synchronizer (project-synchronizer/controller.go) *)
(* ===================================================================== *)

Module ProjectSync.

Definition ControllerName : string := "project-sync-controller".

(** [kubermaticv1.Project], the fields the controller touches.  The
    finalizers are kept as a set: the helpers of [kuberneteshelper] work on
    the set of finalizer names. *)
Record Project : Type := mkProject {
  Name : string;
  DeletionTimestamp : option nat;
  Finalizers : gset string;
  Spec : string;
  Status : string;
}.

#[global] Instance Project_eq_dec : EqDecision Project.
Proof. solve_decision. Defined.

(** Modelled from the spec: [kuberneteshelper.HasFinalizer],
    [AddFinalizer] and [RemoveFinalizer] live in [pkg/kubernetes], which is
    not among the sources; the finalizer "is present", is "written if
    absent" and is "removed". *)
Definition HasFinalizer (o : Project) (finalizer : string) : bool :=
  bool_decide (finalizer ∈ Finalizers o).

Definition setFinalizers (fs : gset string) (o : Project) : Project :=
  mkProject (Name o) (DeletionTimestamp o) fs (Spec o) (Status o).

Definition AddFinalizer (o : Project) (finalizer : string) : Project :=
  setFinalizers ({[finalizer]} ∪ Finalizers o) o.

Definition RemoveFinalizer (o : Project) (finalizer : string) : Project :=
  setFinalizers (Finalizers o ∖ {[finalizer]}) o.

(** [project.DeepCopy()] *)
Definition DeepCopyProject (o : Project) : Project := o.

(** ** A cluster client *)

(** A request received by a cluster's API. *)
Inductive Request : Type :=
  | ReqGet (name : string)
  | ReqList
  | ReqCreate (obj : Project)
  | ReqUpdate (obj : Project)
  | ReqDelete (name : string)
  | ReqPatch (name : string) (finalizers : option (gset string)) (spec : option string)
  | ReqStatusPatch (name : string) (status : option string).

(** [ctrlruntimeclient.Client] for one cluster: the Projects it stores,
    the requests it has received (oldest first), and the requests it
    answers with an error of its own (unreachable, conflict, forbidden). *)
Record Client : Type := mkClient {
  objects : gmap string Project;
  requests : list Request;
  fails : Request → option error;
  now : nat;
}.

Definition notFound (name : string) : error :=
  StatusError StatusReasonNotFound ("projects '" +:+ name +:+ "' not found").
Definition alreadyExists (name : string) : error :=
  StatusError StatusReasonAlreadyExists ("projects '" +:+ name +:+ "' already exists").

Definition received (r : Request) (cl : Client) : Client :=
  mkClient (objects cl) (requests cl ++ [r]) (fails cl) (now cl).

(** The server stores [o]; an object under deletion whose last finalizer
    is gone is collected at once. *)
Definition store (o : Project) (cl : Client) : Client :=
  mkClient
    (if decide (is_Some (DeletionTimestamp o) ∧ Finalizers o = ∅)
     then delete (Name o) (objects cl)
     else <[Name o := o]> (objects cl))
    (requests cl) (fails cl) (now cl).

(** [client.Get(ctx, name, obj)] *)
Definition Get (name : string) (cl : Client) : result Project * Client :=
  let cl := received (ReqGet name) cl in
  match fails cl (ReqGet name) with
  | Some err => (Err err, cl)
  | None =>
      match objects cl !! name with
      | Some o => (Ok o, cl)
      | None => (Err (notFound name), cl)
      end
  end.

(** [client.List(ctx, list)]: on failure the list is left as it was. *)
Definition List (cl : Client) : result (list Project) * Client :=
  let cl := received ReqList cl in
  match fails cl ReqList with
  | Some err => (Err err, cl)
  | None => (Ok (map_to_list (objects cl)).*2, cl)
  end.

(** [client.Create(ctx, obj)] *)
Definition Create (obj : Project) (cl : Client) : option error * Client :=
  let cl := received (ReqCreate obj) cl in
  match fails cl (ReqCreate obj) with
  | Some err => (Some err, cl)
  | None =>
      match objects cl !! Name obj with
      | Some _ => (Some (alreadyExists (Name obj)), cl)
      | None => (None, store obj cl)
      end
  end.

(** [client.Update(ctx, obj)] *)
Definition Update (obj : Project) (cl : Client) : option error * Client :=
  let cl := received (ReqUpdate obj) cl in
  match fails cl (ReqUpdate obj) with
  | Some err => (Some err, cl)
  | None =>
      match objects cl !! Name obj with
      | None => (Some (notFound (Name obj)), cl)
      | Some cur =>
          (* the deletion timestamp and the status are not the client's to set *)
          (None, store (mkProject (Name obj) (DeletionTimestamp cur) (Finalizers obj)
                                  (Spec obj) (Status cur)) cl)
      end
  end.

(** [client.Delete(ctx, obj)]: an object with finalizers is only marked. *)
Definition Delete (obj : Project) (cl : Client) : option error * Client :=
  let cl := received (ReqDelete (Name obj)) cl in
  match fails cl (ReqDelete (Name obj)) with
  | Some err => (Some err, cl)
  | None =>
      match objects cl !! Name obj with
      | None => (Some (notFound (Name obj)), cl)
      | Some cur =>
          (None, store (mkProject (Name cur)
                          (match DeletionTimestamp cur with
                           | Some t => Some t
                           | None => Some (now cl)
                           end)
                          (Finalizers cur) (Spec cur) (Status cur)) cl)
      end
  end.

(** [a != b ? Some b : None]: one field of a merge patch. *)
Definition changed {A} `{EqDecision A} (old new : A) : option A :=
  if decide (old = new) then None else Some new.

(** [client.Patch(ctx, obj, ctrlruntimeclient.MergeFrom(old))]: the
    patch carries the fields of [obj] that differ from [old]. *)
Definition Patch (obj old : Project) (cl : Client) : option error * Client :=
  let req := ReqPatch (Name obj) (changed (Finalizers old) (Finalizers obj))
                      (changed (Spec old) (Spec obj)) in
  let cl := received req cl in
  match fails cl req with
  | Some err => (Some err, cl)
  | None =>
      match objects cl !! Name obj with
      | None => (Some (notFound (Name obj)), cl)
      | Some cur =>
          (None, store (mkProject (Name cur) (DeletionTimestamp cur)
                          (default (Finalizers cur) (changed (Finalizers old) (Finalizers obj)))
                          (default (Spec cur) (changed (Spec old) (Spec obj)))
                          (Status cur)) cl)
      end
  end.

(** [client.Status().Patch(ctx, obj, ctrlruntimeclient.MergeFrom(old))] *)
Definition Status_Patch (obj old : Project) (cl : Client) : option error * Client :=
  let req := ReqStatusPatch (Name obj) (changed (Status old) (Status obj)) in
  let cl := received req cl in
  match fails cl req with
  | Some err => (Some err, cl)
  | None =>
      match objects cl !! Name obj with
      | None => (Some (notFound (Name obj)), cl)
      | Some cur =>
          (None, store (mkProject (Name cur) (DeletionTimestamp cur) (Finalizers cur)
                          (Spec cur)
                          (default (Status cur) (changed (Status old) (Status obj)))) cl)
      end
  end.

(** Modelled from the spec: [reconciling.ReconcileKubermaticV1Projects]
    applied to the single creator [projectCreatorGetter(project)]; both
    live outside the sources at hand.  Section 4.4: "reconcile
    (create-if-absent / no-op-if-unchanged) the Project's spec on that
    seed". *)
Definition ReconcileKubermaticV1Projects (project : Project) (seedClusterClient : Client)
    : option error * Client :=
  match Get (Name project) seedClusterClient with
  | (Err err, cl) =>
      if IsNotFound err
      then Create (mkProject (Name project) None ∅ (Spec project) "") cl
      else (Some err, cl)
  | (Ok existing, cl) =>
      if decide (Spec existing = Spec project) then (None, cl)
      else Update (mkProject (Name existing) (DeletionTimestamp existing)
                             (Finalizers existing) (Spec project) (Status existing)) cl
  end.

(** ** The reconciler *)

(** An event recorded through [r.recorder.Eventf]. *)
Record Event : Type := mkEvent {
  event_object : string;
  event_type : string;
  event_reason : string;
  event_message : string;
}.

(** [reconciler] together with the clusters its clients talk to.
    [masterClient] and [masterAPIClient] address the same cluster. *)
Record reconciler : Type := mkReconciler {
  masterClient : Client;
  seedClients : gmap string Client;
  recorder : list Event;
  log : list string;
}.

Definition withMaster (cl : Client) (r : reconciler) : reconciler :=
  mkReconciler cl (seedClients r) (recorder r) (log r).
Definition withSeed (seedName : string) (cl : Client) (r : reconciler) : reconciler :=
  mkReconciler (masterClient r) (<[seedName := cl]> (seedClients r)) (recorder r) (log r).
Definition Debugw (msg seedName : string) (r : reconciler) : reconciler :=
  mkReconciler (masterClient r) (seedClients r) (recorder r)
               (log r ++ [msg +:+ " seed=" +:+ seedName]).
Definition Eventf (object type reason message : string) (r : reconciler) : reconciler :=
  mkReconciler (masterClient r) (seedClients r)
               (recorder r ++ [mkEvent object type reason message]) (log r).

(** A visiting order of [r.seedClients]: every seed exactly once. *)
Definition range_order (visit : list string) (r : reconciler) : Prop :=
  visit ≡ₚ elements (dom (seedClients r)).

(** [syncAllSeeds].  [visit] is the order in which the range statement
    visits [r.seedClients]. *)
Fixpoint syncAllSeeds (visit : list string) (project : Project)
    (action : Client → Project → option error * Client) (r : reconciler)
    : option error * reconciler :=
  match visit with
  | [] => (None, r)
  | seedName :: rest =>
      match seedClients r !! seedName with
      | None => syncAllSeeds rest project action r
      | Some seedClient =>
          match action seedClient project with
          | (Some err, seedClient) =>
              (Some (Errorf_w ("failed syncing project for seed " +:+ seedName +:+ ": ") err),
               withSeed seedName seedClient r)
          | (None, seedClient) =>
              syncAllSeeds rest project action
                (Debugw "Reconciled project with seed" seedName
                        (withSeed seedName seedClient r))
          end
      end
  end.

Section Reconciler.
(** [kubermaticapiv1.SeedProjectCleanupFinalizer], declared in
    [pkg/api/v1]. *)
Variable SeedProjectCleanupFinalizer : string.

(** The action of [handleDeletion]. *)
Definition deleteOnSeed (seedClusterClient : Client) (project : Project)
    : option error * Client :=
  let '(err, cl) := Delete project seedClusterClient in
  (IgnoreNotFound err, cl).

(** [handleDeletion] *)
Definition handleDeletion (visit : list string) (project : Project) (r : reconciler)
    : option error * reconciler :=
  match syncAllSeeds visit project deleteOnSeed r with
  | (Some err, r) => (Some err, r)
  | (None, r) =>
      let finalizer := SeedProjectCleanupFinalizer in
      if HasFinalizer project finalizer then
        let oldProject := DeepCopyProject project in
        let project := RemoveFinalizer project finalizer in
        (* ignore NotFound because on shared master/seed systems, the
           code above will already have deleted the binding *)
        match Patch project oldProject (masterClient r) with
        | (err, cl) =>
            match IgnoreNotFound err, err with
            | Some _, Some err =>
                (Some (Errorf_w ("failed to remove project finalizer " +:+ finalizer
                                 +:+ ": ") err), withMaster cl r)
            | _, _ => (None, withMaster cl r)
            end
        end
      else (None, r)
  end.

(** [reconcile.Request]: the key of the object to reconcile. *)
Record ReconcileRequest : Type := mkRequest { NamespacedName : string }.

Definition setStatus (status : string) (o : Project) : Project :=
  mkProject (Name o) (DeletionTimestamp o) (Finalizers o) (Spec o) status.

Definition EventTypeWarning : string := "Warning".

(** The action of the active pass of [Reconcile]; [outer] is the
    [project] variable of [Reconcile] that the closure captures. *)
Definition syncOnSeed (request : ReconcileRequest) (outer : Project)
    (seedClusterClient : Client) (project : Project) : option error * Client :=
  match ReconcileKubermaticV1Projects outer seedClusterClient with
  | (Some err, cl) => (Some (Errorf_w "failed to reconcile project: " err), cl)
  | (None, cl) =>
      match Get (NamespacedName request) cl with
      | (Err err, cl) =>
          (Some (Errorf_w "failed to fetch project on seed cluster: " err), cl)
      | (Ok seedProject, cl) =>
          let oldProject := DeepCopyProject seedProject in
          let seedProject := setStatus (Status outer) seedProject in
          match Status_Patch seedProject oldProject cl with
          | (Some err, cl) =>
              (Some (Errorf_w "failed to update project status on seed cluster: " err), cl)
          | (None, cl) => (None, cl)
          end
      end
  end.

(** [Reconcile].  The [reconcile.Result] it returns is the zero value on
    every path and is left out. *)
Definition Reconcile (visit : list string) (request : ReconcileRequest) (r : reconciler)
    : option error * reconciler :=
  match Get (NamespacedName request) (masterClient r) with
  | (Err err, cl) => (IgnoreNotFound (Some err), withMaster cl r)
  | (Ok project, cl) =>
      let r := withMaster cl r in
      if bool_decide (is_Some (DeletionTimestamp project)) then
        match handleDeletion visit project r with
        | (Some err, r) => (Some (Errorf_w "handling deletion: " err), r)
        | (None, r) => (None, r)
        end
      else
        match
          if negb (HasFinalizer project SeedProjectCleanupFinalizer) then
            let project := AddFinalizer project SeedProjectCleanupFinalizer in
            match Update project (masterClient r) with
            | (Some err, cl) =>
                inl (Errorf_w ("failed to add project finalizer " +:+ Name project
                               +:+ ": ") err, withMaster cl r)
            | (None, cl) => inr (project, withMaster cl r)
            end
          else inr (project, r)
        with
        | inl (err, r) => (Some err, r)
        | inr (project, r) =>
            match syncAllSeeds visit project (syncOnSeed request project) r with
            | (Some err, r) =>
                let r := Eventf (Name project) EventTypeWarning "ReconcilingError"
                                (Error err) r in
                (Some (Errorf_w ("reconciled project: " +:+ Name project +:+ ": ") err), r)
            | (None, r) => (None, r)
            end
        end
  end.

(** The map function built by [enqueueAllProjects(client, log)]; [a] is
    the Seed object whose event is being handled.  The function has no
    error result. *)
Definition enqueueAllProjects (a : string) (r : reconciler)
    : list ReconcileRequest * reconciler :=
  let '(projectList, r) :=
    match List (masterClient r) with
    | (Err err, cl) =>
        let r := withMaster cl r in
        (* log.Error(err); utilruntime.HandleError(...) *)
        ([], mkReconciler (masterClient r) (seedClients r) (recorder r)
                          (log r ++ [Error err;
                                     Error (Errorf_w "failed to list projects: " err)]))
    | (Ok items, cl) => (items, withMaster cl r)
    end in
  (map (λ project, mkRequest (Name project)) projectList, r).
End Reconciler.

(** ** Vocabulary for the properties *)

(** The Delete of [project] on every registered seed returns success or
    NotFound. *)
Definition allSeedsDeleted (project : Project) (r : reconciler) : Prop :=
  ∀ seedName seedClient,
    seedClients r !! seedName = Some seedClient →
    IgnoreNotFound (Delete project seedClient).1 = None.

(** The control-plane copy of the Project named [name] still carries
    [finalizer]. *)
Definition finalizerInPlace (name finalizer : string) (r : reconciler) : Prop :=
  ∃ o, objects (masterClient r) !! name = Some o ∧ finalizer ∈ Finalizers o.

(** The requests a client has received beyond those of [before]. *)
Definition newRequests (before after : Client) : list Request :=
  drop (length (requests before)) (requests after).

End ProjectSync.

(* ===================================================================== *)
(** * The Hetzner size endpoints (api/pkg/handler/v1/provider/hetzner.go) *)
(* ===================================================================== *)

Module Hetzner.

(** [hcloud.ServerType], the fields read.  The memory, a [float32], is
    only copied and is carried as its bits. *)
Record ServerType : Type := mkServerType {
  ID : Z;
  Name : string;
  Description : string;
  Cores : Z;
  Memory : Z;
  Disk : Z;
}.

(** [apiv1.HetznerSize] *)
Record HetznerSize : Type := mkHetznerSize {
  Size_ID : Z;
  Size_Name : string;
  Size_Description : string;
  Size_Cores : Z;
  Size_Memory : Z;
  Size_Disk : Z;
}.

(** [apiv1.HetznerSizeList] *)
Record HetznerSizeList : Type := mkHetznerSizeList {
  Standard : list HetznerSize;
  Dedicated : list HetznerSize;
}.

(** [reStandardSize.MatchString] and [reDedicatedSize.MatchString]: the
    patterns [(^cx)] and [(^ccx)] are a literal anchored at the start of
    the text. *)
Definition reStandardSize_MatchString (s : string) : bool := String.prefix "cx" s.
Definition reDedicatedSize_MatchString (s : string) : bool := String.prefix "ccx" s.

(** The body of the loop of [hetznerSize]. *)
Definition classify (sizeList : HetznerSizeList) (size : ServerType) : HetznerSizeList :=
  let s := mkHetznerSize (ID size) (Name size) (Description size) (Cores size)
                         (Memory size) (Disk size) in
  if reStandardSize_MatchString (Name size)
  then mkHetznerSizeList (Standard sizeList ++ [s]) (Dedicated sizeList)
  else if reDedicatedSize_MatchString (Name size)
  then mkHetznerSizeList (Standard sizeList) (Dedicated sizeList ++ [s])
  else sizeList.

Section Endpoints.
(** [hcloud.NewClient(hcloud.WithToken(token)).ServerType.List(ctx,
    listOptions)] with the first page of a thousand: the Hetzner API,
    taken as given. *)
Variable ServerType_List : string → result (list ServerType).

(** [hetznerSize]; the source returns the list and the error side by
    side. *)
Definition hetznerSize (token : string) : HetznerSizeList * option error :=
  match ServerType_List token with
  | Err err =>
      (mkHetznerSizeList [] [], Some (Errorf_v "failed to list sizes: " err))
  | Ok sizes => (foldl classify (mkHetznerSizeList [] []) sizes, None)
  end.

(** [HetznerSizesReq] *)
Record HetznerSizesReq : Type := mkHetznerSizesReq {
  HetznerToken : string;
  Credential : string;
}.

(** A preset credential of [credentialManager.GetPresets().Hetzner]. *)
Record HetznerCredential : Type := mkHetznerCredential {
  Credential_Name : string;
  Credential_Token : string;
}.

(** [for _, credential := range credentials { if credential.Name ==
    req.Credential { token = credential.Token; break } }] *)
Fixpoint tokenOf (credentials : list HetznerCredential) (name token : string) : string :=
  match credentials with
  | [] => token
  | credential :: rest =>
      if decide (Credential_Name credential = name)
      then Credential_Token credential
      else tokenOf rest name token
  end.

(** [HetznerSizeEndpoint(credentialManager)]; a nil slice of credentials
    is the empty list. *)
Definition HetznerSizeEndpoint (credentials : list HetznerCredential)
    (req : HetznerSizesReq) : HetznerSizeList * option error :=
  let token := HetznerToken req in
  let token :=
    if decide (0 < String.length (Credential req))
    then tokenOf credentials (Credential req) token
    else token in
  hetznerSize token.

(** [HetznerSizesNoCredentialsReq], that is [common.GetClusterReq]. *)
Record HetznerSizesNoCredentialsReq : Type := mkHetznerSizesNoCredentialsReq {
  ProjectID : string;
  ClusterID : string;
}.

(** What the endpoint takes from its context and from other packages:
    the providers of the request's user, [common.KubernetesErrorToHTTPError]
    and [errors.NewNotFound].  [Spec_Cloud_Hetzner_Token] is the token of
    the cluster's Hetzner cloud spec, [None] when the spec is nil. *)
Record Access : Type := mkAccess {
  projectProvider_Get : string → option error;
  clusterProvider_Get : string → result (option string);
  KubernetesErrorToHTTPError : error → error;
  NewNotFound : string → string → error;
}.

(** [HetznerSizeWithClusterCredentialsEndpoint(projectProvider)]; the
    first component is [None] where the source returns a nil interface. *)
Definition HetznerSizeWithClusterCredentialsEndpoint (access : Access)
    (req : HetznerSizesNoCredentialsReq) : option HetznerSizeList * option error :=
  match projectProvider_Get access (ProjectID req) with
  | Some err => (None, Some (KubernetesErrorToHTTPError access err))
  | None =>
      match clusterProvider_Get access (ClusterID req) with
      | Err err => (None, Some (KubernetesErrorToHTTPError access err))
      | Ok Spec_Cloud_Hetzner_Token =>
          match Spec_Cloud_Hetzner_Token with
          | None => (None, Some (NewNotFound access "cloud spec for " (ClusterID req)))
          | Some hetznerToken =>
              let '(sizes, err) := hetznerSize hetznerToken in (Some sizes, err)
          end
      end
  end.
End Endpoints.

(** The size the endpoint reports for a server type. *)
Definition sizeOf (size : ServerType) : HetznerSize :=
  mkHetznerSize (ID size) (Name size) (Description size) (Cores size)
                (Memory size) (Disk size).

End Hetzner.

(* ===================================================================== *)
(** * Concrete clusters, stores and creators used in the examples *)
(* ===================================================================== *)

Module Fixtures.
Import Cluster.

Definition cluster1 : ClusterT := mkCluster "c1" "dc-1" [] "cluster-c1".
Definition controller1 : Controller := mkController {["dc-1" := "datacenter one"]}.
Definition data1 : TemplateData := mkTemplateData cluster1 "datacenter one".

(** A server that accepts every call and whose informer publishes at
    once; patches are applied by [apply]. *)
Definition accepting {T} (apply : T → string → T) : Env T :=
  mkEnv (λ _, None) (λ _, Some 0) apply.

(** A store in which the lister has caught up with the server. *)
Definition synced {T} (objs : gmap string T) : World T :=
  mkWorld objs objs [] [] 0 [].

Definition meta (name : string) : ObjectMeta := mkObjectMeta name "cluster-c1" ∅.

(** The two payloads of the collision example. *)
Definition payload_ab : gmap string string := {["a" := "x"; "b" := "y"]}.
Definition payload_a : gmap string string := {["a" := "xb:y"]}.

(** A creator that ignores the existing object. *)
Definition constant {T} (obj : T) : Creator T := λ _ _, Ok obj.

(** No builders at all; the examples fill in the lists they need. *)
Definition noResources : Resources :=
  mkResources "prometheus"
    (λ name _ _, mkServiceAccount (meta name) "")
    (constant (mkRole (meta "prometheus") ""))
    (constant (mkRoleBinding (meta "prometheus") ""))
    [] [] (constant (mkDeployment (meta "ipam-controller")
                      (mkWorkloadSpec (mkLabelSelector ∅) "")))
    ∅ [] [] []
    [] (mkSecretOp "ipam-controller-kubeconfig"
          (λ _ _ _, Ok (mkSecret (meta "ipam-controller-kubeconfig") ∅, "{}"))).

Definition withDeploymentCreators (l : list (Creator Deployment)) (res : Resources)
    : Resources :=
  mkResources (PrometheusServiceAccountName res) (resources_ServiceAccount res)
    (prometheus_Role res) (prometheus_RoleBinding res) (ServiceCreators res)
    l (ipamcontroller_Deployment res) (SecretCreators res) (ConfigMapCreators res)
    (StatefulSetCreators res) (PodDisruptionBudgetCreators res) (secretOps res)
    (ipamSecret res).

Definition withStatefulSetCreators (l : list (Creator StatefulSet)) (res : Resources)
    : Resources :=
  mkResources (PrometheusServiceAccountName res) (resources_ServiceAccount res)
    (prometheus_Role res) (prometheus_RoleBinding res) (ServiceCreators res)
    (DeploymentCreators res) (ipamcontroller_Deployment res) (SecretCreators res)
    (ConfigMapCreators res) l (PodDisruptionBudgetCreators res) (secretOps res)
    (ipamSecret res).

Definition withServiceCreators (l : list (Creator Service)) (res : Resources)
    : Resources :=
  mkResources (PrometheusServiceAccountName res) (resources_ServiceAccount res)
    (prometheus_Role res) (prometheus_RoleBinding res) l
    (DeploymentCreators res) (ipamcontroller_Deployment res) (SecretCreators res)
    (ConfigMapCreators res) (StatefulSetCreators res) (PodDisruptionBudgetCreators res)
    (secretOps res) (ipamSecret res).

Definition withSecretOps (l : list secretOp) (res : Resources) : Resources :=
  mkResources (PrometheusServiceAccountName res) (resources_ServiceAccount res)
    (prometheus_Role res) (prometheus_RoleBinding res) (ServiceCreators res)
    (DeploymentCreators res) (ipamcontroller_Deployment res) (SecretCreators res)
    (ConfigMapCreators res) (StatefulSetCreators res) (PodDisruptionBudgetCreators res)
    l (ipamSecret res).

(** A Service creator that is a function of its input, hence
    deterministic, but does not reproduce its output: it marks the spec of
    whatever exists with one more revision sign. *)
Definition revising (name : string) : Creator Service :=
  λ _ existing,
    Ok (mkService (meta name)
          (match existing with
           | Some svc => Service_Spec svc +:+ "+"
           | None => "v1"
           end)).

(** A workload spec with the single selector label [app=v]. *)
Definition selecting (v : string) : WorkloadSpec :=
  mkWorkloadSpec (mkLabelSelector {["app" := v]}) "template".

Definition deployment (name v : string) : Deployment :=
  mkDeployment (meta name) (selecting v).
Definition statefulSet (name v : string) : StatefulSet :=
  mkStatefulSet (meta name) (selecting v).

(** A stand-in for the JSON library.  Marshalling renders the name and the
    last-applied annotation of a secret; the three-way patch refuses an
    original that is not a JSON object, as the library does for an
    invalid document, and otherwise answers with the modified document. *)
Definition isJSONObject (doc : string) : bool :=
  match doc with
  | EmptyString => true
  | String ch _ => bool_decide (ch = "{"%char)
  end.

Definition jsonLib : JSONLib Secret :=
  mkJSONLib
    (λ s, Ok ("{name:" +:+ GetName s +:+ ",applied:"
              +:+ index (GetAnnotations s) lastAppliedConfigAnnotation +:+ "}"))
    (λ original modified current,
       if isJSONObject original then Ok modified
       else Err (ErrorString "Invalid JSON Document")).

(** The server applies a patch by recording it as the last-applied
    configuration. *)
Definition recordPatch (s : Secret) (patch : string) : Secret :=
  mkSecret (setAnnotation lastAppliedConfigAnnotation patch (Secret_Meta s))
           (Secret_Data s).

(** Three ordered ops: a CA, a serving certificate signed by the CA that
    the secret lister holds, and a kubeconfig. *)
Definition caOp : secretOp :=
  mkSecretOp "ca" (λ _ _ _, Ok (mkSecret (meta "ca") {["ca.crt" := "CA-1"]}, "{ca}")).

Definition tlsOp : secretOp :=
  mkSecretOp "apiserver-tls"
    (λ secrets _ _,
       match secrets !! "ca" with
       | Some ca =>
           Ok (mkSecret (meta "apiserver-tls")
                 {["tls.crt" := "signed by " +:+ index (Secret_Data ca) "ca.crt"]},
               "{tls}")
       | None => Err (ErrorString "CA not found in lister")
       end).

Definition kubeconfigOp : secretOp :=
  mkSecretOp "admin-kubeconfig"
    (λ _ _ _, Ok (mkSecret (meta "admin-kubeconfig") {["kubeconfig" := "..."]}, "{kc}")).

(** A server whose informer never publishes anything. *)
Definition deaf {T} (apply : T → string → T) : Env T :=
  mkEnv (λ _, None) (λ _, None) apply.

End Fixtures.

Module SyncFixtures.
Import ProjectSync.

Definition cleanup : string := "kubermatic.io/cleanup-seed-projects".

(** A cluster that answers every request. *)
Definition reliable (objs : gmap string Project) : Client :=
  mkClient objs [] (λ _, None) 5.

(** A control plane that refuses every Patch with a conflict. *)
Definition refusingPatches (objs : gmap string Project) : Client :=
  mkClient objs []
    (λ req, match req with
            | ReqPatch _ _ _ => Some (StatusError StatusReasonConflict "conflict")
            | _ => None
            end) 5.

(** A cluster that cannot be reached. *)
Definition unreachable (objs : gmap string Project) : Client :=
  mkClient objs [] (λ _, Some (StatusError StatusReasonOther "connection refused")) 5.

Definition deletingProject : Project :=
  mkProject "p1" (Some 3) {[cleanup]} "spec" "Active".
Definition activeProject : Project :=
  mkProject "p1" None {[cleanup]} "spec" "Active".
Definition seedCopy : Project :=
  mkProject "p1" None ∅ "spec" "Active".

Definition request : ReconcileRequest := mkRequest "p1".

(** Master and seeds of the examples. *)
Definition fleet (master : Client) (seeds : gmap string Client) : reconciler :=
  mkReconciler master seeds [] [].

End SyncFixtures.

Module PassFixtures.
Import Cluster Fixtures.

(** A namespace in which nothing exists yet. *)
Definition emptySeed : Seed :=
  mkSeed (synced ∅) (synced ∅) (synced ∅) (synced ∅) (synced ∅) (synced ∅)
         (synced ∅) (synced ∅) (synced ∅) (synced ∅).

(** Servers that accept every call. *)
Definition acceptingAll : Envs :=
  mkEnvs (accepting (λ o _, o)) (accepting (λ o _, o)) (accepting (λ o _, o))
         (accepting (λ o _, o)) (accepting (λ o _, o)) (accepting recordPatch)
         (accepting (λ o _, o)) (accepting (λ o _, o)) (accepting (λ o _, o))
         (accepting (λ o _, o)) jsonLib.

(** A cluster whose datacenter the controller does not know. *)
Definition strayCluster : ClusterT := mkCluster "c2" "dc-unknown" [] "cluster-c2".

Definition service (name spec : string) : Service := mkService (meta name) spec.

End PassFixtures.

Module EdgeFixtures.
Import Cluster Fixtures PassFixtures.

(** A store whose lister lags behind the server: the server holds
    [objs], the lister nothing. *)
Definition lagging {T} (objs : gmap string T) : World T :=
  mkWorld ∅ objs [] [] 0 [].

(** A store whose lister still shows [objs] although the server has
    dropped them. *)
Definition outdated {T} (objs : gmap string T) : World T :=
  mkWorld objs ∅ [] [] 0 [].

(** A Deployment creator that keeps the selector of what exists and
    brings its own template. *)
Definition keepingSelector (name template : string) : Creator Deployment :=
  λ _ existing,
    Ok (mkDeployment (meta name)
          (mkWorkloadSpec
             (match existing with
              | Some dep => Selector (Deployment_Spec dep)
              | None => mkLabelSelector {["app" := name]}
              end)
             template)).

Definition configMap (name : string) (data : gmap string string) : ConfigMap :=
  mkConfigMap (meta name) data.

(** A ConfigMap as the loop has written it, to which someone has added
    an annotation of their own since. *)
Definition annotated (cm : ConfigMap) : ConfigMap :=
  mkConfigMap (setAnnotation "edited-by" "hand" (ConfigMap_Meta (stampConfigMap cm)))
              (ConfigMap_Data cm).

Definition secret (name : string) (data : gmap string string) : Secret :=
  mkSecret (meta name) data.

End EdgeFixtures.

Module NamespaceFixtures.
Import Cluster Fixtures.

(** A cluster that has no namespace yet. *)
Definition newCluster : ClusterT := mkCluster "c1" "dc-1" [] "".

(** [updateCluster] against a store that holds [newCluster] under every
    name asked for: the modification is applied and accepted. *)
Definition updating : string → (ClusterT → ClusterT) → result ClusterT :=
  λ name modify, Ok (modify (mkCluster name "dc-1" [] "")).

(** [updateCluster] against a store that cannot be written. *)
Definition failingUpdate : string → (ClusterT → ClusterT) → result ClusterT :=
  λ _ _, Err (StatusError StatusReasonConflict "the object has been modified").

Definition ownerRef (c : ClusterT) : string := "Cluster/" +:+ Cluster_Name c.

Definition namespace (name : string) (owner : string) : NamespaceT :=
  mkNamespace (mkObjectMeta name "" ∅) [owner].

End NamespaceFixtures.

Module PathFixtures.
Import ProjectSync SyncFixtures.

(** A Project under deletion from which the cleanup finalizer is gone
    already. *)
Definition releasedProject : Project := mkProject "p1" (Some 3) ∅ "spec" "Active".

(** A control plane that answers every Patch with NotFound. *)
Definition losingPatches (objs : gmap string Project) : Client :=
  mkClient objs []
    (λ req, match req with
            | ReqPatch n _ _ => Some (notFound n)
            | _ => None
            end) 5.

(** A control plane that refuses every Update with a conflict. *)
Definition refusingUpdates (objs : gmap string Project) : Client :=
  mkClient objs []
    (λ req, match req with
            | ReqUpdate _ => Some (StatusError StatusReasonConflict "conflict")
            | _ => None
            end) 5.

End PathFixtures.

Module HetznerFixtures.
Import Hetzner.

Definition serverType (id : Z) (name : string) : ServerType :=
  mkServerType id name "" 2 4 40.

(** A Hetzner API that knows the token [good] only. *)
Definition hetznerAPI (token : string) : result (list ServerType) :=
  if decide (token = "good")
  then Ok [serverType 1 "cx11"; serverType 2 "ccx11"; serverType 3 "cpx11";
           serverType 4 "cx21"]
  else Err (ErrorString "unauthorized").

Definition presets : list HetznerCredential :=
  [mkHetznerCredential "team-a" "bad"; mkHetznerCredential "team-b" "good";
   mkHetznerCredential "team-b" "other"].

(** A user who may read the project and the cluster [c1], whose cloud
    spec is a Hetzner one; every other cluster is of another provider. *)
Definition granted : Access :=
  mkAccess (λ _, None)
           (λ id, Ok (if decide (id = "c1") then Some "good" else None))
           (λ err, err)
           (λ kind n, ErrorString (kind +:+ " " +:+ n +:+ " not found")).

(** A user who may not read the project. *)
Definition denied : Access :=
  mkAccess (λ _, Some (StatusError StatusReasonOther "forbidden"))
           (λ id, Ok (Some "good"))
           (λ err, err)
           (λ kind n, ErrorString (kind +:+ " " +:+ n +:+ " not found")).

End HetznerFixtures.

Module TwiceFixtures.
Import Cluster Fixtures PassFixtures EdgeFixtures.

(** A JSON library for which the document of a secret is its
    last-applied configuration, and whose three-way patch is the modified
    document. *)
Definition plainJSON : JSONLib Secret :=
  mkJSONLib (λ s, Ok (index (GetAnnotations s) lastAppliedConfigAnnotation))
            (λ _ modified _, Ok modified).

(** Servers that accept every call and record a patch as the
    last-applied configuration. *)
Definition recording : Envs :=
  mkEnvs (accepting (λ o _, o)) (accepting (λ o _, o)) (accepting (λ o _, o))
         (accepting (λ o _, o)) (accepting (λ o _, o)) (accepting recordPatch)
         (accepting (λ o _, o)) (accepting (λ o _, o)) (accepting (λ o _, o))
         (accepting (λ o _, o)) plainJSON.

Definition etcdTLS : Creator Secret :=
  constant (secret "etcd-tls-certificate" {["tls.crt" := "PEM"]}).

(** One Service, one ordered Secret, one Secret of the map of creators,
    besides the ServiceAccount, the Role and the RoleBinding. *)
Definition smallCluster : Resources :=
  mkResources "prometheus"
    (λ name _ _, mkServiceAccount (meta name) "")
    (constant (mkRole (meta "prometheus") ""))
    (constant (mkRoleBinding (meta "prometheus") ""))
    [constant (service "apiserver" "v1")]
    [] (ipamcontroller_Deployment noResources)
    {["etcd-tls-certificate" := etcdTLS]} [] [] []
    [caOp] (ipamSecret noResources).

End TwiceFixtures.
(* ===================================================================== *)
(** * Properties of the ChecksumComputer *)
(* ===================================================================== *)

(** Closes a decidable goal by evaluating its decision procedure. *)
Ltac decide_by_computation :=
  match goal with
  | |- ?P => apply (bool_decide_unpack P); vm_compute; exact I
  end.

Section ChecksumProperties.
Import Checksum.

Example crc_check_value : ChecksumIEEE "123456789" = 0xcbf43926%Z.
Proof. vm_compute. reflexivity. Qed.

Example sort_Strings_example :
  sort_Strings ["b:y"; "a:x"; "a:"; "B"] = ["B"; "a:"; "a:x"; "b:y"].
Proof. vm_compute. reflexivity. Qed.

Example getChecksumForStringSlice_example :
  getChecksumForStringSlice ["456789"; "123"] = "3421780262".
Proof. vm_compute. reflexivity. Qed.

(** The byte order behind [String.compare] is transitive. *)
Lemma ascii_compare_Lt_trans (a b c : ascii) :
  Ascii.compare a b = Lt → Ascii.compare b c = Lt → Ascii.compare a c = Lt.
Proof.
  unfold Ascii.compare. rewrite !N.compare_lt_iff. lia.
Qed.

Lemma string_compare_not_Gt_trans (a b c : string) :
  String.compare a b ≠ Gt → String.compare b c ≠ Gt → String.compare a c ≠ Gt.
Proof.
  revert b c. induction a as [|x a IH]; intros [|y b] [|z c]; simpl; try congruence.
  destruct (Ascii.compare x y) eqn:Hxy; try congruence.
  - apply Ascii.compare_eq_iff in Hxy as ->.
    destruct (Ascii.compare y z) eqn:Hyz; try congruence. apply IH.
  - destruct (Ascii.compare y z) eqn:Hyz; try congruence.
    + apply Ascii.compare_eq_iff in Hyz as <-. rewrite Hxy. congruence.
    + rewrite (ascii_compare_Lt_trans _ _ _ Hxy Hyz). congruence.
Qed.

#[local] Instance string_le_trans : Transitive string_le.
Proof.
  intros a b c. unfold string_le, String.leb.
  pose proof (string_compare_not_Gt_trans a b c) as Ht.
  destruct (String.compare a b), (String.compare b c), (String.compare a c);
    try congruence; intros; exfalso; apply Ht; congruence.
Qed.

#[local] Instance string_le_antisym : AntiSymm (=) string_le.
Proof. intros a b. apply String.leb_antisym. Qed.

#[local] Instance string_le_total : Total string_le.
Proof. intros a b. apply String.leb_total. Qed.

(** [sort.Strings] produces a sorted permutation of its input. *)
Lemma sort_Strings_sorted (l : list string) : Sorted string_le (sort_Strings l).
Proof. apply Sorted_merge_sort; apply _. Qed.

Lemma sort_Strings_permutation (l : list string) : sort_Strings l ≡ₚ l.
Proof. apply merge_sort_Permutation. Qed.

(** The sorted slice depends only on the multiset of the strings. *)
Lemma sort_Strings_order_independent (l1 l2 : list string) :
  l1 ≡ₚ l2 → sort_Strings l1 = sort_Strings l2.
Proof.
  intros Hp. apply (Sorted_unique string_le); try apply sort_Strings_sorted.
  by rewrite !sort_Strings_permutation.
Qed.

Lemma getChecksumForStringSlice_order_independent (l1 l2 : list string) :
  l1 ≡ₚ l2 → getChecksumForStringSlice l1 = getChecksumForStringSlice l2.
Proof.
  intros Hp. unfold getChecksumForStringSlice.
  by rewrite (sort_Strings_order_independent l1 l2 Hp).
Qed.

Lemma string_append_cons (x : ascii) (s t : string) :
  String x s +:+ t = String x (s +:+ t).
Proof. reflexivity. Qed.

Lemma string_append_nil_r (s : string) : s +:+ "" = s.
Proof. induction s; [done|]. rewrite string_append_cons. congruence. Qed.

Lemma string_append_assoc (a b c : string) : (a +:+ b) +:+ c = a +:+ (b +:+ c).
Proof. induction a; [done|]. rewrite !string_append_cons. congruence. Qed.

(** Writing the items one after the other is concatenation. *)
Lemma buffer_WriteStrings_concat (buffer : string) (items : list string) :
  buffer_WriteStrings buffer items = buffer +:+ String.concat "" items.
Proof.
  revert buffer. induction items as [|x items IH]; intros buffer.
  - simpl. by rewrite string_append_nil_r.
  - cbn [buffer_WriteStrings]. rewrite IH, string_append_assoc. f_equal.
    destruct items as [|y items]; [simpl; by rewrite string_append_nil_r|done].
Qed.


(** The keys a range statement visits, in any order, carry the entries
    of the map. *)
Lemma elements_dom_keys (data : gmap string string) :
  elements (dom data) ≡ₚ (map_to_list data).*1.
Proof.
  apply NoDup_Permutation.
  - apply NoDup_elements.
  - apply NoDup_fst_map_to_list.
  - intros k. rewrite elem_of_elements, elem_of_dom, list_elem_of_fmap. split.
    + intros [v Hv]. exists (k, v). split; [done|]. by apply elem_of_map_to_list.
    + intros [[k' v] [-> Hkv]]. exists v. by apply elem_of_map_to_list.
Qed.

Lemma keyVals_of_range (visit : list string) (data : gmap string string) :
  range_order visit data →
  map (λ k, Sprintf_kv k (index data k)) visit
  ≡ₚ map (λ kv : string * string, Sprintf_kv kv.1 kv.2) (map_to_list data).
Proof.
  unfold range_order. intros Hv.
  rewrite Hv, elements_dom_keys.
  rewrite <- list_fmap_compose.
  assert (Heq : (λ k, Sprintf_kv k (index data k)) ∘ fst <$> map_to_list data
                = map (λ kv : string * string, Sprintf_kv kv.1 kv.2) (map_to_list data)).
  { apply list_fmap_ext. intros i [k v] Hkv. simpl.
    apply list_elem_of_lookup_2, elem_of_map_to_list in Hkv.
    unfold index. by rewrite Hkv. }
  by rewrite Heq.
Qed.

(** C4.  Two maps that hold the same multiset of key/value entries get
    the same checksum from [getChecksumForMapStringString] and from
    [getChecksumForMapStringByteSlice], whatever the orders in which the
    two range statements visit them; the value is the decimal rendering
    of the CRC-32 (IEEE) of the concatenation of the lexicographically
    sorted ["key:value"] renderings of the entries. *)
Theorem checksum_identical_for_identical_entries
    (data1 data2 : gmap string string) (visit1 visit2 : list string) :
  map_to_list data1 ≡ₚ map_to_list data2 →
  range_order visit1 data1 →
  range_order visit2 data2 →
  let rendered := map (λ kv : string * string, kv.1 +:+ ":" +:+ kv.2) (map_to_list data1) in
  getChecksumForMapStringString visit1 data1 = getChecksumForMapStringString visit2 data2
  ∧ getChecksumForMapStringByteSlice visit1 data1
    = getChecksumForMapStringByteSlice visit2 data2
  ∧ getChecksumForMapStringString visit1 data1
    = Sprintf_v (ChecksumIEEE (String.concat "" (sort_Strings rendered)))
  ∧ getChecksumForMapStringByteSlice visit1 data1
    = Sprintf_v (ChecksumIEEE (String.concat "" (sort_Strings rendered)))
  ∧ Sorted string_le (sort_Strings rendered)
  ∧ sort_Strings rendered ≡ₚ rendered.
Proof.
  intros Hsame Hv1 Hv2 rendered.
  assert (Hr1 := keyVals_of_range visit1 data1 Hv1).
  assert (Hr2 := keyVals_of_range visit2 data2 Hv2).
  assert (Hr : map (λ k, Sprintf_kv k (index data1 k)) visit1
               ≡ₚ map (λ k, Sprintf_kv k (index data2 k)) visit2).
  { rewrite Hr1, Hr2. by apply Permutation_map. }
  assert (Hval : getChecksumForMapStringString visit1 data1
                 = Sprintf_v (ChecksumIEEE (String.concat "" (sort_Strings rendered)))).
  { unfold getChecksumForMapStringString, getChecksumForStringSlice.
    rewrite buffer_WriteStrings_concat.
    by rewrite (sort_Strings_order_independent _ _ Hr1). }
  repeat split.
  - by apply getChecksumForStringSlice_order_independent.
  - by apply getChecksumForStringSlice_order_independent.
  - exact Hval.
  - exact Hval.
  - apply sort_Strings_sorted.
  - apply sort_Strings_permutation.
Qed.

(** The orders [a, b] and [b, a] over the map [{a: x, b: y}], built in
    two different ways. *)
Lemma checksum_identical_for_identical_entries_witness :
  getChecksumForMapStringString ["a"; "b"] (<["a" := "x"]> {["b" := "y"]})
  = getChecksumForMapStringString ["b"; "a"] (<["b" := "y"]> {["a" := "x"]}).
Proof.
  refine (proj1 (checksum_identical_for_identical_entries
                   (<["a" := "x"]> {["b" := "y"]}) (<["b" := "y"]> {["a" := "x"]})
                   ["a"; "b"] ["b"; "a"] _ _ _)).
  - vm_compute. reflexivity.
  - unfold range_order. vm_compute. reflexivity.
  - unfold range_order. vm_compute. apply Permutation_swap.
Defined.


(** The bytes handed to the CRC: the sorted renderings, written one
    after the other with nothing in between. *)
Lemma checksum_bytes_of_range (visit : list string) (data : gmap string string) :
  range_order visit data →
  buffer_WriteStrings "" (sort_Strings (map (λ k, Sprintf_kv k (index data k)) visit))
  = String.concat ""
      (sort_Strings (map (λ kv : string * string, Sprintf_kv kv.1 kv.2) (map_to_list data))).
Proof.
  intros Hv. rewrite buffer_WriteStrings_concat.
  by rewrite (sort_Strings_order_independent _ _ (keyVals_of_range visit data Hv)).
Qed.

(** C8.  The maps [{a: x, b: y}] and [{a: xb:y}] hold different entries,
    yet for every visiting order both hand the byte string ["a:xb:y"] to
    the CRC, so both checksum functions return the same value for them;
    an existing ConfigMap or Secret stamped for the first payload is
    therefore left alone when the creator now builds the second one: the
    loop body continues without issuing any call. *)
Theorem checksum_collision_unseparated_entries (visit_ab visit_a : list string) :
  range_order visit_ab Fixtures.payload_ab →
  range_order visit_a Fixtures.payload_a →
  Fixtures.payload_ab ≠ Fixtures.payload_a
  ∧ ¬ map_to_list Fixtures.payload_ab ≡ₚ map_to_list Fixtures.payload_a
  ∧ buffer_WriteStrings ""
      (sort_Strings (map (λ k, Sprintf_kv k (index Fixtures.payload_ab k)) visit_ab))
    = "a:xb:y"
  ∧ buffer_WriteStrings ""
      (sort_Strings (map (λ k, Sprintf_kv k (index Fixtures.payload_a k)) visit_a))
    = "a:xb:y"
  ∧ getChecksumForMapStringByteSlice visit_ab Fixtures.payload_ab
    = getChecksumForMapStringByteSlice visit_a Fixtures.payload_a
  ∧ getChecksumForMapStringString visit_ab Fixtures.payload_ab
    = getChecksumForMapStringString visit_a Fixtures.payload_a
  ∧ (let existing := Cluster.stampConfigMap
                       (Cluster.mkConfigMap (Fixtures.meta "cm") Fixtures.payload_ab) in
     let w := Fixtures.synced {["cm" := existing]} in
     Cluster.ensureConfigMapsBody (Fixtures.accepting (λ o _, o)) Fixtures.cluster1
       Fixtures.data1
       (Fixtures.constant (Cluster.mkConfigMap (Fixtures.meta "cm") Fixtures.payload_a)) w
     = Cluster.Continue w)
  ∧ (let existing := Cluster.stampSecret
                       (Cluster.mkSecret (Fixtures.meta "se") Fixtures.payload_ab) in
     let w := Fixtures.synced {["se" := existing]} in
     Cluster.ensureSecretsV2Body (Fixtures.accepting (λ o _, o)) Fixtures.cluster1
       Fixtures.data1
       ("se", Fixtures.constant (Cluster.mkSecret (Fixtures.meta "se") Fixtures.payload_a)) w
     = Cluster.Continue w).
Proof.
  intros Hab Ha.
  assert (Hbytes_ab := checksum_bytes_of_range _ _ Hab).
  assert (Hbytes_a := checksum_bytes_of_range _ _ Ha).
  assert (Hsame :
    buffer_WriteStrings ""
      (sort_Strings (map (λ k, Sprintf_kv k (index Fixtures.payload_ab k)) visit_ab))
    = buffer_WriteStrings ""
      (sort_Strings (map (λ k, Sprintf_kv k (index Fixtures.payload_a k)) visit_a))).
  { rewrite Hbytes_ab, Hbytes_a. vm_compute. reflexivity. }
  split; [|split; [|split; [|split; [|split; [|split; [|split]]]]]].
  - intros Heq. apply (f_equal (λ m : gmap string string, m !! "b")) in Heq.
    vm_compute in Heq. discriminate.
  - intros Hp. apply Permutation_length in Hp. vm_compute in Hp. discriminate.
  - rewrite Hbytes_ab. vm_compute. reflexivity.
  - rewrite Hbytes_a. vm_compute. reflexivity.
  - unfold getChecksumForMapStringByteSlice, getChecksumForStringSlice.
    cbv zeta. by rewrite Hsame.
  - unfold getChecksumForMapStringString, getChecksumForStringSlice.
    cbv zeta. by rewrite Hsame.
  - vm_compute. reflexivity.
  - vm_compute. reflexivity.
Qed.

(** The first map visited as [b, a], the second as [a]. *)
Lemma checksum_collision_unseparated_entries_witness :
  getChecksumForMapStringByteSlice ["b"; "a"] Fixtures.payload_ab
  = getChecksumForMapStringByteSlice ["a"] Fixtures.payload_a.
Proof.
  refine (proj1 (proj2 (proj2 (proj2 (proj2
            (checksum_collision_unseparated_entries ["b"; "a"] ["a"] _ _)))))).
  - unfold range_order. vm_compute. apply Permutation_swap.
  - unfold range_order. vm_compute. reflexivity.
Defined.

End ChecksumProperties.

(* ===================================================================== *)
(** * Properties of the ensure loops *)
(* ===================================================================== *)

Section LoopProperties.
Import Cluster.
Context {T : Type} `{Object T}.

(** A loop whose first iterations fall through continues with the rest. *)
Lemma rangeLoop_reaches {A} (body : A → World T → Flow T) (pre rest : list A)
    (w0 w : World T) :
  reaches body pre w0 = Some w →
  rangeLoop body (pre ++ rest) w0 = rangeLoop body rest w.
Proof.
  revert w0. induction pre as [|x pre IH]; intros w0; simpl.
  - by intros [= ->].
  - destruct (body x w0); [apply IH|done].
Qed.

(** A loop that reaches an iteration which returns ends there: the items
    behind it play no part. *)
Lemma rangeLoop_returns {A} (body : A → World T → Flow T) (pre post : list A) (x : A)
    (w0 w w' : World T) (err : option error) :
  reaches body pre w0 = Some w →
  body x w = Return err w' →
  rangeLoop body (pre ++ x :: post) w0 = (err, w').
Proof.
  intros Hpre Hx. rewrite (rangeLoop_reaches _ _ _ _ _ Hpre). simpl. by rewrite Hx.
Qed.

Lemma DeepEqual_false {A} `{EqDecision A} (a b : A) : a ≠ b → DeepEqual a b = false.
Proof. intros. unfold DeepEqual. by apply bool_decide_eq_false. Qed.

Lemma DeepEqual_true {A} `{EqDecision A} (a : A) : DeepEqual a a = true.
Proof. unfold DeepEqual. by apply bool_decide_eq_true. Qed.

Lemma lister_Get_Some (name : string) (w : World T) (obj : T) :
  lister w !! name = Some obj → lister_Get name w = Ok obj.
Proof. unfold lister_Get. by intros ->. Qed.

Lemma lister_Get_None (name : string) (w : World T) :
  lister w !! name = None → lister_Get name w = Err (notFound name).
Proof. unfold lister_Get. by intros ->. Qed.

(** Every client call appends itself, and nothing else, to the calls. *)
Lemma kubeClient_Delete_calls (env : Env T) name policy (w : World T) :
  calls (kubeClient_Delete env name policy w).2 = calls w ++ [Delete name policy].
Proof.
  unfold kubeClient_Delete. simpl.
  destruct (rejects env _); [done|]. by destruct (apiserver w !! name).
Qed.

Lemma kubeClient_Create_calls (env : Env T) obj (w : World T) :
  calls (kubeClient_Create env obj w).2 = calls w ++ [Create obj].
Proof.
  unfold kubeClient_Create. simpl.
  destruct (rejects env _); [done|]. by destruct (apiserver w !! GetName obj).
Qed.

Lemma kubeClient_Update_calls (env : Env T) obj (w : World T) :
  calls (kubeClient_Update env obj w).2 = calls w ++ [Update obj].
Proof.
  unfold kubeClient_Update. simpl.
  destruct (rejects env _); [done|]. by destruct (apiserver w !! GetName obj).
Qed.

Lemma kubeClient_Patch_calls (env : Env T) name pt data (w : World T) :
  calls (kubeClient_Patch env name pt data w).2 = calls w ++ [Patch name pt data].
Proof.
  unfold kubeClient_Patch. simpl.
  destruct (rejects env _); [done|]. by destruct (apiserver w !! name).
Qed.

(** An accepted Delete of an object the server has. *)
Lemma kubeClient_Delete_accepted (env : Env T) name policy (w : World T) :
  rejects env (Delete name policy) = None →
  is_Some (apiserver w !! name) →
  (kubeClient_Delete env name policy w).1 = None
  ∧ apiserver (kubeClient_Delete env name policy w).2 = delete name (apiserver w).
Proof.
  intros Hrej [cur Hcur]. unfold kubeClient_Delete. simpl. by rewrite Hrej, Hcur.
Qed.

Section Workloads.
Context `{!Workload T}.
Variables (env : Env T) (kt : KindText) (c : ClusterT) (data : TemplateData).

(** The iteration of a workload whose selector changed: the body returns
    what the foreground Delete returns. *)
Lemma ensureWorkloadBody_selector_mismatch (create : Creator T) (w : World T)
    (dep0 existing dep : T) :
  create data None = Ok dep0 →
  lister w !! GetName dep0 = Some existing →
  create data (Some existing) = Ok dep →
  dep ≠ existing →
  MatchLabels (Selector (GetSpec dep)) ≠ MatchLabels (Selector (GetSpec existing)) →
  ensureWorkloadBody env kt c data create w
  = Return (kubeClient_Delete env (GetName dep) (Some DeletePropagationForeground) w).1
           (kubeClient_Delete env (GetName dep) (Some DeletePropagationForeground) w).2.
Proof.
  intros H0 Hget Hdep Hne Hsel. unfold ensureWorkloadBody.
  rewrite H0, (lister_Get_Some _ _ _ Hget). unfold DeepCopy. rewrite Hdep.
  rewrite (DeepEqual_false _ _ Hne), (DeepEqual_false _ _ Hsel). simpl.
  by destruct (kubeClient_Delete _ _ _ _).
Qed.

(** The whole pass, when it gets as far as that workload. *)
Lemma ensureAllWorkloads_selector_mismatch (cc : Controller)
    (pre post : list (Creator T)) (create : Creator T) (w0 w : World T)
    (dep0 existing dep : T) :
  getClusterTemplateData cc c = Ok data →
  reaches (ensureWorkloadBody env kt c data) pre w0 = Some w →
  create data None = Ok dep0 →
  lister w !! GetName dep0 = Some existing →
  create data (Some existing) = Ok dep →
  dep ≠ existing →
  MatchLabels (Selector (GetSpec dep)) ≠ MatchLabels (Selector (GetSpec existing)) →
  ensureAllWorkloads env kt (pre ++ create :: post) cc c w0
  = kubeClient_Delete env (GetName dep) (Some DeletePropagationForeground) w.
Proof.
  intros Hdata Hpre H0 Hget Hdep Hne Hsel. unfold ensureAllWorkloads. rewrite Hdata.
  rewrite (rangeLoop_returns _ pre post create w0 w _ _ Hpre
             (ensureWorkloadBody_selector_mismatch create w dep0 existing dep
                H0 Hget Hdep Hne Hsel)).
  by destruct (kubeClient_Delete _ _ _ _).
Qed.
End Workloads.

End LoopProperties.

Section WorkloadClaims.
Import Cluster.

(** What the pass does from the iteration of a workload whose selector
    changed: the only call is the foreground Delete of that object, so no
    Update and no Create follow in the pass; once the Delete has gone
    through, the refreshed lister no longer holds the object, and it is
    for a later pass to create it again. *)
Lemma selector_mismatch_outcome {T} `{Workload T} (env : Env T) (w : World T)
    (dep : T) (out : option error * World T) :
  out = kubeClient_Delete env (GetName dep) (Some DeletePropagationForeground) w →
  calls out.2 = calls w ++ [Delete (GetName dep) (Some DeletePropagationForeground)]
  ∧ (∀ obj, Update obj ∉ drop (length (calls w)) (calls out.2))
  ∧ (∀ obj, Create obj ∉ drop (length (calls w)) (calls out.2))
  ∧ (out.1 = None → lister (resync out.2) !! GetName dep = None).
Proof.
  intros ->. rewrite kubeClient_Delete_calls, drop_app_length.
  split; [done|]. split; [|split].
  - intros obj Hin. by apply list_elem_of_singleton in Hin.
  - intros obj Hin. by apply list_elem_of_singleton in Hin.
  - unfold kubeClient_Delete. simpl. destruct (rejects env _); [done|].
    destruct (apiserver w !! GetName dep); [|done]. intros _. simpl.
    apply lookup_delete_eq.
Qed.

(** C3.  In [ensureDeployments] and in [ensureStatefulSets], when the
    pass comes to an object whose freshly built desired state is not
    deep-equal to the existing one and whose [Spec.Selector.MatchLabels]
    differ, it issues a foreground-cascading Delete for that object and
    nothing else from then on: no Update (and no Create) in the same
    pass.  After a successful Delete the object is gone from the refreshed
    lister; creating it again is left to a later pass. *)
Theorem selector_mismatch_deletes_without_update :
  (∀ (env : Env Deployment) (res : Resources) (cc : Controller) (c : ClusterT)
     (data : TemplateData) (pre post : list (Creator Deployment))
     (create : Creator Deployment) (w0 w : World Deployment)
     (dep0 existing dep : Deployment),
     getClusterTemplateData cc c = Ok data →
     GetDeploymentCreators res (Some c) = pre ++ create :: post →
     reaches (ensureWorkloadBody env DeploymentText c data) pre w0 = Some w →
     create data None = Ok dep0 →
     lister w !! GetName dep0 = Some existing →
     create data (Some existing) = Ok dep →
     dep ≠ existing →
     MatchLabels (Selector (GetSpec dep)) ≠ MatchLabels (Selector (GetSpec existing)) →
     let out := ensureDeployments env res cc c w0 in
     calls out.2 = calls w ++ [Delete (GetName dep) (Some DeletePropagationForeground)]
     ∧ (∀ obj, Update obj ∉ drop (length (calls w)) (calls out.2))
     ∧ (∀ obj, Create obj ∉ drop (length (calls w)) (calls out.2))
     ∧ (out.1 = None → lister (resync out.2) !! GetName dep = None))
  ∧
  (∀ (env : Env StatefulSet) (res : Resources) (cc : Controller) (c : ClusterT)
     (data : TemplateData) (pre post : list (Creator StatefulSet))
     (create : Creator StatefulSet) (w0 w : World StatefulSet)
     (set0 existing set : StatefulSet),
     getClusterTemplateData cc c = Ok data →
     GetStatefulSetCreators res = pre ++ create :: post →
     reaches (ensureWorkloadBody env StatefulSetText c data) pre w0 = Some w →
     create data None = Ok set0 →
     lister w !! GetName set0 = Some existing →
     create data (Some existing) = Ok set →
     set ≠ existing →
     MatchLabels (Selector (GetSpec set)) ≠ MatchLabels (Selector (GetSpec existing)) →
     let out := ensureStatefulSets env res cc c w0 in
     calls out.2 = calls w ++ [Delete (GetName set) (Some DeletePropagationForeground)]
     ∧ (∀ obj, Update obj ∉ drop (length (calls w)) (calls out.2))
     ∧ (∀ obj, Create obj ∉ drop (length (calls w)) (calls out.2))
     ∧ (out.1 = None → lister (resync out.2) !! GetName set = None)).
Proof.
  split.
  - intros env res cc c data pre post create w0 w dep0 existing dep
      Hdata Hcreators Hpre H0 Hget Hdep Hne Hsel out.
    apply (selector_mismatch_outcome env w dep out). subst out.
    unfold ensureDeployments. rewrite Hcreators.
    by apply (ensureAllWorkloads_selector_mismatch env DeploymentText c data cc
                pre post create w0 w dep0 existing dep).
  - intros env res cc c data pre post create w0 w set0 existing set
      Hdata Hcreators Hpre H0 Hget Hset Hne Hsel out.
    apply (selector_mismatch_outcome env w set out). subst out.
    unfold ensureStatefulSets. rewrite Hcreators.
    by apply (ensureAllWorkloads_selector_mismatch env StatefulSetText c data cc
                pre post create w0 w set0 existing set).
Qed.

(** An existing Deployment selecting [app=a] whose creator now selects
    [app=b]. *)
Lemma selector_mismatch_deletes_without_update_witness :
  calls (ensureDeployments (Fixtures.accepting (λ o _, o))
           (Fixtures.withDeploymentCreators
              [Fixtures.constant (Fixtures.deployment "apiserver" "b")]
              Fixtures.noResources)
           Fixtures.controller1 Fixtures.cluster1
           (Fixtures.synced {["apiserver" := Fixtures.deployment "apiserver" "a"]})).2
  = [Delete "apiserver" (Some DeletePropagationForeground)].
Proof.
  refine (proj1 (proj1 selector_mismatch_deletes_without_update
            (Fixtures.accepting (λ o _, o))
            (Fixtures.withDeploymentCreators
               [Fixtures.constant (Fixtures.deployment "apiserver" "b")]
               Fixtures.noResources)
            Fixtures.controller1 Fixtures.cluster1 Fixtures.data1
            [] [] (Fixtures.constant (Fixtures.deployment "apiserver" "b"))
            (Fixtures.synced {["apiserver" := Fixtures.deployment "apiserver" "a"]})
            (Fixtures.synced {["apiserver" := Fixtures.deployment "apiserver" "a"]})
            (Fixtures.deployment "apiserver" "b")
            (Fixtures.deployment "apiserver" "a")
            (Fixtures.deployment "apiserver" "b")
            _ _ _ _ _ _ _ _)).
  - reflexivity.
  - reflexivity.
  - reflexivity.
  - reflexivity.
  - vm_compute. reflexivity.
  - reflexivity.
  - intros Heq.
    apply (f_equal (λ d, MatchLabels (Selector (Deployment_Spec d)) !! "app")) in Heq.
    vm_compute in Heq. discriminate.
  - intros Heq. apply (f_equal (λ m : gmap string string, m !! "app")) in Heq.
    vm_compute in Heq. discriminate.
Defined.

(** C9.  In [ensureDeployments] and likewise in [ensureStatefulSets],
    when the selector mismatch triggers the foreground Delete and the
    server carries it out, the function returns nil at once: the result
    and the calls issued are the same whatever creators are registered
    behind the mismatched one, so all of them are skipped in that pass,
    and no error tells the caller so. *)
Theorem selector_mismatch_delete_skips_remaining_creators :
  (∀ (env : Env Deployment) (res : Resources) (cc : Controller) (c : ClusterT)
     (data : TemplateData) (pre post : list (Creator Deployment))
     (create : Creator Deployment) (w0 w : World Deployment)
     (dep0 existing dep : Deployment),
     getClusterTemplateData cc c = Ok data →
     GetDeploymentCreators res (Some c) = pre ++ create :: post →
     reaches (ensureWorkloadBody env DeploymentText c data) pre w0 = Some w →
     create data None = Ok dep0 →
     lister w !! GetName dep0 = Some existing →
     create data (Some existing) = Ok dep →
     dep ≠ existing →
     MatchLabels (Selector (GetSpec dep)) ≠ MatchLabels (Selector (GetSpec existing)) →
     rejects env (Delete (GetName dep) (Some DeletePropagationForeground)) = None →
     is_Some (apiserver w !! GetName dep) →
     let out := ensureDeployments env res cc c w0 in
     out.1 = None
     ∧ calls out.2 = calls w ++ [Delete (GetName dep) (Some DeletePropagationForeground)]
     ∧ apiserver out.2 = delete (GetName dep) (apiserver w)
     ∧ ∀ res', (∃ post', GetDeploymentCreators res' (Some c) = pre ++ create :: post') →
               ensureDeployments env res' cc c w0 = out)
  ∧
  (∀ (env : Env StatefulSet) (res : Resources) (cc : Controller) (c : ClusterT)
     (data : TemplateData) (pre post : list (Creator StatefulSet))
     (create : Creator StatefulSet) (w0 w : World StatefulSet)
     (set0 existing set : StatefulSet),
     getClusterTemplateData cc c = Ok data →
     GetStatefulSetCreators res = pre ++ create :: post →
     reaches (ensureWorkloadBody env StatefulSetText c data) pre w0 = Some w →
     create data None = Ok set0 →
     lister w !! GetName set0 = Some existing →
     create data (Some existing) = Ok set →
     set ≠ existing →
     MatchLabels (Selector (GetSpec set)) ≠ MatchLabels (Selector (GetSpec existing)) →
     rejects env (Delete (GetName set) (Some DeletePropagationForeground)) = None →
     is_Some (apiserver w !! GetName set) →
     let out := ensureStatefulSets env res cc c w0 in
     out.1 = None
     ∧ calls out.2 = calls w ++ [Delete (GetName set) (Some DeletePropagationForeground)]
     ∧ apiserver out.2 = delete (GetName set) (apiserver w)
     ∧ ∀ res', (∃ post', GetStatefulSetCreators res' = pre ++ create :: post') →
               ensureStatefulSets env res' cc c w0 = out).
Proof.
  split.
  - intros env res cc c data pre post create w0 w dep0 existing dep
      Hdata Hcreators Hpre H0 Hget Hdep Hne Hsel Hrej Hlive out.
    assert (Hout : ∀ res' post',
      GetDeploymentCreators res' (Some c) = pre ++ create :: post' →
      ensureDeployments env res' cc c w0
      = kubeClient_Delete env (GetName dep) (Some DeletePropagationForeground) w).
    { intros res' post' Hc'. unfold ensureDeployments. rewrite Hc'.
      by apply (ensureAllWorkloads_selector_mismatch env DeploymentText c data cc
                  pre post' create w0 w dep0 existing dep). }
    subst out. rewrite (Hout res post Hcreators).
    destruct (kubeClient_Delete_accepted env _ (Some DeletePropagationForeground) w
                Hrej Hlive) as [Herr Hstore].
    split; [done|]. split; [apply kubeClient_Delete_calls|]. split; [done|].
    intros res' [post' Hc']. by apply (Hout res' post').
  - intros env res cc c data pre post create w0 w set0 existing set
      Hdata Hcreators Hpre H0 Hget Hset Hne Hsel Hrej Hlive out.
    assert (Hout : ∀ res' post',
      GetStatefulSetCreators res' = pre ++ create :: post' →
      ensureStatefulSets env res' cc c w0
      = kubeClient_Delete env (GetName set) (Some DeletePropagationForeground) w).
    { intros res' post' Hc'. unfold ensureStatefulSets. rewrite Hc'.
      by apply (ensureAllWorkloads_selector_mismatch env StatefulSetText c data cc
                  pre post' create w0 w set0 existing set). }
    subst out. rewrite (Hout res post Hcreators).
    destruct (kubeClient_Delete_accepted env _ (Some DeletePropagationForeground) w
                Hrej Hlive) as [Herr Hstore].
    split; [done|]. split; [apply kubeClient_Delete_calls|]. split; [done|].
    intros res' [post' Hc']. by apply (Hout res' post').
Qed.

(** Two creators: the first one's selector changed from [app=a] to
    [app=b]; the second one's Deployment does not exist yet and would be
    created if the loop came to it.  The pass returns nil after the one
    Delete. *)
Lemma selector_mismatch_delete_skips_remaining_creators_witness :
  let out := ensureDeployments (Fixtures.accepting (λ o _, o))
               (Fixtures.withDeploymentCreators
                  [Fixtures.constant (Fixtures.deployment "apiserver" "b");
                   Fixtures.constant (Fixtures.deployment "scheduler" "s")]
                  Fixtures.noResources)
               Fixtures.controller1 Fixtures.cluster1
               (Fixtures.synced {["apiserver" := Fixtures.deployment "apiserver" "a"]}) in
  out.1 = None
  ∧ calls out.2 = [Delete "apiserver" (Some DeletePropagationForeground)].
Proof.
  pose proof (proj1 selector_mismatch_delete_skips_remaining_creators
            (Fixtures.accepting (λ o _, o))
            (Fixtures.withDeploymentCreators
               [Fixtures.constant (Fixtures.deployment "apiserver" "b");
                Fixtures.constant (Fixtures.deployment "scheduler" "s")]
               Fixtures.noResources)
            Fixtures.controller1 Fixtures.cluster1 Fixtures.data1
            [] [Fixtures.constant (Fixtures.deployment "scheduler" "s")]
            (Fixtures.constant (Fixtures.deployment "apiserver" "b"))
            (Fixtures.synced {["apiserver" := Fixtures.deployment "apiserver" "a"]})
            (Fixtures.synced {["apiserver" := Fixtures.deployment "apiserver" "a"]})
            (Fixtures.deployment "apiserver" "b")
            (Fixtures.deployment "apiserver" "a")
            (Fixtures.deployment "apiserver" "b")) as Hthm.
  cbv zeta in Hthm. cbv zeta.
  refine ((λ H, conj (proj1 H) (proj1 (proj2 H))) (Hthm _ _ _ _ _ _ _ _ _ _)).
  - reflexivity.
  - reflexivity.
  - reflexivity.
  - reflexivity.
  - vm_compute. reflexivity.
  - reflexivity.
  - intros Heq.
    apply (f_equal (λ d, MatchLabels (Selector (Deployment_Spec d)) !! "app")) in Heq.
    vm_compute in Heq. discriminate.
  - intros Heq. apply (f_equal (λ m : gmap string string, m !! "app")) in Heq.
    vm_compute in Heq. discriminate.
  - reflexivity.
  - vm_compute. eauto.
Defined.

End WorkloadClaims.

(* ===================================================================== *)
(** * The ordered Secrets path: waiting for the lister, patching *)
(* ===================================================================== *)

Section Informer.
Import Cluster.
Context {T : Type} `{Object T}.

(** What the lister holds for [n] once the informer has published the
    names [names]. *)
Lemma foldl_publish_lookup (store cache : gmap string T) (names : list string)
    (n : string) :
  foldl (publish store) cache names !! n
  = if decide (n ∈ names) then store !! n else cache !! n.
Proof.
  revert cache. induction names as [|m names IH]; intros cache; cbn [foldl].
  - by rewrite decide_False by apply not_elem_of_nil.
  - rewrite IH. destruct (decide (n ∈ names)) as [Hin|Hnin].
    + rewrite decide_True by (by right). done.
    + destruct (decide (n = m)) as [->|Hne].
      * rewrite decide_True by (by left). unfold publish.
        destruct (store !! m) eqn:Hm.
        -- by rewrite lookup_insert_eq.
        -- by rewrite lookup_delete_eq.
      * rewrite decide_False.
        2:{ intros Hin. apply elem_of_cons in Hin as [?|?]; done. }
        unfold publish. destruct (store !! m).
        -- by rewrite lookup_insert_ne.
        -- by rewrite lookup_delete_ne.
Qed.

Lemma sleep_clock (d : nat) (w : World T) : clock (sleep d w) = clock w + d.
Proof. done. Qed.

Lemma sleep_calls (d : nat) (w : World T) : calls (sleep d w) = calls w.
Proof. done. Qed.

Lemma sleep_apiserver (d : nat) (w : World T) : apiserver (sleep d w) = apiserver w.
Proof. done. Qed.

(** Waiting publishes what is due and keeps the rest pending. *)
Lemma sleep_informer (d : nat) (w : World T) (ev : nat * string) :
  ev ∈ informer (sleep d w) ↔ ev ∈ informer w ∧ clock w + d < ev.1.
Proof.
  unfold sleep. simpl. rewrite list_elem_of_filter. split.
  - intros [Hlate Hin]. split; [done|lia].
  - intros [Hin Hlate]. split; [lia|done].
Qed.

Lemma sleep_lister_due (d : nat) (w : World T) (at_ : nat) (n : string) :
  (at_, n) ∈ informer w → at_ ≤ clock w + d →
  lister (sleep d w) !! n = apiserver w !! n.
Proof.
  intros Hin Hdue. unfold sleep. simpl. rewrite foldl_publish_lookup.
  rewrite decide_True; [done|].
  apply list_elem_of_fmap. exists (at_, n). split; [done|].
  apply list_elem_of_filter. done.
Qed.

Lemma sleep_lister_not_due (d : nat) (w : World T) (n : string) :
  (∀ ev, ev ∈ informer w → ev.2 = n → clock w + d < ev.1) →
  lister (sleep d w) !! n = lister w !! n.
Proof.
  intros Hlate. unfold sleep. simpl. rewrite foldl_publish_lookup.
  rewrite decide_False; [done|].
  intros Hin. apply list_elem_of_fmap in Hin as [[at_ m] [Heq Hin]]. simpl in Heq. subst m.
  apply list_elem_of_filter in Hin as [Hdue Hin]. simpl in Hdue.
  specialize (Hlate _ Hin eq_refl). simpl in Hlate. lia.
Qed.

End Informer.

Section Polling.
Import Cluster.
Implicit Types (w : World Secret) (s : Secret).

(** Polling gives up after [tries] intervals when nothing is published
    for [n] in that time. *)
Lemma pollLoop_timeout (tries interval : nat) s w :
  let n := GetName s in
  lister w !! n = None →
  (∀ ev, ev ∈ informer w → ev.2 = n → clock w + tries * interval < ev.1) →
  ∃ w', pollLoop tries interval (secretExistsInLister s) w = (Some ErrWaitTimeout, w')
        ∧ clock w' = clock w + tries * interval
        ∧ lister w' !! n = None
        ∧ calls w' = calls w
        ∧ apiserver w' = apiserver w.
Proof.
  intros n. revert w. induction tries as [|tries IH]; intros w Hmiss Hlate.
  - exists w. cbn [pollLoop]. repeat split; [lia|done].
  - cbn [pollLoop].
    assert (Hmiss' : lister (sleep interval w) !! n = None).
    { rewrite sleep_lister_not_due; [done|]. intros ev Hin Hn.
      specialize (Hlate ev Hin Hn). lia. }
    unfold secretExistsInLister at 1. unfold lister_Get. fold n. rewrite Hmiss'.
    destruct (IH (sleep interval w) Hmiss') as (w' & Hrun & Hclock & Hnone & Hcalls & Hapi).
    { intros ev Hin Hn. apply sleep_informer in Hin as [Hin _].
      specialize (Hlate ev Hin Hn). rewrite sleep_clock. lia. }
    exists w'. rewrite Hrun. rewrite Hclock, Hcalls, Hapi. rewrite sleep_clock.
    repeat split; [lia|done].
Qed.

(** Polling succeeds, within the time allowed, once the pending
    publication of [n] falls into it: at the first try at or after the
    time of publication. *)
Lemma pollLoop_published (tries interval : nat) s (obj : Secret) (at_ : nat) w :
  let n := GetName s in
  0 < tries →
  lister w !! n = None →
  (at_, n) ∈ informer w →
  (∀ ev, ev ∈ informer w → ev.2 = n → ev.1 = at_) →
  apiserver w !! n = Some obj →
  at_ ≤ clock w + tries * interval →
  ∃ w' k, pollLoop tries interval (secretExistsInLister s) w = (None, w')
        ∧ 0 < k ≤ tries
        ∧ clock w' = clock w + k * interval
        ∧ at_ ≤ clock w + k * interval
        ∧ (k = 1 ∨ clock w + (k - 1) * interval < at_)
        ∧ lister w' !! n = Some obj
        ∧ calls w' = calls w
        ∧ apiserver w' = apiserver w.
Proof.
  intros n. revert w.
  induction tries as [|tries IH]; intros w Htries Hmiss Hin Huniq Hlive Hdue; [lia|].
  cbn [pollLoop]. unfold secretExistsInLister at 1. unfold lister_Get. fold n.
  destruct (lister (sleep interval w) !! n) as [obj'|] eqn:Hseen.
  - exists (sleep interval w), 1. split; [done|]. split; [lia|].
    rewrite sleep_clock. split; [lia|].
    pose proof Hseen as Hs.
    unfold sleep in Hs. simpl in Hs. rewrite foldl_publish_lookup in Hs.
    destruct (decide (n ∈ _)) as [Hdue'|] in Hs; [|congruence].
    apply list_elem_of_fmap in Hdue' as [[a m] [Hm Hdue']]. simpl in Hm. subst m.
    apply list_elem_of_filter in Hdue' as [Ha Hin']. simpl in Ha.
    specialize (Huniq _ Hin' eq_refl). simpl in Huniq. subst a.
    split; [lia|]. split; [by left|]. split; [|done]. congruence.
  - destruct (decide (at_ ≤ clock w + interval)) as [Hnow|Hlater].
    { rewrite (sleep_lister_due _ _ _ _ Hin Hnow), Hlive in Hseen. done. }
    destruct tries as [|tries'].
    { exfalso. lia. }
    destruct (IH (sleep interval w))
      as (w' & k & Hrun & Hk & Hclock & Hat & Hfirst & Hlist & Hcalls & Hapi).
    + lia.
    + done.
    + apply sleep_informer. split; [done|]. simpl. lia.
    + intros ev Hev. apply sleep_informer in Hev as [Hev _]. by apply Huniq.
    + done.
    + rewrite sleep_clock. lia.
    + rewrite sleep_clock in *. exists w', (S k). rewrite Hrun. split; [done|].
      split; [lia|]. split; [lia|]. split; [lia|]. split; [|done].
      right. replace (S k - 1) with k by lia.
      destruct Hfirst as [->|Hfirst]; [lia|].
      destruct k as [|k']; [lia|]. replace (S k' - 1) with k' in Hfirst by lia. lia.
Qed.

End Polling.

Section OrderedSecrets.
Import Cluster.
Implicit Types (w : World Secret) (op : secretOp).
Variables (env : Env Secret) (js : JSONLib Secret) (c : ClusterT).

(** The wait of [ensureSecrets]: 300 tries, 100 ms apart. *)
Lemma wait_Poll_100ms_30s (condition : World Secret → bool * option error) w :
  wait_Poll (100 * Millisecond) (30 * Second) condition w = pollLoop 300 100 condition w.
Proof. reflexivity. Qed.

Lemma pollLoop_calls (tries interval : nat) (condition : World Secret → bool * option error) w :
  calls (pollLoop tries interval condition w).2 = calls w.
Proof.
  revert w. induction tries as [|tries IH]; intros w; cbn [pollLoop]; [done|].
  destruct (condition (sleep interval w)) as [[|] [err|]]; try done.
  by rewrite IH.
Qed.

Lemma GetName_finishGenerated op (generated : Secret) (currentJSON : string) :
  GetName (finishGenerated op generated currentJSON) = name op.
Proof. reflexivity. Qed.

(** The create path of the loop body: a Create, then the wait. *)
Lemma ensureSecretsBody_absent op w (generated : Secret) (currentJSON : string) :
  lister w !! name op = None →
  gen op (lister w) c None = Ok (generated, currentJSON) →
  let desired := finishGenerated op generated currentJSON in
  ensureSecretsBody env js c op w
  = match kubeClient_Create env desired w with
    | (Some err, w) =>
        Return (Some (Errorf_v ("failed to create secret for " +:+ name op +:+ ": ") err)) w
    | (None, w) =>
        match pollLoop 300 100 (secretExistsInLister desired) w with
        | (Some err, w) =>
            Return (Some (Errorf_v ("failed waiting for secret '" +:+ name op
                                    +:+ "' to exist in the lister: ") err)) w
        | (None, w) => Continue w
        end
    end.
Proof.
  intros Hmiss Hgen desired. unfold ensureSecretsBody.
  rewrite (lister_Get_None _ _ Hmiss). cbn [IsNotFound notFound negb].
  rewrite Hgen. fold desired.
  destruct (kubeClient_Create env desired w) as [[err|] w1]; [done|].
  by rewrite wait_Poll_100ms_30s.
Qed.

(** The state right after an accepted Create of a new secret. *)
Lemma kubeClient_Create_accepted (desired : Secret) w :
  rejects env (Create desired) = None →
  apiserver w !! GetName desired = None →
  ∃ w1, kubeClient_Create env desired w = (None, w1)
        ∧ lister w1 = lister w
        ∧ apiserver w1 = <[GetName desired := desired]> (apiserver w)
        ∧ calls w1 = calls w ++ [Create desired]
        ∧ clock w1 = clock w
        ∧ informer w1 = match informerLag env (GetName desired) with
                        | Some d => informer w ++ [(clock w + d, GetName desired)]
                        | None => informer w
                        end.
Proof.
  intros Hrej Hfree. unfold kubeClient_Create. cbn [issue apiserver].
  rewrite Hrej, Hfree. eexists. split; [done|]. done.
Qed.

(** Every iteration issues at most one call, addressed to its own
    secret. *)
Lemma ensureSecretsBody_calls op w :
  calls (flowWorld (ensureSecretsBody env js c op w)) = calls w
  ∨ ∃ call, calls (flowWorld (ensureSecretsBody env js c op w)) = calls w ++ [call]
            ∧ callName call = name op.
Proof.
  unfold ensureSecretsBody.
  destruct (lister_Get (name op) w) as [existing|err] eqn:Hget.
  - destruct (gen op (lister w) c (Some existing)) as [[generated currentJSON]|err];
      [|by left].
    destruct (decide _); [|by left].
    destruct (getPatch js existing _) as [patch|err]; [|by left].
    right. exists (Patch (name op) MergePatchType patch).
    pose proof (kubeClient_Patch_calls env (name op) MergePatchType patch w) as Hc.
    destruct (kubeClient_Patch env (name op) MergePatchType patch w) as [[err|] w1];
      simpl in *; done.
  - destruct (negb (IsNotFound err)); [by left|].
    destruct (gen op (lister w) c None) as [[generated currentJSON]|err']; [|by left].
    right. exists (Create (finishGenerated op generated currentJSON)).
    split; [|done].
    pose proof (kubeClient_Create_calls env (finishGenerated op generated currentJSON) w)
      as Hc.
    destruct (kubeClient_Create env _ w) as [[err'|] w1]; [done|].
    rewrite wait_Poll_100ms_30s.
    pose proof (pollLoop_calls 300 100
                  (secretExistsInLister (finishGenerated op generated currentJSON)) w1)
      as Hp.
    destruct (pollLoop 300 100 _ w1) as [[err'|] w2]; simpl in *; congruence.
Qed.

(** The calls of a pass address the secrets in the declared order of the
    ops: their names form a sublist of the names of the ops. *)
Lemma ensureSecrets_calls_in_order (ops : list secretOp) w0 :
  ∃ issued, calls (rangeLoop (ensureSecretsBody env js c) ops w0).2 = calls w0 ++ issued
            ∧ map callName issued `sublist_of` map name ops.
Proof.
  revert w0. induction ops as [|op ops IH]; intros w0; cbn [rangeLoop].
  - exists []. by rewrite app_nil_r.
  - pose proof (ensureSecretsBody_calls op w0) as Hbody.
    destruct (ensureSecretsBody env js c op w0) as [w1|err w1]; cbn [flowWorld] in Hbody.
    + destruct (IH w1) as (issued & Hcalls & Hsub).
      destruct Hbody as [Hsame|(call & Hone & Hname)].
      * exists issued. rewrite Hcalls, Hsame. split; [done|].
        cbn [map]. by apply sublist_cons.
      * exists (call :: issued). rewrite Hcalls, Hone, <- app_assoc. split; [done|].
        cbn [map]. rewrite Hname. by apply sublist_skip.
    + cbn [snd]. destruct Hbody as [Hsame|(call & Hone & Hname)].
      * exists []. rewrite app_nil_r. split; [done|]. apply sublist_nil_l.
      * exists [call]. split; [done|]. cbn [map]. rewrite Hname.
        apply sublist_skip, sublist_nil_l.
Qed.


End OrderedSecrets.

Section OrderedSecretsExamples.
Import Cluster.


(** Three ops in the order CA, serving certificate, kubeconfig over an
    empty namespace: three Creates in that order, the certificate built
    from the CA that the wait made visible. *)
Example ordered_secrets_creates_in_declared_order :
  let out := ensureSecrets (Fixtures.accepting Fixtures.recordPatch) Fixtures.jsonLib
               (Fixtures.withSecretOps
                  [Fixtures.caOp; Fixtures.tlsOp; Fixtures.kubeconfigOp] Fixtures.noResources)
               Fixtures.cluster1 (Fixtures.synced ∅) in
  out.1 = None
  ∧ map callName (calls out.2) = ["ca"; "apiserver-tls"; "admin-kubeconfig"]
  ∧ (Secret_Data <$> apiserver out.2 !! "apiserver-tls")
    = Some {["tls.crt" := "signed by CA-1"]}
  ∧ clock out.2 = 300.
Proof. vm_compute. done. Qed.

(** With the certificate declared ahead of its CA the pass fails at the
    first op. *)
Example ordered_secrets_depend_on_the_order :
  let out := ensureSecrets (Fixtures.accepting Fixtures.recordPatch) Fixtures.jsonLib
               (Fixtures.withSecretOps
                  [Fixtures.tlsOp; Fixtures.caOp; Fixtures.kubeconfigOp] Fixtures.noResources)
               Fixtures.cluster1 (Fixtures.synced ∅) in
  out.1 = Some (ErrorString "failed to generate Secret apiserver-tls: CA not found in lister")
  ∧ calls out.2 = [].
Proof. vm_compute. done. Qed.

(** When the informer never publishes the created secret the pass gives
    up after 30 seconds and does not come to the second op. *)
Example ordered_secrets_wait_times_out :
  let out := ensureSecrets (Fixtures.deaf Fixtures.recordPatch) Fixtures.jsonLib
               (Fixtures.withSecretOps
                  [Fixtures.caOp; Fixtures.kubeconfigOp] Fixtures.noResources)
               Fixtures.cluster1 (Fixtures.synced ∅) in
  out.1 = Some (ErrorString ("failed waiting for secret 'ca' to exist in the lister: "
                             +:+ "timed out waiting for the condition"))
  ∧ map callName (calls out.2) = ["ca"]
  ∧ N.of_nat (clock out.2) = 30000%N.
Proof. vm_compute. done. Qed.

End OrderedSecretsExamples.

Section PatchRule.
Import Cluster.

(** C5 (amended).  In the ordered Secrets path, for an existing secret
    whose desired state has been generated: no call is issued when the
    stored last-applied annotation equals the generated JSON, and a call is
    issued only when they differ.  When they differ and the patch can be
    computed, exactly one call is issued, a merge Patch of that secret
    whose body is the three-way JSON merge patch of (last-applied
    annotation as original, marshalled desired as modified, marshalled
    existing as current); when the patch cannot be computed, its error is
    returned and nothing is written.  No Update is issued on any path. *)
Theorem legacy_secret_write_is_three_way_merge_patch
    (env : Env Secret) (js : JSONLib Secret) (c : ClusterT) (op : secretOp)
    (w : World Secret) (existing generated : Secret) (currentJSON : string) :
  lister w !! name op = Some existing →
  gen op (lister w) c (Some existing) = Ok (generated, currentJSON) →
  let desired := finishGenerated op generated currentJSON in
  let stored := index (GetAnnotations existing) lastAppliedConfigAnnotation in
  let out := ensureSecretsBody env js c op w in
  (stored = currentJSON → out = Continue w)
  ∧ (calls (flowWorld out) ≠ calls w → stored ≠ currentJSON)
  ∧ (∀ patch, stored ≠ currentJSON → getPatch js existing desired = Ok patch →
       calls (flowWorld out) = calls w ++ [Patch (name op) MergePatchType patch])
  ∧ (∀ err, stored ≠ currentJSON → getPatch js existing desired = Err err →
       out = Return (Some err) w)
  ∧ (∀ currentData modifiedData,
       json_Marshal js existing = Ok currentData →
       json_Marshal js desired = Ok modifiedData →
       getPatch js existing desired
       = CreateThreeWayJSONMergePatch js stored modifiedData currentData)
  ∧ (∀ obj, Update obj ∉ drop (length (calls w)) (calls (flowWorld out))).
Proof.
  intros Hget Hgen desired stored out.
  assert (Hout : out
    = if decide (stored ≠ currentJSON)
      then match getPatch js existing desired with
           | Err err => Return (Some err) w
           | Ok patch =>
               match kubeClient_Patch env (name op) MergePatchType patch w with
               | (Some err, w) =>
                   Return (Some (Errorf_v ("failed to patch secret '" +:+ name op
                                           +:+ "': ") err)) w
               | (None, w) => Continue (countSeedResourceUpdate c "secret" (name op) w)
               end
           end
      else Continue w).
  { subst out. unfold ensureSecretsBody.
    rewrite (lister_Get_Some _ _ _ Hget), Hgen. done. }
  assert (Hpatched : ∀ patch, stored ≠ currentJSON →
            getPatch js existing desired = Ok patch →
            calls (flowWorld out) = calls w ++ [Patch (name op) MergePatchType patch]).
  { intros patch Hne Hpatch. rewrite Hout, decide_True, Hpatch by done.
    pose proof (kubeClient_Patch_calls env (name op) MergePatchType patch w) as Hc.
    by destruct (kubeClient_Patch env (name op) MergePatchType patch w) as [[err|] w1]. }
  split; [|split; [|split; [|split; [|split]]]].
  - intros Heq. by rewrite Hout, decide_False by (by intros ?).
  - intros Hcalls Heq. apply Hcalls. by rewrite Hout, decide_False by (by intros ?).
  - exact Hpatched.
  - intros err Hne Hpatch. by rewrite Hout, decide_True, Hpatch by done.
  - intros currentData modifiedData Hcur Hmod. unfold getPatch. by rewrite Hcur, Hmod.
  - intros obj. destruct (decide (stored = currentJSON)) as [Heq|Hne].
    { rewrite Hout, decide_False by (by intros ?). cbn [flowWorld].
      rewrite drop_ge by lia. apply not_elem_of_nil. }
    destruct (getPatch js existing desired) as [patch|err] eqn:Hpatch.
    + rewrite (Hpatched patch Hne eq_refl), drop_app_length.
      intros Hin. by apply list_elem_of_singleton in Hin.
    + rewrite Hout, decide_True by done. cbn [flowWorld].
      rewrite drop_ge by lia. apply not_elem_of_nil.
Qed.

(** An existing CA secret whose last-applied annotation is an older
    document: one merge Patch. *)
Lemma legacy_secret_write_is_three_way_merge_patch_witness :
  let existing :=
    mkSecret (setAnnotation lastAppliedConfigAnnotation "{old}" (Fixtures.meta "ca"))
             {["ca.crt" := "CA-0"]} in
  calls (flowWorld (ensureSecretsBody (Fixtures.accepting Fixtures.recordPatch)
                      Fixtures.jsonLib Fixtures.cluster1 Fixtures.caOp
                      (Fixtures.synced {["ca" := existing]})))
  = [] ++ [Patch "ca" MergePatchType "{name:ca,applied:{ca}}"].
Proof.
  intros existing.
  refine (proj1 (proj2 (proj2 (legacy_secret_write_is_three_way_merge_patch
            (Fixtures.accepting Fixtures.recordPatch) Fixtures.jsonLib Fixtures.cluster1
            Fixtures.caOp (Fixtures.synced {["ca" := existing]}) existing
            (mkSecret (Fixtures.meta "ca") {["ca.crt" := "CA-1"]}) "{ca}" _ _)))
            "{name:ca,applied:{ca}}" _ _).
  - vm_compute. reflexivity.
  - reflexivity.
  - vm_compute. discriminate.
  - vm_compute. reflexivity.
Defined.

(** C5, as stated, fails: an existing CA secret whose last-applied
    annotation is not a JSON document differs from the generated JSON, yet
    no call is issued, because the patch cannot be computed and its error
    is returned. *)
Lemma legacy_secret_write_iff_annotation_differs_counterexample :
  let existing :=
    mkSecret (setAnnotation lastAppliedConfigAnnotation "not json" (Fixtures.meta "ca"))
             {["ca.crt" := "CA-0"]} in
  let w := Fixtures.synced {["ca" := existing]} in
  let out := ensureSecretsBody (Fixtures.accepting Fixtures.recordPatch)
               Fixtures.jsonLib Fixtures.cluster1 Fixtures.caOp w in
  lister w !! name Fixtures.caOp = Some existing
  ∧ gen Fixtures.caOp (lister w) Fixtures.cluster1 (Some existing)
    = Ok (mkSecret (Fixtures.meta "ca") {["ca.crt" := "CA-1"]}, "{ca}")
  ∧ index (GetAnnotations existing) lastAppliedConfigAnnotation ≠ "{ca}"
  ∧ out = Return (Some (ErrorString "Invalid JSON Document")) w
  ∧ calls (flowWorld out) = [].
Proof.
  cbv zeta. split; [|split; [|split; [|split]]].
  - vm_compute. reflexivity.
  - reflexivity.
  - vm_compute. discriminate.
  - vm_compute. reflexivity.
  - vm_compute. reflexivity.
Qed.

End PatchRule.

(* ===================================================================== *)
(** * Properties of the Project synchronizer *)
(* ===================================================================== *)

Section FanOut.
Import ProjectSync.
Implicit Types (r : reconciler) (project : Project) (visit : list string).
Implicit Types (action : Client → Project → option error * Client).

Lemma range_order_NoDup visit r : range_order visit r → NoDup visit.
Proof. unfold range_order. intros ->. apply NoDup_elements. Qed.

Lemma range_order_registered visit r seedName :
  range_order visit r → (seedName ∈ visit ↔ is_Some (seedClients r !! seedName)).
Proof.
  unfold range_order. intros ->. by rewrite elem_of_elements, elem_of_dom.
Qed.

(** The fan-out touches neither the master client nor the recorder. *)
Lemma syncAllSeeds_master visit project action r :
  masterClient (syncAllSeeds visit project action r).2 = masterClient r
  ∧ recorder (syncAllSeeds visit project action r).2 = recorder r.
Proof.
  revert r. induction visit as [|seedName rest IH]; intros r; cbn [syncAllSeeds]; [done|].
  destruct (seedClients r !! seedName) as [seedClient|]; [|apply IH].
  destruct (action seedClient project) as [[err|] seedClient']; [done|].
  destruct (IH (Debugw "Reconciled project with seed" seedName
                  (withSeed seedName seedClient' r))) as [-> ->]. done.
Qed.

(** Seeds that are not visited keep their client as it is. *)
Lemma syncAllSeeds_unvisited visit project action r seedName :
  seedName ∉ visit →
  seedClients (syncAllSeeds visit project action r).2 !! seedName
  = seedClients r !! seedName.
Proof.
  revert r. induction visit as [|n rest IH]; intros r Hnot; cbn [syncAllSeeds]; [done|].
  apply not_elem_of_cons in Hnot as [Hne Hnot].
  destruct (seedClients r !! n) as [seedClient|]; [|by apply IH].
  destruct (action seedClient project) as [[err|] seedClient'].
  - cbn. by rewrite lookup_insert_ne.
  - rewrite IH by done. cbn. by rewrite lookup_insert_ne.
Qed.

(** The fan-out returns nil exactly when the action succeeds on every
    visited seed. *)
Lemma syncAllSeeds_nil_iff visit project action r :
  NoDup visit →
  (syncAllSeeds visit project action r).1 = None
  ↔ ∀ seedName seedClient,
      seedName ∈ visit → seedClients r !! seedName = Some seedClient →
      (action seedClient project).1 = None.
Proof.
  revert r. induction visit as [|n rest IH]; intros r Hnodup; cbn [syncAllSeeds].
  - split; [|done]. intros _ seedName seedClient Hin. by apply not_elem_of_nil in Hin.
  - apply NoDup_cons in Hnodup as [Hfresh Hnodup].
    destruct (seedClients r !! n) as [cl|] eqn:Hn.
    + destruct (action cl project) as [[err|] cl'] eqn:Hact.
      * split; [done|]. intros Hall.
        specialize (Hall n cl (list_elem_of_here _ _) Hn). by rewrite Hact in Hall.
      * rewrite IH by done. cbn. split.
        -- intros Hall seedName seedClient Hin Hlook.
           apply elem_of_cons in Hin as [->|Hin].
           ++ rewrite Hn in Hlook. injection Hlook as <-. by rewrite Hact.
           ++ apply (Hall seedName seedClient Hin).
              rewrite lookup_insert_ne; [done|]. by intros ->.
        -- intros Hall seedName seedClient Hin Hlook.
           assert (n ≠ seedName) by (by intros ->).
           rewrite lookup_insert_ne in Hlook by done.
           apply (Hall seedName seedClient); [by right|done].
    + rewrite IH by done. split.
      * intros Hall seedName seedClient Hin Hlook.
        apply elem_of_cons in Hin as [->|Hin]; [congruence|].
        by apply (Hall seedName seedClient).
      * intros Hall seedName seedClient Hin Hlook.
        apply (Hall seedName seedClient); [by right|done].
Qed.

(** The first seed on which the action fails ends the fan-out: its error
    comes back wrapped with the seed's name, and the seeds behind it are
    not visited. *)
Lemma syncAllSeeds_first_failure visit project action r
    (pre post : list string) (seedName : string) (seedClient seedClient' : Client)
    (err : error) :
  NoDup visit →
  visit = pre ++ seedName :: post →
  (∀ n cl, n ∈ pre → seedClients r !! n = Some cl → (action cl project).1 = None) →
  seedClients r !! seedName = Some seedClient →
  action seedClient project = (Some err, seedClient') →
  ∃ r', syncAllSeeds visit project action r
        = (Some (Errorf_w ("failed syncing project for seed " +:+ seedName +:+ ": ") err), r')
        ∧ masterClient r' = masterClient r
        ∧ recorder r' = recorder r
        ∧ seedClients r' !! seedName = Some seedClient'
        ∧ ∀ n, n ∈ post → seedClients r' !! n = seedClients r !! n.
Proof.
  intros Hnodup ->. revert r. induction pre as [|m pre IH]; intros r Hpre Hseed Hact.
  - cbn [app syncAllSeeds]. rewrite Hseed, Hact. eexists. split; [done|].
    cbn. rewrite lookup_insert_eq. repeat split.
    intros n Hin. rewrite lookup_insert_ne; [done|].
    apply NoDup_cons in Hnodup as [Hfresh _]. by intros ->.
  - cbn [app syncAllSeeds]. cbn [app] in Hnodup.
    apply NoDup_cons in Hnodup as [Hfresh Hnodup].
    assert (m ≠ seedName).
    { intros ->. apply Hfresh. apply elem_of_app. right. by left. }
    destruct (seedClients r !! m) as [cl|] eqn:Hm.
    + pose proof (Hpre m cl (list_elem_of_here _ _) Hm) as Hok.
      destruct (action cl project) as [[e|] cl']; [done|].
      destruct (IH Hnodup (Debugw "Reconciled project with seed" m (withSeed m cl' r)))
        as (r' & Hrun & Hmaster & Hrec & Hs & Hpost).
      * intros n cl0 Hin Hlook. cbn in Hlook.
        assert (m ≠ n).
        { intros ->. apply Hfresh. apply elem_of_app. by left. }
        rewrite lookup_insert_ne in Hlook by done.
        apply (Hpre n cl0); [by right|done].
      * cbn. by rewrite lookup_insert_ne.
      * done.
      * exists r'. rewrite Hrun. split; [done|]. split; [done|]. split; [done|].
        split; [done|]. intros n Hin. rewrite (Hpost n Hin). cbn.
        rewrite lookup_insert_ne; [done|]. intros ->. apply Hfresh.
        apply elem_of_app. right. by right.
    + destruct (IH Hnodup r) as (r' & Hrun & Hrest).
      * intros n cl0 Hin Hlook. apply (Hpre n cl0); [by right|done].
      * done.
      * done.
      * exists r'. by rewrite Hrun.
Qed.

End FanOut.

Section ReconcileProperties.
Import ProjectSync.
Implicit Types (r : reconciler) (project : Project) (visit : list string) (cl : Client).
Variable finalizer : string.

Lemma Get_found (n : string) cl (o : Project) :
  fails cl (ReqGet n) = None → objects cl !! n = Some o →
  Get n cl = (Ok o, received (ReqGet n) cl).
Proof. intros Hok Hobj. unfold Get. cbn. by rewrite Hok, Hobj. Qed.

Lemma deleteOnSeed_outcome cl project :
  (deleteOnSeed cl project).1 = IgnoreNotFound (Delete project cl).1.
Proof. unfold deleteOnSeed. by destruct (Delete project cl). Qed.

(** With every seed visited, the deletion fan-out succeeds on all of
    them exactly when every seed's Delete returned success or NotFound. *)
Lemma allSeedsDeleted_visit visit r r1 project :
  range_order visit r → seedClients r1 = seedClients r →
  allSeedsDeleted project r
  ↔ ∀ seedName seedClient,
      seedName ∈ visit → seedClients r1 !! seedName = Some seedClient →
      (deleteOnSeed seedClient project).1 = None.
Proof.
  intros Hvisit ->. unfold allSeedsDeleted. split.
  - intros Hall seedName seedClient _ Hlook. rewrite deleteOnSeed_outcome. by eapply Hall.
  - intros Hall seedName seedClient Hlook. rewrite <- deleteOnSeed_outcome.
    apply (Hall seedName); [|done]. apply (range_order_registered visit r); [done|].
    by exists seedClient.
Qed.

Lemma changed_finalizers project :
  finalizer ∈ Finalizers project →
  changed (Finalizers project) (Finalizers (RemoveFinalizer project finalizer))
  = Some (Finalizers project ∖ {[finalizer]}).
Proof.
  intros Hin. unfold changed. cbn. rewrite decide_False; [done|]. set_solver.
Qed.

Lemma changed_same {A} `{EqDecision A} (a : A) : changed a a = None.
Proof. unfold changed. by rewrite decide_True. Qed.

(** The deletion branch of [Reconcile], case by case. *)
Lemma Reconcile_deleting visit (request : ReconcileRequest) r project :
  range_order visit r →
  fails (masterClient r) (ReqGet (NamespacedName request)) = None →
  objects (masterClient r) !! NamespacedName request = Some project →
  Name project = NamespacedName request →
  is_Some (DeletionTimestamp project) →
  finalizer ∈ Finalizers project →
  let out := Reconcile finalizer visit request r in
  let removal := ReqPatch (Name project) (Some (Finalizers project ∖ {[finalizer]})) None in
  (¬ allSeedsDeleted project r
   ∧ (∃ err, out.1 = Some err)
   ∧ objects (masterClient out.2) = objects (masterClient r)
   ∧ newRequests (masterClient r) (masterClient out.2) = [ReqGet (NamespacedName request)])
  ∨ (allSeedsDeleted project r
     ∧ (∃ err, fails (masterClient r) removal = Some err
               ∧ out.1 = (if IsNotFound err then None
                          else Some (Errorf_w "handling deletion: "
                                 (Errorf_w ("failed to remove project finalizer "
                                            +:+ finalizer +:+ ": ") err))))
     ∧ objects (masterClient out.2) = objects (masterClient r)
     ∧ newRequests (masterClient r) (masterClient out.2)
       = [ReqGet (NamespacedName request); removal])
  ∨ (allSeedsDeleted project r
     ∧ fails (masterClient r) removal = None
     ∧ out.1 = None
     ∧ ¬ finalizerInPlace (Name project) finalizer out.2
     ∧ newRequests (masterClient r) (masterClient out.2)
       = [ReqGet (NamespacedName request); removal]).
Proof.
  intros Hvisit Hget Hobj Hname Hdel Hfin out removal.
  subst out. unfold Reconcile. rewrite (Get_found _ _ _ Hget Hobj).
  rewrite bool_decide_eq_true_2 by done. unfold handleDeletion.
  set (r1 := withMaster (received (ReqGet (NamespacedName request)) (masterClient r)) r).
  pose proof (syncAllSeeds_master visit project deleteOnSeed r1) as [Hmaster _].
  pose proof (syncAllSeeds_nil_iff visit project deleteOnSeed r1
                (range_order_NoDup _ _ Hvisit)) as Hnil.
  rewrite <- (allSeedsDeleted_visit visit r r1 project Hvisit eq_refl) in Hnil.
  destruct (syncAllSeeds visit project deleteOnSeed r1) as [[err|] r2]; cbn [fst snd] in *.
  - left. split; [|split; [by eexists|]].
    + intros Hall. by apply Hnil in Hall.
    + rewrite Hmaster. split; [done|].
      unfold newRequests. cbn. by rewrite drop_app_length.
  - assert (Hall : allSeedsDeleted project r) by (by apply Hnil).
    unfold HasFinalizer. rewrite bool_decide_eq_true_2 by done.
    unfold Patch, DeepCopyProject. rewrite (changed_finalizers _ Hfin).
    cbn [Spec RemoveFinalizer setFinalizers Name]. rewrite changed_same.
    fold removal. rewrite Hmaster. cbn [fails received masterClient r1 withMaster].
    destruct (fails (masterClient r) removal) as [err|] eqn:Hfail.
    + right. left. split; [done|]. split.
      { exists err. split; [done|]. cbn [IgnoreNotFound].
        by destruct (IsNotFound err). }
      cbn [IgnoreNotFound]. destruct (IsNotFound err); cbn;
        unfold newRequests; cbn; rewrite <- app_assoc, drop_app_length; done.
    + right. right. split; [done|]. split; [done|].
      cbn [objects received]. rewrite Hname, Hobj. cbn [IgnoreNotFound fst snd].
      split; [done|]. split.
      * unfold finalizerInPlace, store. cbn.
        intros (o & Hlook & Hin). rewrite <- Hname in Hlook.
        destruct (decide _) as [[_ Hempty]|_] in Hlook.
        -- by rewrite lookup_delete_eq in Hlook.
        -- rewrite lookup_insert_eq in Hlook. injection Hlook as <-. cbn in Hin.
           apply elem_of_difference in Hin as [_ Hin]. apply Hin.
           by apply elem_of_singleton.
      * unfold newRequests, store. cbn. by rewrite <- app_assoc, drop_app_length.
Qed.

(** C1 (amended).  For a reconcile of a Project whose deletion
    timestamp is set and which carries the cleanup finalizer: the removal
    of the finalizer from the control-plane copy is attempted (a merge
    Patch that drops it is sent to the control plane) if and only if the
    Delete on every registered seed returned success or NotFound in that
    pass; the finalizer is gone from the control-plane copy afterwards if
    and only if, in addition, the control plane did not refuse that Patch.
    On any other seed error the control-plane copy is left as it is, with
    the finalizer in place, and an error is returned to the caller. *)
Theorem deletion_finalizer_removal_gated_by_seeds
    visit (request : ReconcileRequest) r project :
  range_order visit r →
  fails (masterClient r) (ReqGet (NamespacedName request)) = None →
  objects (masterClient r) !! NamespacedName request = Some project →
  Name project = NamespacedName request →
  is_Some (DeletionTimestamp project) →
  finalizer ∈ Finalizers project →
  let out := Reconcile finalizer visit request r in
  let removal := ReqPatch (Name project) (Some (Finalizers project ∖ {[finalizer]})) None in
  (removal ∈ newRequests (masterClient r) (masterClient out.2)
   ↔ allSeedsDeleted project r)
  ∧ (¬ finalizerInPlace (Name project) finalizer out.2
     ↔ allSeedsDeleted project r ∧ fails (masterClient r) removal = None)
  ∧ (¬ allSeedsDeleted project r →
     finalizerInPlace (Name project) finalizer out.2
     ∧ objects (masterClient out.2) = objects (masterClient r)
     ∧ ∃ err, out.1 = Some err).
Proof.
  intros Hvisit Hget Hobj Hname Hdel Hfin out removal.
  assert (Hkept : objects (masterClient out.2) = objects (masterClient r) →
                  finalizerInPlace (Name project) finalizer out.2).
  { intros Hsame. exists project. by rewrite Hsame, Hname. }
  destruct (Reconcile_deleting visit request r project Hvisit Hget Hobj Hname Hdel Hfin)
    as [(Hnot & Herr & Hsame & Hreqs)
       |[(Hall & (err & Hfail & Herr) & Hsame & Hreqs)
        |(Hall & Hok & Herr & Hgone & Hreqs)]];
    fold out in Herr, Hreqs; try fold out in Hsame; try fold out in Hgone;
    fold removal in Hreqs; try fold removal in Hfail; try fold removal in Hok.
  - split; [|split].
    + rewrite Hreqs. split; [|done]. intros Hin.
      by apply list_elem_of_singleton in Hin.
    + split; [|by intros [? _]]. intros Hgone. by destruct Hgone; apply Hkept.
    + intros _. split; [by apply Hkept|done].
  - split; [|split].
    + rewrite Hreqs. split; [done|]. intros _. right. by left.
    + split; [|intros [_ Hok]; congruence].
      intros Hgone. by destruct Hgone; apply Hkept.
    + done.
  - split; [|split].
    + rewrite Hreqs. split; [done|]. intros _. right. by left.
    + done.
    + done.
Qed.

End ReconcileProperties.

Section DeletionExamples.
Import ProjectSync SyncFixtures.

(** Two seeds, one holding a copy and one that never had it: both
    Deletes count, and the finalizer goes. *)
Lemma deletion_finalizer_removal_gated_by_seeds_witness :
  let r := fleet (reliable {["p1" := deletingProject]})
                 {["seed-a" := reliable {["p1" := seedCopy]}; "seed-b" := reliable ∅]} in
  let out := Reconcile cleanup ["seed-a"; "seed-b"] request r in
  ¬ finalizerInPlace "p1" cleanup out.2
  ↔ allSeedsDeleted deletingProject r
    ∧ fails (masterClient r) (ReqPatch "p1" (Some ({[cleanup]} ∖ {[cleanup]})) None) = None.
Proof.
  intros r out.
  refine (proj1 (proj2 (deletion_finalizer_removal_gated_by_seeds cleanup
            ["seed-a"; "seed-b"] request r deletingProject _ _ _ _ _ _))).
  - unfold range_order. decide_by_computation.
  - reflexivity.
  - reflexivity.
  - reflexivity.
  - by eexists.
  - change (cleanup ∈ ({[cleanup]} : gset string)). by apply elem_of_singleton_2.
Defined.

(** C1, as stated, fails: the only seed deletes its copy, so every seed
    returned success, but the control plane refuses the Patch that drops
    the finalizer; the finalizer stays on the control-plane copy and the
    reconcile returns the error. *)
Lemma deletion_finalizer_removed_iff_seeds_deleted_counterexample :
  let r := fleet (refusingPatches {["p1" := deletingProject]})
                 {["seed-a" := reliable {["p1" := seedCopy]}]} in
  let out := Reconcile cleanup ["seed-a"] request r in
  range_order ["seed-a"] r
  ∧ allSeedsDeleted deletingProject r
  ∧ finalizerInPlace "p1" cleanup out.2
  ∧ out.1 = Some (WrapError
      ("handling deletion: failed to remove project finalizer "
       +:+ "kubermatic.io/cleanup-seed-projects: conflict")
      (WrapError
         "failed to remove project finalizer kubermatic.io/cleanup-seed-projects: conflict"
         (StatusError StatusReasonConflict "conflict"))).
Proof.
  cbv zeta. split; [|split; [|split]].
  - unfold range_order. decide_by_computation.
  - intros seedName seedClient Hlook. cbn [seedClients fleet] in Hlook.
    apply lookup_singleton_Some in Hlook as [<- <-]. vm_compute. reflexivity.
  - exists deletingProject. split; [vm_compute; reflexivity|].
    change (cleanup ∈ ({[cleanup]} : gset string)). by apply elem_of_singleton_2.
  - vm_compute. reflexivity.
Qed.

End DeletionExamples.

Section FanOutClaims.
Import ProjectSync.
Implicit Types (r : reconciler) (project : Project) (visit : list string) (cl : Client).
Variable finalizer : string.


(** C10.  When listing the Projects fails, the map function of the seed
    watch logs the error and returns no request at all, whatever Projects
    exist; it has no error result, so nothing tells the caller, and the
    stores are left as they were. *)
Theorem seed_watch_list_failure_enqueues_nothing (a : string) r (err : error) :
  fails (masterClient r) ReqList = Some err →
  let out := enqueueAllProjects a r in
  out.1 = []
  ∧ log out.2 = log r ++ [Error err; "failed to list projects: " +:+ Error err]
  ∧ objects (masterClient out.2) = objects (masterClient r)
  ∧ seedClients out.2 = seedClients r
  ∧ recorder out.2 = recorder r.
Proof.
  intros Hfail out. subst out. unfold enqueueAllProjects, List. cbn [fails received].
  by rewrite Hfail.
Qed.

(** When the listing succeeds there is one request per Project. *)
Lemma seed_watch_enqueues_every_project (a : string) r :
  fails (masterClient r) ReqList = None →
  (enqueueAllProjects a r).1
  = (λ kv : string * Project, mkRequest (Name kv.2)) <$> map_to_list (objects (masterClient r)).
Proof.
  intros Hok. unfold enqueueAllProjects, List. cbn [fails received]. rewrite Hok.
  cbn. by rewrite <- list_fmap_compose.
Qed.

End FanOutClaims.

Section FanOutExamples.
Import ProjectSync SyncFixtures.


(** The same fleet seen by a Project under deletion: seed b fails, the
    finalizer stays, the error names seed b. *)
Example deletion_fan_out_keeps_finalizer_on_seed_failure :
  let r := fleet (reliable {["p1" := deletingProject]})
                 {["seed-a" := reliable {["p1" := seedCopy]};
                   "seed-b" := unreachable {["p1" := seedCopy]}]} in
  let out := Reconcile cleanup ["seed-a"; "seed-b"] request r in
  (Error <$> out.1)
  = Some ("handling deletion: failed syncing project for seed seed-b: "
          +:+ "connection refused")
  ∧ objects (masterClient out.2) !! "p1" = Some deletingProject
  ∧ (objects <$> seedClients out.2 !! "seed-a") = Some ∅.
Proof. vm_compute. done. Qed.

(** A control plane that cannot list its Projects: no request. *)
Lemma seed_watch_list_failure_enqueues_nothing_witness :
  (enqueueAllProjects "seed-a" (fleet (unreachable {["p1" := activeProject]}) ∅)).1 = [].
Proof.
  refine (proj1 (seed_watch_list_failure_enqueues_nothing "seed-a"
            (fleet (unreachable {["p1" := activeProject]}) ∅)
            (StatusError StatusReasonOther "connection refused") _)).
  reflexivity.
Defined.

(** The same control plane when it answers: one request for the one
    Project. *)
Example seed_watch_enqueues_the_project :
  (enqueueAllProjects "seed-a" (fleet (reliable {["p1" := activeProject]}) ∅)).1
  = [mkRequest "p1"].
Proof. vm_compute. reflexivity. Qed.

End FanOutExamples.

(* ===================================================================== *)
(** * Two consecutive passes *)
(* ===================================================================== *)

(** The argument is the same for every kind and is made once, for a loop
    body that meets a contract: an iteration that falls through leaves the
    server holding, under the key of its item, an object on which the item
    is settled and touches no other key; on a settled object seen through
    the lister the iteration falls through without a call. *)
Section TwoPasses.
Import Cluster.
Context {T : Type} `{Object T} {A : Type}.
Variables (body : A → World T → Flow T) (key : A → string).
Variables (good : A → Prop) (settled : A → T → Prop).

Hypothesis body_noop : ∀ a w x,
  good a → lister w !! key a = Some x → settled a x → body a w = Continue w.

Hypothesis body_settles : ∀ a w w1,
  good a → body a w = Continue w1 → inSync (key a) w →
  (∀ k, k ≠ key a → apiserver w1 !! k = apiserver w !! k)
  ∧ (∀ k, k ≠ key a → inSync k w → inSync k w1)
  ∧ ∃ x, apiserver w1 !! key a = Some x ∧ settled a x.

Lemma reaches_settles (items : list A) (w w' : World T) :
  NoDup (key <$> items) →
  (∀ a, a ∈ items → good a ∧ inSync (key a) w) →
  reaches body items w = Some w' →
  (∀ k, k ∉ key <$> items → apiserver w' !! k = apiserver w !! k)
  ∧ ∀ a, a ∈ items → ∃ x, apiserver w' !! key a = Some x ∧ settled a x.
Proof.
  revert w. induction items as [|a items IH]; intros w Hnodup Hgood Hrun.
  - injection Hrun as <-. split; [done|]. intros a Hin. by apply not_elem_of_nil in Hin.
  - cbn [reaches] in Hrun. rewrite fmap_cons in Hnodup.
    apply NoDup_cons in Hnodup as [Hfresh Hnodup].
    destruct (body a w) as [w1|] eqn:Hbody; [|done].
    destruct (Hgood a (list_elem_of_here _ _)) as [Hga Hsync].
    destruct (body_settles a w w1 Hga Hbody Hsync) as (Hother & Hkeep & x & Hx & Hset).
    destruct (IH w1 Hnodup) as [Hrest Hall]; [|done|].
    { intros b Hb. destruct (Hgood b) as [Hgb Hsb]; [by right|]. split; [done|].
      apply Hkeep; [|done]. intros Heq. apply Hfresh. rewrite <- Heq.
      apply list_elem_of_fmap. by exists b. }
    split.
    + intros k Hk. rewrite fmap_cons in Hk. apply not_elem_of_cons in Hk as [Hne Hk].
      rewrite (Hrest k Hk). by apply Hother.
    + intros b Hb. apply elem_of_cons in Hb as [->|Hb]; [|by apply Hall].
      exists x. split; [|done]. by rewrite (Hrest (key a) Hfresh).
Qed.

Lemma settled_pass_is_noop (items : list A) (w : World T) :
  (∀ a, a ∈ items → good a ∧ ∃ x, lister w !! key a = Some x ∧ settled a x) →
  rangeLoop body items w = (None, w).
Proof.
  induction items as [|a items IH]; intros Hall; cbn [rangeLoop]; [done|].
  destruct (Hall a (list_elem_of_here _ _)) as (Hga & x & Hx & Hset).
  rewrite (body_noop a w x Hga Hx Hset). apply IH.
  intros b Hb. apply Hall. by right.
Qed.

(** The second of two passes, with the informer caught up in between,
    issues no call and changes nothing. *)
Lemma second_pass_is_noop (items : list A) (w0 w1 : World T) :
  NoDup (key <$> items) →
  (∀ a, a ∈ items → good a ∧ inSync (key a) w0) →
  reaches body items w0 = Some w1 →
  rangeLoop body items (resync w1) = (None, resync w1).
Proof.
  intros Hnodup Hgood Hrun.
  destruct (reaches_settles items w0 w1 Hnodup Hgood Hrun) as [_ Hall].
  apply settled_pass_is_noop. intros a Ha. split; [by apply Hgood|].
  by apply Hall.
Qed.

(** A pass that returns nil has run through every item when the body
    never returns nil by itself. *)
Lemma rangeLoop_nil_reaches (items : list A) (w w' : World T) :
  (∀ a w w1, body a w ≠ Return None w1) →
  rangeLoop body items w = (None, w') → reaches body items w = Some w'.
Proof.
  intros Hret. revert w. induction items as [|a items IH]; intros w; cbn; [congruence|].
  pose proof (Hret a w) as Hnot. destruct (body a w) as [w1|[err|] w1]; [apply IH|done|].
  by destruct (Hnot w1).
Qed.

End TwoPasses.

Section StructuralPasses.
Import Cluster.
Context {T : Type} `{Object T}.
Variables (env : Env T) (kt : KindText) (c : ClusterT) (data : TemplateData).

Lemma creatorName_built (create : Creator T) (obj0 : T) :
  create data None = Ok obj0 → creatorName data create = GetName obj0.
Proof. unfold creatorName. by intros ->. Qed.

(** What an accepted Create and an accepted Update leave behind. *)
Lemma createMissing_continue (obj : T) (w w1 : World T) :
  createMissing env kt obj w = Continue w1 →
  lister w1 = lister w ∧ apiserver w1 = <[GetName obj := obj]> (apiserver w).
Proof.
  unfold createMissing, kubeClient_Create. cbn [issue apiserver].
  destruct (rejects env (Create obj)); [done|].
  destruct (apiserver w !! GetName obj); [done|]. by intros [= <-].
Qed.

Lemma updateExisting_continue (obj : T) (w w1 : World T) :
  updateExisting env kt c obj w = Continue w1 →
  lister w1 = lister w ∧ apiserver w1 = <[GetName obj := obj]> (apiserver w).
Proof.
  unfold updateExisting, kubeClient_Update. cbn [issue apiserver].
  destruct (rejects env (Update obj)); [done|].
  destruct (apiserver w !! GetName obj); [|done]. by intros [= <-].
Qed.

(** A write under the key [k] settles [k] and leaves the other keys
    alone. *)
Lemma written_settles (k : string) (x : T) (w w1 : World T) (P : T → Prop) :
  lister w1 = lister w → apiserver w1 = <[k := x]> (apiserver w) → P x →
  (∀ k', k' ≠ k → apiserver w1 !! k' = apiserver w !! k')
  ∧ (∀ k', k' ≠ k → inSync k' w → inSync k' w1)
  ∧ ∃ x, apiserver w1 !! k = Some x ∧ P x.
Proof.
  intros Hl Ha HP. split; [|split].
  - intros k' Hne. rewrite Ha. by apply lookup_insert_ne.
  - intros k' Hne. unfold inSync. rewrite Hl, Ha. by rewrite lookup_insert_ne.
  - exists x. split; [|done]. rewrite Ha. apply lookup_insert_eq.
Qed.

(** An iteration without a write leaves a key in sync as it was. *)
Lemma unwritten_settles (k : string) (x : T) (w : World T) (P : T → Prop) :
  inSync k w → lister w !! k = Some x → P x →
  (∀ k', k' ≠ k → apiserver w !! k' = apiserver w !! k')
  ∧ (∀ k', k' ≠ k → inSync k' w → inSync k' w)
  ∧ ∃ x, apiserver w !! k = Some x ∧ P x.
Proof.
  intros Hsync Hx HP. split; [done|]. split; [done|]. exists x.
  split; [|done]. unfold inSync in Hsync. by rewrite <- Hsync.
Qed.

Lemma ensureBody_noop (create : Creator T) (w : World T) (x : T) :
  lister w !! creatorName data create = Some x →
  nothingToDo data create x → ensureBody env kt c data create w = Continue w.
Proof.
  intros Hx [[obj0 H0] Hfix]. unfold ensureBody. rewrite H0.
  rewrite (creatorName_built _ _ H0) in Hx. rewrite (lister_Get_Some _ _ _ Hx).
  unfold DeepCopy. by rewrite Hfix, DeepEqual_true.
Qed.

Lemma ensureBody_settles (create : Creator T) (w w1 : World T) :
  behaves data create → ensureBody env kt c data create w = Continue w1 →
  inSync (creatorName data create) w →
  (∀ k, k ≠ creatorName data create → apiserver w1 !! k = apiserver w !! k)
  ∧ (∀ k, k ≠ creatorName data create → inSync k w → inSync k w1)
  ∧ ∃ x, apiserver w1 !! creatorName data create = Some x ∧ nothingToDo data create x.
Proof.
  intros [Hname Hrepro] Hbody Hsync. unfold ensureBody in Hbody.
  destruct (create data None) as [obj0|] eqn:H0; [|done].
  rewrite (creatorName_built _ _ H0) in *.
  unfold lister_Get in Hbody.
  destruct (lister w !! GetName obj0) as [existing|] eqn:Hget.
  - unfold DeepCopy in Hbody.
    destruct (create data (Some existing)) as [obj|] eqn:Hobj; [|done].
    unfold DeepEqual in Hbody. case_bool_decide as Heq.
    + injection Hbody as <-. subst obj.
      apply (unwritten_settles _ existing); [done|done|]. split; [by eexists|done].
    + apply updateExisting_continue in Hbody as [Hl Ha].
      rewrite (Hname _ _ Hobj) in Ha.
      apply (written_settles _ obj); [done|done|].
      split; [by eexists|]. by apply (Hrepro _ _ Hobj).
  - cbn [IsNotFound notFound negb] in Hbody.
    apply createMissing_continue in Hbody as [Hl Ha].
    apply (written_settles _ obj0); [done|done|].
    split; [by eexists|]. by apply (Hrepro _ _ H0).
Qed.

Lemma ensureBody_never_returns_nil (create : Creator T) (w w1 : World T) :
  ensureBody env kt c data create w ≠ Return None w1.
Proof.
  unfold ensureBody, createMissing, updateExisting.
  destruct (create data None); [|done].
  destruct (lister_Get _ w) as [existing|err].
  - destruct (create data _); [|done]. destruct (DeepEqual _ _); [done|].
    by destruct (kubeClient_Update _ _ _) as [[?|] ?].
  - destruct (negb _); [done|]. by destruct (kubeClient_Create _ _ _) as [[?|] ?].
Qed.

(** Two passes of a structural kind. *)
Lemma ensureAll_second_pass (creators : list (Creator T)) (cc : Controller)
    (w0 w1 : World T) :
  getClusterTemplateData cc c = Ok data →
  lister w0 = apiserver w0 →
  reproducing data creators →
  ensureAll env kt creators cc c w0 = (None, w1) →
  ensureAll env kt creators cc c (resync w1) = (None, resync w1).
Proof.
  intros Hdata Hsync [Hnodup Hgood] Hpass. unfold ensureAll in *. rewrite Hdata in *.
  apply (second_pass_is_noop (ensureBody env kt c data) (creatorName data)
           (behaves data) (nothingToDo data) (λ a w x _, ensureBody_noop a w x) ensureBody_settles
           creators w0 w1).
  - done.
  - intros create Hin. split; [by apply Hgood|]. unfold inSync. by rewrite Hsync.
  - apply rangeLoop_nil_reaches; [|done]. intros a w w'.
    apply ensureBody_never_returns_nil.
Qed.

End StructuralPasses.

Section CallsGrow.
Import Cluster.
Context {T : Type} `{Object T} {A : Type}.
Variable body : A → World T → Flow T.

Hypothesis body_appends : ∀ a w, ∃ l, calls (flowWorld (body a w)) = calls w ++ l.

Lemma issuedSince_app (w w' : World T) (l : list (Call T)) :
  calls w' = calls w ++ l → issuedSince w w' = l.
Proof. intros Hc. unfold issuedSince. by rewrite Hc, drop_app_length. Qed.

Lemma rangeLoop_appends (items : list A) (w : World T) :
  ∃ l, calls (rangeLoop body items w).2 = calls w ++ l.
Proof.
  revert w. induction items as [|a items IH]; intros w; cbn [rangeLoop].
  - exists []. by rewrite app_nil_r.
  - destruct (body_appends a w) as [l1 Hl1].
    destruct (body a w) as [w1|err w1]; cbn [flowWorld] in Hl1.
    + destruct (IH w1) as [l2 Hl2]. exists (l1 ++ l2). by rewrite Hl2, Hl1, app_assoc.
    + by exists l1.
Qed.

(** A pass that returns nil without a Delete has run through every item,
    when a Delete is the only way for the body to return nil. *)
Lemma rangeLoop_nil_reaches_without_delete (items : list A) (w w' : World T) :
  (∀ a w w1, body a w = Return None w1 → ∃ n p, Delete n p ∈ issuedSince w w1) →
  rangeLoop body items w = (None, w') →
  (∀ n p, Delete n p ∉ issuedSince w w') →
  reaches body items w = Some w'.
Proof.
  intros Hret. revert w. induction items as [|a items IH]; intros w Hrun Hnodel.
  - cbn in *. congruence.
  - cbn [rangeLoop reaches] in *. destruct (body_appends a w) as [l1 Hl1].
    destruct (body a w) as [w1|[err|] w1] eqn:Hbody; cbn [flowWorld] in Hl1.
    + apply IH; [done|]. intros n p Hin.
      destruct (rangeLoop_appends items w1) as [l2 Hl2]. rewrite Hrun in Hl2.
      cbn [snd] in Hl2. rewrite (issuedSince_app _ _ _ Hl2) in Hin.
      apply (Hnodel n p). rewrite (issuedSince_app w w' (l1 ++ l2)).
      * apply elem_of_app. by right.
      * by rewrite Hl2, Hl1, app_assoc.
    + done.
    + injection Hrun as <-. destruct (Hret a w w1 Hbody) as (n & p & Hin).
      by destruct (Hnodel n p).
Qed.

End CallsGrow.

Section WorkloadPasses.
Import Cluster.
Context {T : Type} `{Workload T}.
Variables (env : Env T) (kt : KindText) (c : ClusterT) (data : TemplateData).

Lemma ensureWorkloadBody_noop (create : Creator T) (w : World T) (x : T) :
  lister w !! creatorName data create = Some x →
  nothingToDo data create x → ensureWorkloadBody env kt c data create w = Continue w.
Proof.
  intros Hx [[obj0 Hbuilt] Hfix]. unfold ensureWorkloadBody. rewrite Hbuilt.
  rewrite (creatorName_built _ _ _ Hbuilt) in Hx. rewrite (lister_Get_Some _ _ _ Hx).
  unfold DeepCopy. by rewrite Hfix, DeepEqual_true.
Qed.

Lemma ensureWorkloadBody_settles (create : Creator T) (w w1 : World T) :
  behaves data create → ensureWorkloadBody env kt c data create w = Continue w1 →
  inSync (creatorName data create) w →
  (∀ k, k ≠ creatorName data create → apiserver w1 !! k = apiserver w !! k)
  ∧ (∀ k, k ≠ creatorName data create → inSync k w → inSync k w1)
  ∧ ∃ x, apiserver w1 !! creatorName data create = Some x ∧ nothingToDo data create x.
Proof.
  intros [Hname Hrepro] Hbody Hsync. unfold ensureWorkloadBody in Hbody.
  destruct (create data None) as [obj0|] eqn:Hbuilt; [|done].
  rewrite (creatorName_built _ _ _ Hbuilt) in *.
  unfold lister_Get in Hbody.
  destruct (lister w !! GetName obj0) as [existing|] eqn:Hget.
  - unfold DeepCopy in Hbody.
    destruct (create data (Some existing)) as [obj|] eqn:Hobj; [|done].
    unfold DeepEqual at 1 in Hbody. case_bool_decide as Heq.
    + injection Hbody as <-. subst obj.
      apply (unwritten_settles _ existing); [done|done|]. split; [by eexists|done].
    + destruct (negb _) in Hbody.
      { by destruct (kubeClient_Delete _ _ _ _). }
      apply updateExisting_continue in Hbody as [Hl Ha].
      rewrite (Hname _ _ Hobj) in Ha.
      apply (written_settles _ obj); [done|done|].
      split; [by eexists|]. by apply (Hrepro _ _ Hobj).
  - cbn [IsNotFound notFound negb] in Hbody.
    apply createMissing_continue in Hbody as [Hl Ha].
    apply (written_settles _ obj0); [done|done|].
    split; [by eexists|]. by apply (Hrepro _ _ Hbuilt).
Qed.

Lemma ensureWorkloadBody_appends (create : Creator T) (w : World T) :
  ∃ l, calls (flowWorld (ensureWorkloadBody env kt c data create w)) = calls w ++ l.
Proof.
  assert (Hnone : ∃ l, calls w = calls w ++ l) by (exists []; by rewrite app_nil_r).
  unfold ensureWorkloadBody, createMissing, updateExisting.
  destruct (create data None) as [t|]; [|done].
  destruct (lister_Get _ w) as [existing|err].
  - destruct (create data _) as [dep|]; [|done]. destruct (DeepEqual _ _); [done|].
    destruct (negb _).
    + pose proof (kubeClient_Delete_calls env (GetName dep)
                    (Some DeletePropagationForeground) w) as Hc.
      destruct (kubeClient_Delete _ _ _ _) as [e w1]. by eexists.
    + pose proof (kubeClient_Update_calls env dep w) as Hc.
      destruct (kubeClient_Update _ _ _) as [[e|] w1]; by eexists.
  - destruct (negb _); [done|].
    pose proof (kubeClient_Create_calls env t w) as Hc.
    destruct (kubeClient_Create _ _ _) as [[e|] w1]; by eexists.
Qed.

Lemma ensureWorkloadBody_returns_nil_after_delete (create : Creator T) (w w1 : World T) :
  ensureWorkloadBody env kt c data create w = Return None w1 →
  ∃ n p, Delete n p ∈ issuedSince w w1.
Proof.
  unfold ensureWorkloadBody, createMissing, updateExisting.
  destruct (create data None); [|done].
  destruct (lister_Get _ w) as [existing|err].
  - destruct (create data _) as [dep|]; [|done]. destruct (DeepEqual _ _); [done|].
    destruct (negb _).
    + pose proof (kubeClient_Delete_calls env (GetName dep)
                    (Some DeletePropagationForeground) w) as Hc.
      destruct (kubeClient_Delete _ _ _ _) as [e w2]. cbn [snd] in Hc.
      intros [= -> ->].
      exists (GetName dep), (Some DeletePropagationForeground).
      rewrite (issuedSince_app _ _ _ Hc). by left.
    + by destruct (kubeClient_Update _ _ _) as [[?|] ?].
  - destruct (negb _); [done|]. by destruct (kubeClient_Create _ _ _) as [[?|] ?].
Qed.

(** Two passes of a workload kind, the first without a Delete. *)
Lemma ensureAllWorkloads_second_pass (creators : list (Creator T)) (cc : Controller)
    (w0 w1 : World T) :
  getClusterTemplateData cc c = Ok data →
  lister w0 = apiserver w0 →
  reproducing data creators →
  ensureAllWorkloads env kt creators cc c w0 = (None, w1) →
  (∀ n p, Delete n p ∉ issuedSince w0 w1) →
  ensureAllWorkloads env kt creators cc c (resync w1) = (None, resync w1).
Proof.
  intros Hdata Hsync [Hnodup Hgood] Hpass Hnodel. unfold ensureAllWorkloads in *.
  rewrite Hdata in *.
  apply (second_pass_is_noop (ensureWorkloadBody env kt c data) (creatorName data)
           (behaves data) (nothingToDo data)
           (λ a w x _, ensureWorkloadBody_noop a w x)
           ensureWorkloadBody_settles creators w0 w1).
  - done.
  - intros create Hin. split; [by apply Hgood|]. unfold inSync. by rewrite Hsync.
  - apply rangeLoop_nil_reaches_without_delete; try done.
    + apply ensureWorkloadBody_appends.
    + apply ensureWorkloadBody_returns_nil_after_delete.
Qed.

End WorkloadPasses.

Section ChecksumPasses.
Import Cluster.
Variables (c : ClusterT) (data : TemplateData).

Lemma stampSecret_checksum (se : Secret) :
  GetAnnotations (stampSecret se) !! checksumAnnotation
  = Some (checksumOfBytes (Secret_Data se)).
Proof. unfold stampSecret, GetAnnotations. cbn. apply lookup_insert_eq. Qed.

Lemma stampConfigMap_checksum (cm : ConfigMap) :
  GetAnnotations (stampConfigMap cm) !! checksumAnnotation
  = Some (checksumOfStrings (ConfigMap_Data cm)).
Proof. unfold stampConfigMap, GetAnnotations. cbn. apply lookup_insert_eq. Qed.

(** ** [ensureSecretsV2] *)

Lemma stamped_secret_up_to_date (entry : string * Creator Secret)
    (existing : option Secret) (se : Secret) :
  (secretBehaves data) entry → entry.2 data existing = Ok se →
  (secretUpToDate data) entry (stampSecret se).
Proof.
  intros [_ Hrepro] Hse. destruct (Hrepro _ _ Hse) as (se' & Hse' & Hdata).
  exists se'. split; [done|]. by rewrite stampSecret_checksum, Hdata.
Qed.

Lemma ensureSecretsV2Body_noop (env : Env Secret) (entry : string * Creator Secret)
    (w : World Secret) (x : Secret) :
  lister w !! entry.1 = Some x → (secretUpToDate data) entry x →
  ensureSecretsV2Body env c data entry w = Continue w.
Proof.
  intros Hx (se & Hse & Hsum). destruct entry as [name create]. cbn [fst snd] in *.
  unfold ensureSecretsV2Body, DeepCopy.
  rewrite (lister_Get_Some _ _ _ Hx). cbv beta iota. rewrite Hse. cbv beta iota zeta.
  rewrite Hsum. unfold index. rewrite stampSecret_checksum. cbn [default].
  by rewrite decide_True.
Qed.

Lemma ensureSecretsV2Body_settles (env : Env Secret) (entry : string * Creator Secret)
    (w w1 : World Secret) :
  (secretBehaves data) entry → ensureSecretsV2Body env c data entry w = Continue w1 →
  inSync entry.1 w →
  (∀ k, k ≠ entry.1 → apiserver w1 !! k = apiserver w !! k)
  ∧ (∀ k, k ≠ entry.1 → inSync k w → inSync k w1)
  ∧ ∃ x, apiserver w1 !! entry.1 = Some x ∧ (secretUpToDate data) entry x.
Proof.
  intros Hgood Hbody Hsync. pose proof Hgood as [Hname _].
  destruct entry as [name create]. cbn [fst snd] in *.
  unfold ensureSecretsV2Body, lister_Get in Hbody.
  destruct (lister w !! name) as [existing|] eqn:Hget.
  - unfold DeepCopy in Hbody.
    destruct (create data (Some existing)) as [se|] eqn:Hse; [|done].
    assert (Hupdate : ∀ w1, updateExisting env SecretText c (stampSecret se) w = Continue w1 →
      (∀ k, k ≠ name → apiserver w1 !! k = apiserver w !! k)
      ∧ (∀ k, k ≠ name → inSync k w → inSync k w1)
      ∧ ∃ x, apiserver w1 !! name = Some x ∧ (secretUpToDate data) (name, create) x).
    { intros w2 Hupd. apply updateExisting_continue in Hupd as [Hl Ha].
      change (GetName (stampSecret se)) with (GetName se) in Ha.
      rewrite (Hname _ _ Hse) in Ha.
      apply (written_settles _ (stampSecret se)); [done|done|].
      by apply (stamped_secret_up_to_date (name, create) (Some existing)). }
    destruct (GetAnnotations existing !! checksumAnnotation) as [v|] eqn:Hv;
      [|by apply Hupdate].
    destruct (decide _) as [Heq|_] in Hbody; [|by apply Hupdate].
    injection Hbody as <-.
    apply (unwritten_settles _ existing); [done|done|].
    exists se. split; [done|]. rewrite Hv, Heq. unfold index.
    by rewrite stampSecret_checksum.
  - cbn [IsNotFound notFound negb] in Hbody.
    destruct (create data None) as [se|] eqn:Hse; [|done].
    apply createMissing_continue in Hbody as [Hl Ha].
    change (GetName (stampSecret se)) with (GetName se) in Ha.
    rewrite (Hname _ _ Hse) in Ha.
    apply (written_settles _ (stampSecret se)); [done|done|].
    by apply (stamped_secret_up_to_date (name, create) None).
Qed.

Lemma ensureSecretsV2Body_never_returns_nil (env : Env Secret)
    (entry : string * Creator Secret) (w w1 : World Secret) :
  ensureSecretsV2Body env c data entry w ≠ Return None w1.
Proof.
  destruct entry as [name create].
  unfold ensureSecretsV2Body, createMissing, updateExisting.
  destruct (lister_Get _ w) as [existing|err].
  - destruct (create data _) as [se|]; [|done].
    destruct (GetAnnotations existing !! checksumAnnotation).
    + destruct (decide _); [done|]. by destruct (kubeClient_Update _ _ _) as [[?|] ?].
    + by destruct (kubeClient_Update _ _ _) as [[?|] ?].
  - destruct (negb _); [done|]. destruct (create data None); [|done].
    by destruct (kubeClient_Create _ _ _) as [[?|] ?].
Qed.

(** Two passes of [ensureSecretsV2]; each pass may visit the map of
    creators in an order of its own. *)
Lemma ensureSecretsV2_second_pass (env : Env Secret)
    (creators : gmap string (Creator Secret))
    (visit1 visit2 : list (string * Creator Secret)) (cc : Controller)
    (w0 w1 : World Secret) :
  getClusterTemplateData cc c = Ok data →
  lister w0 = apiserver w0 →
  visit1 ≡ₚ map_to_list creators →
  visit2 ≡ₚ map_to_list creators →
  (∀ name create, creators !! name = Some create →
     namedCreator data create name
     ∧ reproducesPayload stampSecret Secret_Data data create) →
  ensureSecretsV2 env visit1 cc c w0 = (None, w1) →
  ensureSecretsV2 env visit2 cc c (resync w1) = (None, resync w1).
Proof.
  intros Hdata Hsync Hv1 Hv2 Hgood Hpass. unfold ensureSecretsV2 in *.
  rewrite Hdata in *.
  assert (Hgood' : ∀ visit entry, visit ≡ₚ map_to_list creators → entry ∈ visit →
                   (secretBehaves data) entry).
  { intros visit [name create] Hv Hin. rewrite Hv in Hin.
    apply elem_of_map_to_list in Hin. by apply Hgood. }
  destruct (reaches_settles (ensureSecretsV2Body env c data) fst (secretBehaves data)
              (secretUpToDate data) (ensureSecretsV2Body_settles env) visit1 w0 w1)
    as [_ Hall].
  - rewrite Hv1. apply NoDup_fst_map_to_list.
  - intros entry Hin. split; [by apply (Hgood' visit1)|]. unfold inSync.
    by rewrite Hsync.
  - apply rangeLoop_nil_reaches; [|done]. intros a w w'.
    apply ensureSecretsV2Body_never_returns_nil.
  - apply (settled_pass_is_noop (ensureSecretsV2Body env c data) fst (secretBehaves data)
             (secretUpToDate data) (λ a w x _, ensureSecretsV2Body_noop env a w x)).
    intros entry Hin. split; [by apply (Hgood' visit2)|].
    apply Hall. by rewrite Hv1, <- Hv2.
Qed.

(** ** [ensureConfigMaps] *)

Lemma stamped_configMap_up_to_date (create : Creator ConfigMap) (cm0 : ConfigMap)
    (existing : option ConfigMap) (cm : ConfigMap) :
  (configMapBehaves data) create → create data None = Ok cm0 → create data existing = Ok cm →
  (configMapUpToDate data) create (stampConfigMap cm).
Proof.
  intros [_ Hrepro] Hcm0 Hcm. destruct (Hrepro _ _ Hcm) as (cm' & Hcm' & Hdata).
  split; [by eexists|]. exists cm'. split; [done|].
  by rewrite stampConfigMap_checksum, Hdata.
Qed.

Lemma ensureConfigMapsBody_noop (env : Env ConfigMap) (create : Creator ConfigMap)
    (w : World ConfigMap) (x : ConfigMap) :
  lister w !! creatorName data create = Some x →
  (configMapUpToDate data) create x →
  ensureConfigMapsBody env c data create w = Continue w.
Proof.
  intros Hx [[cm0 Hcm0] (cm & Hcm & Hsum)]. unfold ensureConfigMapsBody.
  rewrite Hcm0. change (GetName (stampConfigMap cm0)) with (GetName cm0).
  rewrite (creatorName_built _ _ _ Hcm0) in Hx. cbv beta iota zeta.
  change (GetName (stampConfigMap cm0)) with (GetName cm0).
  rewrite (lister_Get_Some _ _ _ Hx). cbv beta iota.
  unfold DeepCopy. rewrite Hcm. cbv beta iota zeta. rewrite Hsum.
  unfold index. rewrite stampConfigMap_checksum. cbn [default]. by rewrite decide_True.
Qed.

Lemma ensureConfigMapsBody_settles (env : Env ConfigMap) (create : Creator ConfigMap)
    (w w1 : World ConfigMap) :
  (configMapBehaves data) create → ensureConfigMapsBody env c data create w = Continue w1 →
  inSync (creatorName data create) w →
  (∀ k, k ≠ creatorName data create → apiserver w1 !! k = apiserver w !! k)
  ∧ (∀ k, k ≠ creatorName data create → inSync k w → inSync k w1)
  ∧ ∃ x, apiserver w1 !! creatorName data create = Some x ∧ (configMapUpToDate data) create x.
Proof.
  intros Hgood Hbody Hsync. pose proof Hgood as [Hname _].
  unfold ensureConfigMapsBody in Hbody.
  destruct (create data None) as [cm0|] eqn:Hcm0; [|done].
  change (GetName (stampConfigMap cm0)) with (GetName cm0) in Hbody.
  rewrite (creatorName_built _ _ _ Hcm0) in *.
  unfold lister_Get in Hbody.
  destruct (lister w !! GetName cm0) as [existing|] eqn:Hget.
  - unfold DeepCopy in Hbody.
    destruct (create data (Some existing)) as [cm|] eqn:Hcm; [|done].
    assert (Hupdate : ∀ w1,
      updateExisting env ConfigMapText c (stampConfigMap cm) w = Continue w1 →
      (∀ k, k ≠ GetName cm0 → apiserver w1 !! k = apiserver w !! k)
      ∧ (∀ k, k ≠ GetName cm0 → inSync k w → inSync k w1)
      ∧ ∃ x, apiserver w1 !! GetName cm0 = Some x ∧ (configMapUpToDate data) create x).
    { intros w2 Hupd. apply updateExisting_continue in Hupd as [Hl Ha].
      change (GetName (stampConfigMap cm)) with (GetName cm) in Ha.
      rewrite (Hname _ _ Hcm) in Ha.
      apply (written_settles _ (stampConfigMap cm)); [done|done|].
      by apply (stamped_configMap_up_to_date create cm0 (Some existing)). }
    destruct (GetAnnotations existing !! checksumAnnotation) as [v|] eqn:Hv;
      [|by apply Hupdate].
    destruct (decide _) as [Heq|_] in Hbody; [|by apply Hupdate].
    injection Hbody as <-.
    apply (unwritten_settles _ existing); [done|done|].
    split; [by eexists|]. exists cm. split; [done|]. rewrite Hv, Heq. unfold index.
    by rewrite stampConfigMap_checksum.
  - cbn [IsNotFound notFound negb] in Hbody.
    apply createMissing_continue in Hbody as [Hl Ha].
    change (GetName (stampConfigMap cm0)) with (GetName cm0) in Ha.
    apply (written_settles _ (stampConfigMap cm0)); [done|done|].
    by apply (stamped_configMap_up_to_date create cm0 None).
Qed.

Lemma ensureConfigMapsBody_never_returns_nil (env : Env ConfigMap)
    (create : Creator ConfigMap) (w w1 : World ConfigMap) :
  ensureConfigMapsBody env c data create w ≠ Return None w1.
Proof.
  unfold ensureConfigMapsBody, createMissing, updateExisting.
  destruct (create data None) as [cm0|]; [|done].
  destruct (lister_Get _ w) as [existing|err].
  - destruct (create data _) as [cm|]; [|done].
    destruct (GetAnnotations existing !! checksumAnnotation).
    + destruct (decide _); [done|]. by destruct (kubeClient_Update _ _ _) as [[?|] ?].
    + by destruct (kubeClient_Update _ _ _) as [[?|] ?].
  - destruct (negb _); [done|]. by destruct (kubeClient_Create _ _ _) as [[?|] ?].
Qed.

(** Two passes of [ensureConfigMaps]. *)
Lemma ensureConfigMaps_second_pass (env : Env ConfigMap) (res : Resources)
    (cc : Controller) (w0 w1 : World ConfigMap) :
  getClusterTemplateData cc c = Ok data →
  lister w0 = apiserver w0 →
  reproducingPayload stampConfigMap ConfigMap_Data data (GetConfigMapCreators res) →
  ensureConfigMaps env res cc c w0 = (None, w1) →
  ensureConfigMaps env res cc c (resync w1) = (None, resync w1).
Proof.
  intros Hdata Hsync [Hnodup Hgood] Hpass. unfold ensureConfigMaps in *.
  rewrite Hdata in *.
  apply (second_pass_is_noop (ensureConfigMapsBody env c data) (creatorName data)
           (configMapBehaves data) (configMapUpToDate data)
           (λ a w x _, ensureConfigMapsBody_noop env a w x)
           (ensureConfigMapsBody_settles env) (GetConfigMapCreators res) w0 w1).
  - done.
  - intros create Hin. split; [by apply Hgood|]. unfold inSync. by rewrite Hsync.
  - apply rangeLoop_nil_reaches; [|done]. intros a w w'.
    apply ensureConfigMapsBody_never_returns_nil.
Qed.

End ChecksumPasses.

Section OrderedSecretsPasses.
Import Cluster.
Variables (env : Env Secret) (js : JSONLib Secret) (c : ClusterT).
Hypothesis patch_records : patchRecordsLastApplied env js.

Lemma finishGenerated_records (op : secretOp) (generated : Secret) (currentJSON : string) :
  index (GetAnnotations (finishGenerated op generated currentJSON))
        lastAppliedConfigAnnotation = currentJSON.
Proof. unfold finishGenerated, GetAnnotations, index. cbn. by rewrite lookup_insert_eq. Qed.

Lemma recorded_is_applied (op : secretOp) secrets existing generated currentJSON
    (x : Secret) :
  reproducesJSON c op →
  gen op secrets c existing = Ok (generated, currentJSON) →
  index (GetAnnotations x) lastAppliedConfigAnnotation = currentJSON →
  (secretApplied c) op x.
Proof.
  intros Hrepro Hgen Hrec secrets'. rewrite Hrec. by apply (Hrepro _ _ _ _ Hgen).
Qed.

Lemma sleep_inSync (d : nat) (k : string) (w : World Secret) :
  inSync k w → inSync k (sleep d w).
Proof.
  unfold inSync, sleep. cbn. rewrite foldl_publish_lookup. by destruct (decide _).
Qed.

Lemma pollLoop_keeps (tries interval : nat)
    (condition : World Secret → bool * option error) (w : World Secret) :
  apiserver (pollLoop tries interval condition w).2 = apiserver w
  ∧ ∀ k, inSync k w → inSync k (pollLoop tries interval condition w).2.
Proof.
  revert w. induction tries as [|tries IH]; intros w; cbn [pollLoop]; [done|].
  destruct (condition (sleep interval w)) as [[|] [err|]];
    try (split; [done|intros k; apply sleep_inSync]).
  destruct (IH (sleep interval w)) as [Ha Hs]. split; [by rewrite Ha|].
  intros k Hk. by apply Hs, sleep_inSync.
Qed.

Lemma ensureSecretsBody_noop (op : secretOp) (w : World Secret) (x : Secret) :
  lister w !! name op = Some x → (secretApplied c) op x →
  ensureSecretsBody env js c op w = Continue w.
Proof.
  intros Hx Happlied. unfold ensureSecretsBody.
  rewrite (lister_Get_Some _ _ _ Hx). cbv beta iota.
  destruct (Happlied (lister w)) as [generated ->]. cbv beta iota zeta.
  by rewrite decide_False by (by intros ?).
Qed.

Lemma ensureSecretsBody_settles (op : secretOp) (w w1 : World Secret) :
  reproducesJSON c op → ensureSecretsBody env js c op w = Continue w1 →
  inSync (name op) w →
  (∀ k, k ≠ name op → apiserver w1 !! k = apiserver w !! k)
  ∧ (∀ k, k ≠ name op → inSync k w → inSync k w1)
  ∧ ∃ x, apiserver w1 !! name op = Some x ∧ (secretApplied c) op x.
Proof.
  intros Hrepro Hbody Hsync. unfold ensureSecretsBody, lister_Get in Hbody.
  destruct (lister w !! name op) as [existing|] eqn:Hget; cbv beta iota in Hbody.
  - destruct (gen op (lister w) c (Some existing)) as [[generated currentJSON]|] eqn:Hgen;
      [|done].
    cbv beta iota zeta in Hbody. destruct (decide _) as [Hne|Heq] in Hbody.
    + destruct (getPatch js existing _) as [patch|] eqn:Hpatch; [|done].
      unfold kubeClient_Patch in Hbody. cbn [issue apiserver] in Hbody.
      destruct (rejects env _); [done|].
      unfold inSync in Hsync. rewrite Hget in Hsync. rewrite <- Hsync in Hbody.
      injection Hbody as <-.
      apply (written_settles _ (applyPatch env existing patch)); [done|done|].
      apply (recorded_is_applied op _ _ _ _ _ Hrepro Hgen).
      by rewrite (patch_records _ _ _ Hpatch), finishGenerated_records.
    + injection Hbody as <-.
      apply (unwritten_settles _ existing); [done|done|].
      apply (recorded_is_applied op _ _ _ _ _ Hrepro Hgen).
      by destruct (decide (index (GetAnnotations existing) lastAppliedConfigAnnotation
                           = currentJSON)).
  - cbn [IsNotFound notFound negb] in Hbody. cbv beta iota in Hbody.
    destruct (gen op (lister w) c None) as [[generated currentJSON]|] eqn:Hgen; [|done].
    cbv beta iota zeta in Hbody.
    set (desired := finishGenerated op generated currentJSON) in *.
    unfold kubeClient_Create in Hbody. cbn [issue apiserver] in Hbody.
    destruct (rejects env _); [done|].
    change (GetName desired) with (name op) in Hbody.
    destruct (apiserver w !! name op) eqn:Hfree; [done|].
    rewrite wait_Poll_100ms_30s in Hbody.
    match type of Hbody with
    | context [pollLoop 300 100 ?cond ?w'] =>
        destruct (pollLoop_keeps 300 100 cond w') as [Ha Hs];
        destruct (pollLoop 300 100 cond w') as [[err|] w2]; [done|]
    end.
    injection Hbody as <-. cbn [snd apiserver commit] in Ha.
    split; [|split].
    + intros k Hne. rewrite Ha. by apply lookup_insert_ne.
    + intros k Hne Hk. apply Hs. unfold inSync in *. cbn. by rewrite lookup_insert_ne.
    + exists desired. split; [rewrite Ha; apply lookup_insert_eq|].
      apply (recorded_is_applied op _ _ _ _ _ Hrepro Hgen).
      apply finishGenerated_records.
Qed.

Lemma ensureSecretsBody_never_returns_nil (op : secretOp) (w w1 : World Secret) :
  ensureSecretsBody env js c op w ≠ Return None w1.
Proof.
  unfold ensureSecretsBody.
  destruct (lister_Get (name op) w) as [existing|err]; cbv beta iota.
  - destruct (gen op (lister w) c (Some existing)) as [[generated currentJSON]|]; [|done].
    cbv beta iota zeta. destruct (decide _); [|done].
    destruct (getPatch js existing _); [|done].
    by destruct (kubeClient_Patch _ _ _ _ _) as [[?|] ?].
  - destruct (negb _); [done|]. cbv beta iota.
    destruct (gen op (lister w) c None) as [[generated currentJSON]|]; [|done].
    cbv beta iota zeta. destruct (kubeClient_Create _ _ _) as [[?|] w2]; [done|].
    rewrite wait_Poll_100ms_30s. by destruct (pollLoop 300 100 _ w2) as [[?|] ?].
Qed.

(** Two passes of [ensureSecrets]. *)
Lemma ensureSecrets_second_pass (res : Resources) (w0 w1 : World Secret) :
  lister w0 = apiserver w0 →
  NoDup (name <$> secretOpsFor res c) →
  (∀ op, op ∈ secretOpsFor res c → reproducesJSON c op) →
  ensureSecrets env js res c w0 = (None, w1) →
  ensureSecrets env js res c (resync w1) = (None, resync w1).
Proof.
  intros Hsync Hnodup Hgood Hpass. unfold ensureSecrets in *.
  apply (second_pass_is_noop (ensureSecretsBody env js c) name (reproducesJSON c)
           (secretApplied c) (λ a w x _, ensureSecretsBody_noop a w x)
           ensureSecretsBody_settles
           (secretOpsFor res c) w0 w1).
  - done.
  - intros op Hin. split; [by apply Hgood|]. unfold inSync. by rewrite Hsync.
  - apply rangeLoop_nil_reaches; [|done]. intros a w w'.
    apply ensureSecretsBody_never_returns_nil.
Qed.

End OrderedSecretsPasses.

Section IdempotenceClaim.
Import Cluster.

Lemma quiet_pass_issues_nothing {T} (ensure : World T → option error * World T)
    (w : World T) :
  ensure w = (None, w) → ensure w = (None, w) ∧ issuedSince w (ensure w).2 = [].
Proof.
  intros Hpass. split; [done|]. rewrite Hpass. unfold issuedSince. cbn [snd].
  apply drop_all.
Qed.




(** Why the first pass must not have issued a Delete: a Deployment whose
    selector changed is deleted by the first pass and created by the
    second, although its creator always builds the same object. *)
Example second_pass_recreates_deleted_deployment :
  let env := Fixtures.accepting (λ o _, o) in
  let res := Fixtures.withDeploymentCreators
               [Fixtures.constant (Fixtures.deployment "apiserver" "b")]
               Fixtures.noResources in
  let w0 := Fixtures.synced {["apiserver" := Fixtures.deployment "apiserver" "a"]} in
  let first := ensureDeployments env res Fixtures.controller1 Fixtures.cluster1 w0 in
  let second := ensureDeployments env res Fixtures.controller1 Fixtures.cluster1
                  (resync first.2) in
  first.1 = None
  ∧ issuedSince w0 first.2 = [Delete "apiserver" (Some DeletePropagationForeground)]
  ∧ second.1 = None
  ∧ issuedSince (resync first.2) second.2
    = [Create (Fixtures.deployment "apiserver" "b")].
Proof. cbv zeta. repeat split; vm_compute; reflexivity. Qed.

End IdempotenceClaim.

(* ===================================================================== *)
(** * Further properties of the ChecksumComputer *)
(* ===================================================================== *)

Section ChecksumSlices.
Import Checksum.

(** X2.  The sorted strings are written to the buffer one after the
    other with nothing in between: two slices whose sorted strings
    concatenate to the same bytes get the same checksum, although they
    hold different strings. *)
Theorem string_slice_checksum_joins_without_separator (l1 l2 : list string) :
  String.concat "" (sort_Strings l1) = String.concat "" (sort_Strings l2) →
  getChecksumForStringSlice l1 = getChecksumForStringSlice l2.
Proof.
  intros Hc. unfold getChecksumForStringSlice.
  by rewrite !buffer_WriteStrings_concat, Hc.
Qed.

Lemma string_slice_checksum_joins_without_separator_witness :
  String.concat "" (sort_Strings ["c"; "ab"]) = String.concat "" (sort_Strings ["a"; "bc"])
  ∧ ["c"; "ab"] ≢ₚ ["a"; "bc"]
  ∧ getChecksumForStringSlice ["c"; "ab"] = getChecksumForStringSlice ["a"; "bc"].
Proof.
  assert (Hc : String.concat "" (sort_Strings ["c"; "ab"])
               = String.concat "" (sort_Strings ["a"; "bc"])) by reflexivity.
  split; [exact Hc|]. split.
  - intros Hp. assert (Hin : "c" ∈ ["a"; "bc"]) by (rewrite <- Hp; left).
    apply elem_of_cons in Hin as [Hin|Hin]; [discriminate Hin|].
    apply list_elem_of_singleton in Hin. discriminate Hin.
  - exact (string_slice_checksum_joins_without_separator _ _ Hc).
Defined.

(** X3.  A key and its value are rendered as [key:value] without
    escaping: a map with the single entry [k:a -> b] and a map with the
    single entry [k -> a:b] get the same checksum from both map
    functions. *)
Theorem map_checksum_separator_is_ambiguous (k a b : string) (visit1 visit2 : list string) :
  let data1 : gmap string string := {[ k +:+ ":" +:+ a := b ]} in
  let data2 : gmap string string := {[ k := a +:+ ":" +:+ b ]} in
  range_order visit1 data1 →
  range_order visit2 data2 →
  getChecksumForMapStringString visit1 data1 = getChecksumForMapStringString visit2 data2
  ∧ getChecksumForMapStringByteSlice visit1 data1
    = getChecksumForMapStringByteSlice visit2 data2.
Proof.
  intros data1 data2 H1 H2. unfold range_order in H1, H2.
  subst data1 data2. rewrite dom_singleton_L, elements_singleton in H1, H2.
  apply Permutation_singleton_r in H1 as ->. apply Permutation_singleton_r in H2 as ->.
  unfold getChecksumForMapStringString, getChecksumForMapStringByteSlice.
  cbn [map]. unfold index. rewrite !lookup_singleton_eq. cbn [default id].
  assert (Heq : Sprintf_kv (k +:+ ":" +:+ a) b = Sprintf_kv k (a +:+ ":" +:+ b)).
  { unfold Sprintf_kv. by rewrite !string_append_assoc. }
  by rewrite Heq.
Qed.

Lemma map_checksum_separator_is_ambiguous_witness :
  getChecksumForMapStringString ["tls:crt"] {[ "tls:crt" := "PEM" ]}
  = getChecksumForMapStringString ["tls"] {[ "tls" := "crt:PEM" ]}
  ∧ getChecksumForMapStringByteSlice ["tls:crt"] {[ "tls:crt" := "PEM" ]}
    = getChecksumForMapStringByteSlice ["tls"] {[ "tls" := "crt:PEM" ]}.
Proof.
  apply (map_checksum_separator_is_ambiguous "tls" "crt" "PEM" ["tls:crt"] ["tls"]).
  - unfold range_order. by rewrite dom_singleton_L, elements_singleton.
  - unfold range_order. by rewrite dom_singleton_L, elements_singleton.
Defined.

End ChecksumSlices.

(* ===================================================================== *)
(** * What a pass of an ensure loop issues *)
(* ===================================================================== *)

(** The calls of a pass are traced iteration by iteration: every
    iteration appends at most one call, which answers to the item of that
    iteration and to the state the iteration started in. *)
Section Trace.
Import Cluster.
Context {T : Type} `{Object T} {A : Type}.
Variable body : A → World T → Flow T.
Variable J : World T → Prop.
Variable C : A → World T → Call T → Prop.
Variable count : Call T → list (string * string).

Hypothesis body_keeps : ∀ a w, J w → J (flowWorld (body a w)).

Hypothesis body_step : ∀ a w, J w →
  ∃ l, calls (flowWorld (body a w)) = calls w ++ l
       ∧ length l ≤ 1
       ∧ Forall (C a w) l
       ∧ (∀ w1, body a w = Continue w1 ∨ body a w = Return None w1 →
                counters w1 = counters w ++ flat_map count l).

Lemma rangeLoop_trace (items : list A) (w : World T) :
  J w →
  J (rangeLoop body items w).2
  ∧ ∃ l, calls (rangeLoop body items w).2 = calls w ++ l
         ∧ length l ≤ length items
         ∧ Forall (λ call, ∃ a wi, a ∈ items ∧ J wi ∧ C a wi call) l
         ∧ ((rangeLoop body items w).1 = None →
            counters (rangeLoop body items w).2 = counters w ++ flat_map count l).
Proof.
  revert w. induction items as [|a items IH]; intros w HJ; cbn [rangeLoop].
  - split; [done|]. exists []. rewrite !app_nil_r. cbn. by repeat split.
  - pose proof (body_keeps a w HJ) as HJ1.
    destruct (body_step a w HJ) as (l1 & Hcalls & Hlen & Hall & Hcount).
    assert (Hhere : Forall (λ call, ∃ a' wi, a' ∈ a :: items ∧ J wi ∧ C a' wi call) l1).
    { eapply Forall_impl; [exact Hall|]. intros call Hc. exists a, w.
      split; [left|done]. }
    destruct (body a w) as [w1|err w1] eqn:Hbody; cbn [flowWorld] in *.
    + destruct (IH w1 HJ1) as (HJ' & l2 & Hcalls2 & Hlen2 & Hall2 & Hcount2).
      split; [done|]. exists (l1 ++ l2). rewrite Hcalls2, Hcalls, app_assoc.
      split; [done|]. split; [rewrite length_app; cbn; lia|]. split.
      * apply Forall_app. split; [done|].
        eapply Forall_impl; [exact Hall2|]. intros call (a' & wi & Hin & Hc).
        exists a', wi. split; [by right|done].
      * intros Hnil. rewrite (Hcount2 Hnil), (Hcount w1) by (by left).
        by rewrite flat_map_app, app_assoc.
    + split; [done|]. exists l1. split; [done|]. split; [cbn; lia|]. split; [done|].
      cbn [fst snd]. intros ->. apply Hcount. by right.
Qed.

End Trace.

Section StructuralTrace.
Import Cluster.
Context {T : Type} `{Object T}.
Variables (env : Env T) (kt : KindText) (c : ClusterT) (data : TemplateData).

Lemma ensureBody_lister (create : Creator T) (w : World T) :
  lister (flowWorld (ensureBody env kt c data create w)) = lister w.
Proof.
  unfold ensureBody, createMissing, updateExisting, kubeClient_Create, kubeClient_Update.
  repeat case_match; simplify_eq/=; done.
Qed.

Lemma ensureBody_step (create : Creator T) (w : World T) :
  ∃ l, calls (flowWorld (ensureBody env kt c data create w)) = calls w ++ l
       ∧ length l ≤ 1
       ∧ Forall (structuralCall data create w) l
       ∧ (∀ w1, ensureBody env kt c data create w = Continue w1
                ∨ ensureBody env kt c data create w = Return None w1 →
                counters w1 = counters w ++ flat_map (counted (counterName kt)) l).
Proof.
  unfold ensureBody.
  destruct (create data None) as [obj0|err0] eqn:H0.
  2:{ exists []. rewrite app_nil_r. cbn. split; [done|]. split; [lia|]. split; [done|].
      intros w1 [?|?]; simplify_eq. }
  unfold lister_Get. destruct (lister w !! GetName obj0) as [existing|] eqn:Hget.
  - unfold DeepCopy. destruct (create data (Some existing)) as [obj|err] eqn:Hobj.
    2:{ exists []. rewrite app_nil_r. cbn. split; [done|]. split; [lia|]. split; [done|].
        intros w1 [?|?]; simplify_eq. }
    unfold DeepEqual. case_bool_decide as Heq.
    { exists []. rewrite app_nil_r. cbn. split; [done|]. split; [lia|]. split; [done|].
      intros w1 [?|?]; simplify_eq. by rewrite app_nil_r. }
    exists [Update obj]. unfold updateExisting, kubeClient_Update.
    split; [by repeat case_match; simplify_eq/=|]. split; [cbn; lia|]. split.
    { apply Forall_singleton. cbn. by exists obj0, existing. }
    intros w1 Hw1. cbn. repeat case_match; destruct Hw1; simplify_eq/=; done.
  - cbn [notFound IsNotFound negb].
    exists [Create obj0]. unfold createMissing, kubeClient_Create.
    split; [by repeat case_match; simplify_eq/=|]. split; [cbn; lia|]. split.
    { apply Forall_singleton. by cbn. }
    intros w1 Hw1. cbn. repeat case_match; destruct Hw1; simplify_eq/=; by rewrite app_nil_r.
Qed.

End StructuralTrace.

Section WorkloadTrace.
Import Cluster.
Context {T : Type} `{Workload T}.
Variables (env : Env T) (kt : KindText) (c : ClusterT) (data : TemplateData).

Lemma ensureWorkloadBody_lister (create : Creator T) (w : World T) :
  lister (flowWorld (ensureWorkloadBody env kt c data create w)) = lister w.
Proof.
  unfold ensureWorkloadBody, createMissing, updateExisting, kubeClient_Create,
    kubeClient_Update, kubeClient_Delete.
  repeat case_match; simplify_eq/=; done.
Qed.

Lemma ensureWorkloadBody_step (create : Creator T) (w : World T) :
  ∃ l, calls (flowWorld (ensureWorkloadBody env kt c data create w)) = calls w ++ l
       ∧ length l ≤ 1
       ∧ Forall (workloadCall data create w) l
       ∧ (∀ w1, ensureWorkloadBody env kt c data create w = Continue w1
                ∨ ensureWorkloadBody env kt c data create w = Return None w1 →
                counters w1 = counters w ++ flat_map (counted (counterName kt)) l).
Proof.
  unfold ensureWorkloadBody.
  destruct (create data None) as [obj0|err0] eqn:Hnil.
  2:{ exists []. rewrite app_nil_r. cbn. split; [done|]. split; [lia|]. split; [done|].
      intros w1 [?|?]; simplify_eq. }
  unfold lister_Get. destruct (lister w !! GetName obj0) as [existing|] eqn:Hget.
  - unfold DeepCopy. destruct (create data (Some existing)) as [obj|err] eqn:Hobj.
    2:{ exists []. rewrite app_nil_r. cbn. split; [done|]. split; [lia|]. split; [done|].
        intros w1 [?|?]; simplify_eq. }
    unfold DeepEqual. case_bool_decide as Heq.
    { exists []. rewrite app_nil_r. cbn. split; [done|]. split; [lia|]. split; [done|].
      intros w1 [?|?]; simplify_eq. by rewrite app_nil_r. }
    case_bool_decide as Hsel; cbn [negb].
    + exists [Update obj]. unfold updateExisting, kubeClient_Update.
      split; [by repeat case_match; simplify_eq/=|]. split; [cbn; lia|]. split.
      { apply Forall_singleton. cbn. by exists obj0, existing. }
      intros w1 Hw1. cbn. repeat case_match; destruct Hw1; simplify_eq/=; done.
    + exists [Delete (GetName obj) (Some DeletePropagationForeground)].
      unfold kubeClient_Delete.
      split; [by repeat case_match; simplify_eq/=|]. split; [cbn; lia|]. split.
      { apply Forall_singleton. cbn. split; [done|]. by exists obj0, existing, obj. }
      intros w1 Hw1. cbn.
      repeat case_match; destruct Hw1; simplify_eq/=; by rewrite app_nil_r.
  - cbn [notFound IsNotFound negb].
    exists [Create obj0]. unfold createMissing, kubeClient_Create.
    split; [by repeat case_match; simplify_eq/=|]. split; [cbn; lia|]. split.
    { apply Forall_singleton. by cbn. }
    intros w1 Hw1. cbn. repeat case_match; destruct Hw1; simplify_eq/=; by rewrite app_nil_r.
Qed.

End WorkloadTrace.

Section ChecksumTrace.
Import Cluster.
Variables (c : ClusterT) (data : TemplateData).

Lemma ensureConfigMapsBody_lister (env : Env ConfigMap) (create : Creator ConfigMap)
    (w : World ConfigMap) :
  lister (flowWorld (ensureConfigMapsBody env c data create w)) = lister w.
Proof.
  unfold ensureConfigMapsBody, createMissing, updateExisting, kubeClient_Create,
    kubeClient_Update.
  repeat case_match; simplify_eq/=; done.
Qed.

Lemma ensureConfigMapsBody_step (env : Env ConfigMap) (create : Creator ConfigMap)
    (w : World ConfigMap) :
  ∃ l, calls (flowWorld (ensureConfigMapsBody env c data create w)) = calls w ++ l
       ∧ length l ≤ 1
       ∧ Forall (configMapCall data create w) l
       ∧ (∀ w1, ensureConfigMapsBody env c data create w = Continue w1
                ∨ ensureConfigMapsBody env c data create w = Return None w1 →
                counters w1 = counters w ++ flat_map (counted "configmap") l).
Proof.
  assert (Hnone : ∀ f : Flow ConfigMap,
            (∀ w1, f = Continue w1 ∨ f = Return None w1 → w1 = w) →
            flowWorld f = w →
            ∃ l, calls (flowWorld f) = calls w ++ l ∧ length l ≤ 1
                 ∧ Forall (configMapCall data create w) l
                 ∧ (∀ w1, f = Continue w1 ∨ f = Return None w1 →
                          counters w1 = counters w ++ flat_map (counted "configmap") l)).
  { intros f Hf Hw. exists []. rewrite Hw, app_nil_r. split; [done|]. split; [cbn; lia|].
    split; [done|]. intros w1 Hw1. rewrite (Hf w1 Hw1). cbn. by rewrite app_nil_r. }
  assert (Hupd : ∀ obj,
            configMapCall data create w (Update obj) →
            ∃ l, calls (flowWorld (updateExisting env ConfigMapText c obj w)) = calls w ++ l
                 ∧ length l ≤ 1
                 ∧ Forall (configMapCall data create w) l
                 ∧ (∀ w1, updateExisting env ConfigMapText c obj w = Continue w1
                          ∨ updateExisting env ConfigMapText c obj w = Return None w1 →
                          counters w1 = counters w ++ flat_map (counted "configmap") l)).
  { intros obj Hcall. exists [Update obj]. unfold updateExisting, kubeClient_Update.
    split; [by repeat case_match; simplify_eq/=|]. split; [cbn; lia|].
    split; [by apply Forall_singleton|].
    intros w1 Hw1. cbn. repeat case_match; destruct Hw1; simplify_eq/=; done. }
  unfold ensureConfigMapsBody.
  destruct (create data None) as [cm0|err0] eqn:H0.
  2:{ apply Hnone; [|done]. intros w1 [?|?]; simplify_eq. }
  cbv zeta.
  unfold lister_Get.
  destruct (lister w !! GetName (stampConfigMap cm0)) as [existing|] eqn:Hget.
  - unfold DeepCopy. destruct (create data (Some existing)) as [cm|err] eqn:Hcm.
    2:{ apply Hnone; [|done]. intros w1 [?|?]; simplify_eq. }
    unfold index. rewrite stampConfigMap_checksum. cbn [default id].
    destruct (GetAnnotations existing !! checksumAnnotation) as [annotationVal|] eqn:Hann.
    + destruct (decide (annotationVal = checksumOfStrings (ConfigMap_Data cm))) as [->|Hne].
      * apply Hnone; [|done]. intros w1 [?|?]; by simplify_eq.
      * apply Hupd. cbn. exists cm0, existing, cm. rewrite Hann.
        repeat split; try done. congruence.
    + apply Hupd. cbn. exists cm0, existing, cm. rewrite Hann. by repeat split.
  - cbn [notFound IsNotFound negb].
    exists [Create (stampConfigMap cm0)]. unfold createMissing, kubeClient_Create.
    split; [by repeat case_match; simplify_eq/=|]. split; [cbn; lia|]. split.
    { apply Forall_singleton. cbn. by exists cm0. }
    intros w1 Hw1. cbn. repeat case_match; destruct Hw1; simplify_eq/=; by rewrite app_nil_r.
Qed.

Lemma ensureSecretsV2Body_lister (env : Env Secret) (entry : string * Creator Secret)
    (w : World Secret) :
  lister (flowWorld (ensureSecretsV2Body env c data entry w)) = lister w.
Proof.
  unfold ensureSecretsV2Body, createMissing, updateExisting, kubeClient_Create,
    kubeClient_Update.
  repeat case_match; simplify_eq/=; done.
Qed.

Lemma ensureSecretsV2Body_step (env : Env Secret) (entry : string * Creator Secret)
    (w : World Secret) :
  ∃ l, calls (flowWorld (ensureSecretsV2Body env c data entry w)) = calls w ++ l
       ∧ length l ≤ 1
       ∧ Forall (secretV2Call data entry w) l
       ∧ (∀ w1, ensureSecretsV2Body env c data entry w = Continue w1
                ∨ ensureSecretsV2Body env c data entry w = Return None w1 →
                counters w1 = counters w ++ flat_map (counted "secret") l).
Proof.
  assert (Hnone : ∀ f : Flow Secret,
            (∀ w1, f = Continue w1 ∨ f = Return None w1 → w1 = w) →
            flowWorld f = w →
            ∃ l, calls (flowWorld f) = calls w ++ l ∧ length l ≤ 1
                 ∧ Forall (secretV2Call data entry w) l
                 ∧ (∀ w1, f = Continue w1 ∨ f = Return None w1 →
                          counters w1 = counters w ++ flat_map (counted "secret") l)).
  { intros f Hf Hw. exists []. rewrite Hw, app_nil_r. split; [done|]. split; [cbn; lia|].
    split; [done|]. intros w1 Hw1. rewrite (Hf w1 Hw1). cbn. by rewrite app_nil_r. }
  assert (Hupd : ∀ obj,
            secretV2Call data entry w (Update obj) →
            ∃ l, calls (flowWorld (updateExisting env SecretText c obj w)) = calls w ++ l
                 ∧ length l ≤ 1
                 ∧ Forall (secretV2Call data entry w) l
                 ∧ (∀ w1, updateExisting env SecretText c obj w = Continue w1
                          ∨ updateExisting env SecretText c obj w = Return None w1 →
                          counters w1 = counters w ++ flat_map (counted "secret") l)).
  { intros obj Hcall. exists [Update obj]. unfold updateExisting, kubeClient_Update.
    split; [by repeat case_match; simplify_eq/=|]. split; [cbn; lia|].
    split; [by apply Forall_singleton|].
    intros w1 Hw1. cbn. repeat case_match; destruct Hw1; simplify_eq/=; done. }
  destruct entry as [key create]. unfold ensureSecretsV2Body. unfold lister_Get.
  destruct (lister w !! key) as [existing|] eqn:Hget.
  - unfold DeepCopy. destruct (create data (Some existing)) as [se|err] eqn:Hse.
    2:{ apply Hnone; [|done]. intros w1 [?|?]; simplify_eq. }
    cbv zeta. unfold index. rewrite stampSecret_checksum. cbn [default id].
    destruct (GetAnnotations existing !! checksumAnnotation) as [annotationVal|] eqn:Hann.
    + destruct (decide (annotationVal = checksumOfBytes (Secret_Data se))) as [->|Hne].
      * apply Hnone; [|done]. intros w1 [?|?]; by simplify_eq.
      * apply Hupd. cbn. exists existing, se. rewrite Hann.
        repeat split; try done. congruence.
    + apply Hupd. cbn. exists existing, se. rewrite Hann. by repeat split.
  - cbn [notFound IsNotFound negb].
    destruct (create data None) as [se|err0] eqn:H0.
    2:{ apply Hnone; [|done]. intros w1 [?|?]; simplify_eq. }
    exists [Create (stampSecret se)]. unfold createMissing, kubeClient_Create.
    split; [by repeat case_match; simplify_eq/=|]. split; [cbn; lia|]. split.
    { apply Forall_singleton. cbn. by exists se. }
    intros w1 Hw1. cbn. repeat case_match; destruct Hw1; simplify_eq/=; by rewrite app_nil_r.
Qed.

End ChecksumTrace.

Section OrderedSecretsTrace.
Import Cluster.
Variables (env : Env Secret) (js : JSONLib Secret) (c : ClusterT).

Lemma pollLoop_counters (tries interval : nat)
    (condition : World Secret → bool * option error) (w : World Secret) :
  counters (pollLoop tries interval condition w).2 = counters w.
Proof.
  revert w. induction tries as [|tries IH]; intros w; cbn [pollLoop]; [done|].
  destruct (condition (sleep interval w)) as [[|] [err|]]; try done.
  by rewrite IH.
Qed.

Lemma ensureSecretsBody_step (op : secretOp) (w : World Secret) :
  ∃ l, calls (flowWorld (ensureSecretsBody env js c op w)) = calls w ++ l
       ∧ length l ≤ 1
       ∧ Forall (orderedSecretCall c op w) l
       ∧ (∀ w1, ensureSecretsBody env js c op w = Continue w1
                ∨ ensureSecretsBody env js c op w = Return None w1 →
                counters w1 = counters w ++ flat_map (counted "secret") l).
Proof.
  assert (Hnone : ∀ f : Flow Secret,
            (∀ w1, f = Continue w1 ∨ f = Return None w1 → w1 = w) →
            flowWorld f = w →
            ∃ l, calls (flowWorld f) = calls w ++ l ∧ length l ≤ 1
                 ∧ Forall (orderedSecretCall c op w) l
                 ∧ (∀ w1, f = Continue w1 ∨ f = Return None w1 →
                          counters w1 = counters w ++ flat_map (counted "secret") l)).
  { intros f Hf Hw. exists []. rewrite Hw, app_nil_r. split; [done|]. split; [cbn; lia|].
    split; [done|]. intros w1 Hw1. rewrite (Hf w1 Hw1). cbn. by rewrite app_nil_r. }
  unfold ensureSecretsBody, lister_Get.
  destruct (lister w !! name op) as [existing|] eqn:Hget.
  - destruct (gen op (lister w) c (Some existing)) as [[generated currentJSON]|err].
    2:{ apply Hnone; [|done]. intros w1 [?|?]; simplify_eq. }
    cbv zeta. destruct (decide _) as [Hdiff|Hsame].
    2:{ apply Hnone; [|done]. intros w1 [?|?]; by simplify_eq. }
    destruct (getPatch js existing _) as [patch|err].
    2:{ apply Hnone; [|done]. intros w1 [?|?]; simplify_eq. }
    exists [Patch (name op) MergePatchType patch]. unfold kubeClient_Patch.
    split; [by repeat case_match; simplify_eq/=|]. split; [cbn; lia|]. split.
    { apply Forall_singleton. cbn. by rewrite Hget. }
    intros w1 Hw1. cbn. repeat case_match; destruct Hw1; simplify_eq/=; done.
  - cbn [notFound IsNotFound negb].
    destruct (gen op (lister w) c None) as [[generated currentJSON]|err] eqn:Hgen.
    2:{ apply Hnone; [|done]. intros w1 [?|?]; simplify_eq. }
    cbv zeta. set (desired := finishGenerated op generated currentJSON).
    exists [Create desired].
    pose proof (kubeClient_Create_calls env desired w) as Hc.
    assert (Hk : counters (kubeClient_Create env desired w).2 = counters w).
    { unfold kubeClient_Create. by repeat case_match. }
    destruct (kubeClient_Create env desired w) as [[err|] w1]; cbn [snd] in Hc, Hk.
    { split; [done|]. split; [cbn; lia|]. split.
      - apply Forall_singleton. cbn. split; [done|]. by exists generated, currentJSON.
      - intros w2 [?|?]; simplify_eq. }
    pose proof (pollLoop_calls 300 100 (secretExistsInLister desired) w1) as Hp.
    pose proof (pollLoop_counters 300 100 (secretExistsInLister desired) w1) as Hq.
    rewrite wait_Poll_100ms_30s.
    destruct (pollLoop 300 100 _ w1) as [[err|] w2]; cbn [snd flowWorld] in *.
    + split; [congruence|]. split; [cbn; lia|]. split.
      * apply Forall_singleton. cbn. split; [done|]. by exists generated, currentJSON.
      * intros w3 [?|?]; simplify_eq.
    + split; [congruence|]. split; [cbn; lia|]. split.
      * apply Forall_singleton. cbn. split; [done|]. by exists generated, currentJSON.
      * intros w3 [?|?]; simplify_eq. cbn. rewrite app_nil_r. congruence.
Qed.

End OrderedSecretsTrace.

(** ** The loops as a whole *)

Section LoopTraces.
Import Cluster.

Lemma ensureAll_trace {T} `{Object T} (env : Env T) (kt : KindText)
    (creators : list (Creator T)) (cc : Controller) (c : ClusterT) (w : World T) :
  lister (ensureAll env kt creators cc c w).2 = lister w
  ∧ ∃ issued,
      calls (ensureAll env kt creators cc c w).2 = calls w ++ issued
      ∧ length issued ≤ length creators
      ∧ Forall (λ call, ∃ data create,
                  getClusterTemplateData cc c = Ok data ∧ create ∈ creators
                  ∧ structuralCall data create w call) issued
      ∧ ((ensureAll env kt creators cc c w).1 = None →
         counters (ensureAll env kt creators cc c w).2
         = counters w ++ flat_map (counted (counterName kt)) issued).
Proof.
  unfold ensureAll. destruct (getClusterTemplateData cc c) as [data|err] eqn:Hdata.
  2:{ split; [done|]. exists []. rewrite app_nil_r. cbn. repeat split; [lia|done..]. }
  destruct (rangeLoop_trace (ensureBody env kt c data) (λ wi, lister wi = lister w)
              (structuralCall data) (counted (counterName kt))) with (items := creators) (w := w)
    as (Hl & issued & Hcalls & Hlen & Hall & Hcount).
  - intros a wi Hwi. by rewrite ensureBody_lister.
  - intros a wi _. apply ensureBody_step.
  - done.
  - split; [done|]. exists issued. repeat split; try done.
    eapply Forall_impl; [exact Hall|]. intros call (create & wi & Hin & Hwi & Hcall).
    exists data, create. split; [done|]. split; [done|].
    destruct call; cbn in *; by rewrite <- ?Hwi.
Qed.

Lemma ensureAllWorkloads_trace {T} `{Workload T} (env : Env T) (kt : KindText)
    (creators : list (Creator T)) (cc : Controller) (c : ClusterT) (w : World T) :
  lister (ensureAllWorkloads env kt creators cc c w).2 = lister w
  ∧ ∃ issued,
      calls (ensureAllWorkloads env kt creators cc c w).2 = calls w ++ issued
      ∧ length issued ≤ length creators
      ∧ Forall (λ call, ∃ data create,
                  getClusterTemplateData cc c = Ok data ∧ create ∈ creators
                  ∧ workloadCall data create w call) issued
      ∧ ((ensureAllWorkloads env kt creators cc c w).1 = None →
         counters (ensureAllWorkloads env kt creators cc c w).2
         = counters w ++ flat_map (counted (counterName kt)) issued).
Proof.
  unfold ensureAllWorkloads.
  destruct (getClusterTemplateData cc c) as [data|err] eqn:Hdata.
  2:{ split; [done|]. exists []. rewrite app_nil_r. cbn. repeat split; [lia|done..]. }
  destruct (rangeLoop_trace (ensureWorkloadBody env kt c data) (λ wi, lister wi = lister w)
              (workloadCall data) (counted (counterName kt))) with (items := creators) (w := w)
    as (Hl & issued & Hcalls & Hlen & Hall & Hcount).
  - intros a wi Hwi. by rewrite ensureWorkloadBody_lister.
  - intros a wi _. apply ensureWorkloadBody_step.
  - done.
  - split; [done|]. exists issued. repeat split; try done.
    eapply Forall_impl; [exact Hall|]. intros call (create & wi & Hin & Hwi & Hcall).
    exists data, create. split; [done|]. split; [done|].
    destruct call; cbn in *; by rewrite <- ?Hwi.
Qed.

Lemma ensureConfigMaps_trace (env : Env ConfigMap) (res : Resources)
    (cc : Controller) (c : ClusterT) (w : World ConfigMap) :
  lister (ensureConfigMaps env res cc c w).2 = lister w
  ∧ ∃ issued,
      calls (ensureConfigMaps env res cc c w).2 = calls w ++ issued
      ∧ length issued ≤ length (GetConfigMapCreators res)
      ∧ Forall (λ call, ∃ data create,
                  getClusterTemplateData cc c = Ok data
                  ∧ create ∈ GetConfigMapCreators res
                  ∧ configMapCall data create w call) issued
      ∧ ((ensureConfigMaps env res cc c w).1 = None →
         counters (ensureConfigMaps env res cc c w).2
         = counters w ++ flat_map (counted "configmap") issued).
Proof.
  unfold ensureConfigMaps.
  destruct (getClusterTemplateData cc c) as [data|err] eqn:Hdata.
  2:{ split; [done|]. exists []. rewrite app_nil_r. cbn. repeat split; [lia|done..]. }
  destruct (rangeLoop_trace (ensureConfigMapsBody env c data) (λ wi, lister wi = lister w)
              (configMapCall data) (counted "configmap"))
    with (items := GetConfigMapCreators res) (w := w)
    as (Hl & issued & Hcalls & Hlen & Hall & Hcount).
  - intros a wi Hwi. by rewrite ensureConfigMapsBody_lister.
  - intros a wi _. apply ensureConfigMapsBody_step.
  - done.
  - split; [done|]. exists issued. repeat split; try done.
    eapply Forall_impl; [exact Hall|]. intros call (create & wi & Hin & Hwi & Hcall).
    exists data, create. split; [done|]. split; [done|].
    destruct call; cbn in *; by rewrite <- ?Hwi.
Qed.

Lemma ensureSecretsV2_trace (env : Env Secret) (visit : list (string * Creator Secret))
    (cc : Controller) (c : ClusterT) (w : World Secret) :
  lister (ensureSecretsV2 env visit cc c w).2 = lister w
  ∧ ∃ issued,
      calls (ensureSecretsV2 env visit cc c w).2 = calls w ++ issued
      ∧ length issued ≤ length visit
      ∧ Forall (λ call, ∃ data entry,
                  getClusterTemplateData cc c = Ok data ∧ entry ∈ visit
                  ∧ secretV2Call data entry w call) issued
      ∧ ((ensureSecretsV2 env visit cc c w).1 = None →
         counters (ensureSecretsV2 env visit cc c w).2
         = counters w ++ flat_map (counted "secret") issued).
Proof.
  unfold ensureSecretsV2.
  destruct (getClusterTemplateData cc c) as [data|err] eqn:Hdata.
  2:{ split; [done|]. exists []. rewrite app_nil_r. cbn. repeat split; [lia|done..]. }
  destruct (rangeLoop_trace (ensureSecretsV2Body env c data) (λ wi, lister wi = lister w)
              (secretV2Call data) (counted "secret")) with (items := visit) (w := w)
    as (Hl & issued & Hcalls & Hlen & Hall & Hcount).
  - intros a wi Hwi. by rewrite ensureSecretsV2Body_lister.
  - intros a wi _. apply ensureSecretsV2Body_step.
  - done.
  - split; [done|]. exists issued. repeat split; try done.
    eapply Forall_impl; [exact Hall|]. intros call (entry & wi & Hin & Hwi & Hcall).
    exists data, entry. split; [done|]. split; [done|].
    destruct call; cbn in *; by rewrite <- ?Hwi.
Qed.

Lemma ensureSecrets_trace (env : Env Secret) (js : JSONLib Secret) (res : Resources)
    (c : ClusterT) (w : World Secret) :
  ∃ issued,
    calls (ensureSecrets env js res c w).2 = calls w ++ issued
    ∧ length issued ≤ length (secretOpsFor res c)
    ∧ Forall (λ call, ∃ op wi, op ∈ secretOpsFor res c ∧ orderedSecretCall c op wi call)
             issued
    ∧ ((ensureSecrets env js res c w).1 = None →
       counters (ensureSecrets env js res c w).2
       = counters w ++ flat_map (counted "secret") issued).
Proof.
  unfold ensureSecrets.
  destruct (rangeLoop_trace (ensureSecretsBody env js c) (λ _, True)
              (orderedSecretCall c) (counted "secret"))
    with (items := secretOpsFor res c) (w := w)
    as (_ & issued & Hcalls & Hlen & Hall & Hcount); try done.
  - intros a wi _. apply ensureSecretsBody_step.
  - exists issued. repeat split; try done.
    eapply Forall_impl; [exact Hall|]. intros call (op & wi & Hin & _ & Hcall).
    by exists op, wi.
Qed.

End LoopTraces.

(* ===================================================================== *)
(** * Properties of the calls of a pass *)
(* ===================================================================== *)

Section LoopExtras.
Import Cluster.

(** X4.  The loops of [ensureServices], [ensureCheckServiceAccounts],
    [ensureRoles], [ensureRoleBindings], [ensureClusterRoleBindings] and
    [ensurePodDisruptionBudgets] (the six are [ensureAll] at their kind and
    creators) never touch the lister, and every call they issue answers to
    one of their creators: a Create carries what the creator builds from
    nothing, under a name the lister does not hold; an Update carries what
    the creator makes of the lister's copy and differs from that copy.
    They issue no Delete and no Patch. *)
Theorem structural_loop_calls_answer_to_creators {T} `{Object T} (env : Env T)
    (kt : KindText) (creators : list (Creator T)) (cc : Controller) (c : ClusterT)
    (w : World T) :
  let out := ensureAll env kt creators cc c w in
  lister out.2 = lister w
  ∧ ∃ issued,
      calls out.2 = calls w ++ issued
      ∧ Forall (λ call, ∃ data create,
                  getClusterTemplateData cc c = Ok data ∧ create ∈ creators
                  ∧ structuralCall data create w call) issued
      ∧ (∀ n p, Delete n p ∉ issued)
      ∧ (∀ n pt d, Patch n pt d ∉ issued).
Proof.
  intros out. subst out.
  destruct (ensureAll_trace env kt creators cc c w)
    as (Hl & issued & Hcalls & _ & Hall & _).
  split; [done|]. exists issued. split; [done|]. split; [done|].
  rewrite Forall_forall in Hall. split.
  - intros n p Hin. by destruct (Hall _ Hin) as (data & create & _ & _ & Hfalse).
  - intros n pt d Hin. by destruct (Hall _ Hin) as (data & create & _ & _ & Hfalse).
Qed.

(** X5.  A pass of a loop issues at most as many calls as the loop has
    creators (entries of the map of Secret creators for [ensureSecretsV2],
    ops for [ensureSecrets]): an iteration issues one call or none, never
    a Create and an Update for the same creator. *)
Theorem loops_issue_at_most_one_call_per_creator :
  (∀ T (HT : Object T) (env : Env T) kt creators cc c w,
     length (issuedSince w (ensureAll env kt creators cc c w).2) ≤ length creators)
  ∧ (∀ T (HT : Object T) (HW : Workload T) (env : Env T) kt creators cc c w,
       length (issuedSince w (ensureAllWorkloads env kt creators cc c w).2)
       ≤ length creators)
  ∧ (∀ env visit cc c w,
       length (issuedSince w (ensureSecretsV2 env visit cc c w).2) ≤ length visit)
  ∧ (∀ env res cc c w,
       length (issuedSince w (ensureConfigMaps env res cc c w).2)
       ≤ length (GetConfigMapCreators res))
  ∧ (∀ env js res c w,
       length (issuedSince w (ensureSecrets env js res c w).2)
       ≤ length (secretOpsFor res c)).
Proof.
  repeat split.
  - intros T HT env kt creators cc c w.
    destruct (ensureAll_trace env kt creators cc c w) as (_ & l & Hc & Hlen & _).
    by rewrite (issuedSince_app _ _ _ Hc).
  - intros T HT HW env kt creators cc c w.
    destruct (ensureAllWorkloads_trace env kt creators cc c w) as (_ & l & Hc & Hlen & _).
    by rewrite (issuedSince_app _ _ _ Hc).
  - intros env visit cc c w.
    destruct (ensureSecretsV2_trace env visit cc c w) as (_ & l & Hc & Hlen & _).
    by rewrite (issuedSince_app _ _ _ Hc).
  - intros env res cc c w.
    destruct (ensureConfigMaps_trace env res cc c w) as (_ & l & Hc & Hlen & _).
    by rewrite (issuedSince_app _ _ _ Hc).
  - intros env js res c w.
    destruct (ensureSecrets_trace env js res c w) as (l & Hc & Hlen & _).
    by rewrite (issuedSince_app _ _ _ Hc).
Qed.

(** X6.  When a pass of a loop returns nil, [countSeedResourceUpdate]
    has recorded one entry, under the kind of the loop, for every Update
    and every Patch the pass issued, in the order of the calls, and none
    for a Create or a Delete. *)
Theorem nil_pass_counts_every_update_and_patch :
  (∀ T (HT : Object T) (env : Env T) kt creators cc c w,
     let out := ensureAll env kt creators cc c w in
     out.1 = None →
     counters out.2 = counters w ++ flat_map (counted (counterName kt)) (issuedSince w out.2))
  ∧ (∀ T (HT : Object T) (HW : Workload T) (env : Env T) kt creators cc c w,
       let out := ensureAllWorkloads env kt creators cc c w in
       out.1 = None →
       counters out.2
       = counters w ++ flat_map (counted (counterName kt)) (issuedSince w out.2))
  ∧ (∀ env visit cc c w,
       let out := ensureSecretsV2 env visit cc c w in
       out.1 = None →
       counters out.2 = counters w ++ flat_map (counted "secret") (issuedSince w out.2))
  ∧ (∀ env res cc c w,
       let out := ensureConfigMaps env res cc c w in
       out.1 = None →
       counters out.2 = counters w ++ flat_map (counted "configmap") (issuedSince w out.2))
  ∧ (∀ env js res c w,
       let out := ensureSecrets env js res c w in
       out.1 = None →
       counters out.2 = counters w ++ flat_map (counted "secret") (issuedSince w out.2)).
Proof.
  repeat split.
  - intros T HT env kt creators cc c w out Hnil. subst out.
    destruct (ensureAll_trace env kt creators cc c w) as (_ & l & Hc & _ & _ & Hk).
    rewrite (issuedSince_app _ _ _ Hc). by apply Hk.
  - intros T HT HW env kt creators cc c w out Hnil. subst out.
    destruct (ensureAllWorkloads_trace env kt creators cc c w) as (_ & l & Hc & _ & _ & Hk).
    rewrite (issuedSince_app _ _ _ Hc). by apply Hk.
  - intros env visit cc c w out Hnil. subst out.
    destruct (ensureSecretsV2_trace env visit cc c w) as (_ & l & Hc & _ & _ & Hk).
    rewrite (issuedSince_app _ _ _ Hc). by apply Hk.
  - intros env res cc c w out Hnil. subst out.
    destruct (ensureConfigMaps_trace env res cc c w) as (_ & l & Hc & _ & _ & Hk).
    rewrite (issuedSince_app _ _ _ Hc). by apply Hk.
  - intros env js res c w out Hnil. subst out.
    destruct (ensureSecrets_trace env js res c w) as (l & Hc & _ & _ & Hk).
    rewrite (issuedSince_app _ _ _ Hc). by apply Hk.
Qed.

(** X7.  The loops of [ensureDeployments] and [ensureStatefulSets] (both
    are [ensureAllWorkloads]) never touch the lister and never patch.  A
    Delete they issue is a foreground Delete and answers to a creator
    whose build changes the selector of the lister's copy; an Update they
    issue keeps the selector of the lister's copy. *)
Theorem workload_loop_deletes_only_on_selector_change {T} `{Workload T} (env : Env T)
    (kt : KindText) (creators : list (Creator T)) (cc : Controller) (c : ClusterT)
    (w : World T) :
  let out := ensureAllWorkloads env kt creators cc c w in
  lister out.2 = lister w
  ∧ ∃ issued,
      calls out.2 = calls w ++ issued
      ∧ Forall (λ call, ∃ data create,
                  getClusterTemplateData cc c = Ok data ∧ create ∈ creators
                  ∧ workloadCall data create w call) issued
      ∧ (∀ n p, Delete n p ∈ issued → p = Some DeletePropagationForeground)
      ∧ (∀ n pt d, Patch n pt d ∉ issued).
Proof.
  intros out. subst out.
  destruct (ensureAllWorkloads_trace env kt creators cc c w)
    as (Hl & issued & Hcalls & _ & Hall & _).
  split; [done|]. exists issued. split; [done|]. split; [done|].
  rewrite Forall_forall in Hall. split.
  - intros n p Hin. by destruct (Hall _ Hin) as (data & create & _ & _ & Hp & _).
  - intros n pt d Hin. by destruct (Hall _ Hin) as (data & create & _ & _ & Hfalse).
Qed.

(** X8.  Whatever [ensureConfigMaps] and [ensureSecretsV2] write, by
    Create or by Update, carries under the checksum annotation the
    checksum of its own data; an Update is only issued when the checksum
    stored on the lister's copy is missing or differs from the checksum of
    the data just built.  Neither loop touches the lister, deletes or
    patches. *)
Theorem checksum_loops_write_stamped_objects :
  (∀ env res cc c w,
     let out := ensureConfigMaps env res cc c w in
     lister out.2 = lister w
     ∧ ∃ issued,
         calls out.2 = calls w ++ issued
         ∧ Forall (λ call, ∃ data create,
                     getClusterTemplateData cc c = Ok data
                     ∧ create ∈ GetConfigMapCreators res
                     ∧ configMapCall data create w call) issued
         ∧ (∀ obj, Create obj ∈ issued ∨ Update obj ∈ issued →
              GetAnnotations obj !! checksumAnnotation
              = Some (checksumOfStrings (ConfigMap_Data obj))))
  ∧ (∀ env visit cc c w,
       let out := ensureSecretsV2 env visit cc c w in
       lister out.2 = lister w
       ∧ ∃ issued,
           calls out.2 = calls w ++ issued
           ∧ Forall (λ call, ∃ data entry,
                       getClusterTemplateData cc c = Ok data ∧ entry ∈ visit
                       ∧ secretV2Call data entry w call) issued
           ∧ (∀ obj, Create obj ∈ issued ∨ Update obj ∈ issued →
                GetAnnotations obj !! checksumAnnotation
                = Some (checksumOfBytes (Secret_Data obj)))).
Proof.
  split.
  - intros env res cc c w out. subst out.
    destruct (ensureConfigMaps_trace env res cc c w)
      as (Hl & issued & Hcalls & _ & Hall & _).
    split; [done|]. exists issued. split; [done|]. split; [done|].
    rewrite Forall_forall in Hall.
    intros obj [Hin|Hin]; destruct (Hall _ Hin) as (data & create & _ & _ & Hcall);
      cbn in Hcall.
    + destruct Hcall as (cm & _ & -> & _). exact (stampConfigMap_checksum cm).
    + destruct Hcall as (cm0 & existing & cm & _ & _ & _ & -> & _).
      exact (stampConfigMap_checksum cm).
  - intros env visit cc c w out. subst out.
    destruct (ensureSecretsV2_trace env visit cc c w)
      as (Hl & issued & Hcalls & _ & Hall & _).
    split; [done|]. exists issued. split; [done|]. split; [done|].
    rewrite Forall_forall in Hall.
    intros obj [Hin|Hin]; destruct (Hall _ Hin) as (data & entry & _ & _ & Hcall);
      cbn in Hcall.
    + destruct Hcall as (se & _ & -> & _). exact (stampSecret_checksum se).
    + destruct Hcall as (existing & se & _ & _ & -> & _). exact (stampSecret_checksum se).
Qed.


End LoopExtras.

Section LoopExtrasExamples.
Import Cluster Fixtures PassFixtures.

(** A Service whose creator revises it: the Update is counted. *)
Lemma nil_pass_counts_every_update_and_patch_witness :
  counters (ensureAll (accepting (λ o _, o)) ServiceText [revising "dns"]
              controller1 cluster1 (synced {["dns" := service "dns" "v1"]})).2
  = [("service", "dns")].
Proof.
  pose proof (proj1 nil_pass_counts_every_update_and_patch Service _
                (accepting (λ o _, o)) ServiceText [revising "dns"]
                controller1 cluster1 (synced {["dns" := service "dns" "v1"]})) as Hcount.
  cbv zeta in Hcount. rewrite Hcount.
  - vm_compute. reflexivity.
  - vm_compute. reflexivity.
Defined.

End LoopExtrasExamples.

(* ===================================================================== *)
(** * The pass over every kind *)
(* ===================================================================== *)

Section WholePass.
Import Cluster.

Lemma onlyIssues_refl {T} (allowed : Call T → bool) (w : World T) :
  onlyIssues allowed w w.
Proof. exists []. by rewrite app_nil_r. Qed.

Lemma onlyIssues_trans {T} (allowed : Call T → bool) (w1 w2 w3 : World T) :
  onlyIssues allowed w1 w2 → onlyIssues allowed w2 w3 → onlyIssues allowed w1 w3.
Proof.
  intros (l1 & H1 & Hall1) (l2 & H2 & Hall2). exists (l1 ++ l2).
  split; [by rewrite H2, H1, app_assoc|]. by apply Forall_app.
Qed.

Lemma ensureAll_verbs {T} `{Object T} (env : Env T) kt creators cc c (w : World T) :
  onlyIssues createOrUpdate w (ensureAll env kt creators cc c w).2.
Proof.
  destruct (ensureAll_trace env kt creators cc c w) as (_ & l & Hc & _ & Hall & _).
  exists l. split; [done|]. eapply Forall_impl; [exact Hall|].
  intros call (data & create & _ & _ & Hcall). by destruct call.
Qed.

Lemma ensureAllWorkloads_verbs {T} `{Workload T} (env : Env T) kt creators cc c
    (w : World T) :
  onlyIssues createUpdateOrForegroundDelete w (ensureAllWorkloads env kt creators cc c w).2.
Proof.
  destruct (ensureAllWorkloads_trace env kt creators cc c w) as (_ & l & Hc & _ & Hall & _).
  exists l. split; [done|]. eapply Forall_impl; [exact Hall|].
  intros call (data & create & _ & _ & Hcall).
  destruct call as [| |n p|]; try done. by destruct Hcall as [-> _].
Qed.

Lemma ensureConfigMaps_verbs env res cc c (w : World ConfigMap) :
  onlyIssues createOrUpdate w (ensureConfigMaps env res cc c w).2.
Proof.
  destruct (ensureConfigMaps_trace env res cc c w) as (_ & l & Hc & _ & Hall & _).
  exists l. split; [done|]. eapply Forall_impl; [exact Hall|].
  intros call (data & create & _ & _ & Hcall). by destruct call.
Qed.

Lemma ensureSecretsV2_verbs env visit cc c (w : World Secret) :
  onlyIssues createUpdateOrMergePatch w (ensureSecretsV2 env visit cc c w).2.
Proof.
  destruct (ensureSecretsV2_trace env visit cc c w) as (_ & l & Hc & _ & Hall & _).
  exists l. split; [done|]. eapply Forall_impl; [exact Hall|].
  intros call (data & create & _ & _ & Hcall). by destruct call.
Qed.

Lemma ensureSecrets_verbs env js res c (w : World Secret) :
  onlyIssues createUpdateOrMergePatch w (ensureSecrets env js res c w).2.
Proof.
  destruct (ensureSecrets_trace env js res c w) as (l & Hc & _ & Hall & _).
  exists l. split; [done|]. eapply Forall_impl; [exact Hall|].
  intros call (op & wi & _ & Hcall).
  destruct call as [| | |n pt d]; try done. by destruct Hcall as (_ & -> & _).
Qed.

(** A property of the namespace that every check keeps holds after the
    whole pass, wherever the pass stops. *)
Lemma checks_invariant (I : Seed → Prop) (steps : list Step) (s : Seed) :
  (∀ step, step ∈ steps → ∀ s1, I s1 → I (step s1).2) →
  I s → I (foldr orReturn (λ s, (None, s)) steps s).2.
Proof.
  revert s. induction steps as [|step steps IH]; intros s Hsteps HI; cbn [foldr]; [done|].
  unfold orReturn at 1.
  pose proof (Hsteps step (list_elem_of_here _ _) s HI) as H1.
  destruct (step s) as [[err|] s1]; cbn [snd] in H1; [done|].
  apply IH; [|done]. intros step' Hin. apply Hsteps. by right.
Qed.

(** Runs an ensurer of one kind within [keepsToVerbs]. *)
Ltac keeps_on ensure_verbs :=
  let s1 := fresh "s1" in
  let Hk := fresh "Hk" in
  let E := fresh "E" in
  intros s1 Hk; unfold on;
  match goal with
  | |- context [let '(_, _) := ?f ?w in _] =>
      pose proof (ensure_verbs w) as E;
      match type of E with
      | onlyIssues ?a _ _ => change (onlyIssues a w (f w).2) in E
      end;
      destruct (f w)
  end;
  cbn [snd] in *;
  destruct Hk as (? & ? & ? & ? & ? & ? & ? & ? & ? & ?);
  repeat split; cbn; try assumption;
  (eapply onlyIssues_trans; [eassumption|exact E]).

(** X10.  Wherever [ensureResourcesAreDeployed] stops, the calls it has
    issued keep to the sort of each kind: ServiceAccounts, Roles,
    RoleBindings, ClusterRoleBindings, Services, ConfigMaps and
    PodDisruptionBudgets have only received Creates and Updates; Secrets
    Creates, Updates and merge Patches; Deployments and StatefulSets
    Creates, Updates and foreground Deletes.  No call is ever taken back
    from a log, and ClusterRoleBindings receive no call at all. *)
Theorem pass_keeps_to_the_calls_of_each_kind (envs : Envs) (res : Resources)
    (visit : list (string * Creator Secret)) (cc : Controller) (cluster : ClusterT)
    (s : Seed) :
  let out := ensureResourcesAreDeployed envs res visit cc cluster s in
  keepsToVerbs s out.2
  ∧ calls (ClusterRoleBindings out.2) = calls (ClusterRoleBindings s).
Proof.
  intros out. subst out. unfold ensureResourcesAreDeployed.
  apply (checks_invariant
           (λ s', keepsToVerbs s s'
                  ∧ calls (ClusterRoleBindings s') = calls (ClusterRoleBindings s))).
  2:{ split; [|done]. repeat split; apply onlyIssues_refl. }
  intros step Hin. unfold checks in Hin.
  repeat (apply elem_of_cons in Hin as [->|Hin]); [..|by apply not_elem_of_nil in Hin].
  - intros s1 [Hk Hc]. split.
    + clear Hc. revert s1 Hk.
      keeps_on (ensureAll_verbs (forServiceAccounts envs) ServiceAccountText
                  (ServiceAccountCreators res) cc cluster).
    + unfold on. by destruct (ensureCheckServiceAccounts _ _ _ _ _).
  - intros s1 [Hk Hc]. split.
    + clear Hc. revert s1 Hk.
      keeps_on (ensureAll_verbs (forRoles envs) RoleText [prometheus_Role res] cc cluster).
    + unfold on. by destruct (ensureRoles _ _ _ _ _).
  - intros s1 [Hk Hc]. split.
    + clear Hc. revert s1 Hk.
      keeps_on (ensureAll_verbs (forRoleBindings envs) RoleBindingText
                  [prometheus_RoleBinding res] cc cluster).
    + unfold on. by destruct (ensureRoleBindings _ _ _ _ _).
  - intros s1 [Hk Hc]. split.
    + clear Hc. revert s1 Hk.
      keeps_on (ensureAll_verbs (forClusterRoleBindings envs) ClusterRoleBindingText
                  [] cc cluster).
    + unfold on, ensureClusterRoleBindings, ensureAll.
      by destruct (getClusterTemplateData cc cluster).
  - intros s1 [Hk Hc]. split.
    + clear Hc. revert s1 Hk.
      keeps_on (ensureAll_verbs (forServices envs) ServiceText
                  (GetServiceCreators res) cc cluster).
    + unfold on. by destruct (ensureServices _ _ _ _ _).
  - intros s1 [Hk Hc]. split.
    + clear Hc. revert s1 Hk.
      keeps_on (ensureSecrets_verbs (forSecrets envs) (json envs) res cluster).
    + unfold on. by destruct (ensureSecrets _ _ _ _ _).
  - intros s1 [Hk Hc]. split.
    + clear Hc. revert s1 Hk.
      keeps_on (ensureSecretsV2_verbs (forSecrets envs) visit cc cluster).
    + unfold on. by destruct (ensureSecretsV2 _ _ _ _ _).
  - intros s1 [Hk Hc]. split.
    + clear Hc. revert s1 Hk.
      keeps_on (ensureConfigMaps_verbs (forConfigMaps envs) res cc cluster).
    + unfold on. by destruct (ensureConfigMaps _ _ _ _ _).
  - intros s1 [Hk Hc]. split.
    + clear Hc. revert s1 Hk.
      keeps_on (ensureAllWorkloads_verbs (forDeployments envs) DeploymentText
                  (GetDeploymentCreators res (Some cluster)) cc cluster).
    + unfold on. by destruct (ensureDeployments _ _ _ _ _).
  - intros s1 [Hk Hc]. split.
    + clear Hc. revert s1 Hk.
      keeps_on (ensureAllWorkloads_verbs (forStatefulSets envs) StatefulSetText
                  (GetStatefulSetCreators res) cc cluster).
    + unfold on. by destruct (ensureStatefulSets _ _ _ _ _).
  - intros s1 [Hk Hc]. split.
    + clear Hc. revert s1 Hk.
      keeps_on (ensureAll_verbs (forPodDisruptionBudgets envs) PodDisruptionBudgetText
                  (GetPodDisruptionBudgetCreators res) cc cluster).
    + unfold on. by destruct (ensurePodDisruptionBudgets _ _ _ _ _).
Qed.

(** X11.  When the controller does not know the datacenter of the
    cluster, [getClusterTemplateData] fails, and with it the first check
    of [ensureResourcesAreDeployed]: the pass returns the error [failed to
    get datacenter ...] at once and leaves every kind as it was; not even
    the ordered Secrets, whose loop never asks for the datacenter, are
    reached. *)
Theorem unknown_datacenter_stops_the_pass_before_any_call (envs : Envs) (res : Resources)
    (visit : list (string * Creator Secret)) (cc : Controller) (cluster : ClusterT)
    (s : Seed) :
  dcs cc !! Spec_Cloud_DatacenterName cluster = None →
  ensureResourcesAreDeployed envs res visit cc cluster s
  = (Some (ErrorString ("failed to get datacenter " +:+ Spec_Cloud_DatacenterName cluster)), s).
Proof.
  intros Hdc.
  unfold ensureResourcesAreDeployed, checks. cbn [foldr]. unfold orReturn at 1.
  unfold on at 1. unfold ensureCheckServiceAccounts, ensureAll, getClusterTemplateData.
  rewrite Hdc. by destruct s.
Qed.

End WholePass.

Section WholePassExamples.
Import Cluster Fixtures PassFixtures.

Lemma unknown_datacenter_stops_the_pass_before_any_call_witness :
  dcs controller1 !! Spec_Cloud_DatacenterName strayCluster = None
  ∧ ensureResourcesAreDeployed acceptingAll noResources [] controller1 strayCluster emptySeed
    = (Some (ErrorString "failed to get datacenter dc-unknown"), emptySeed).
Proof.
  assert (Hdc : dcs controller1 !! Spec_Cloud_DatacenterName strayCluster = None)
    by (vm_compute; reflexivity).
  split; [exact Hdc|].
  exact (unknown_datacenter_stops_the_pass_before_any_call
           acceptingAll noResources [] controller1 strayCluster emptySeed Hdc).
Defined.

End WholePassExamples.

(* ===================================================================== *)
(** * Edge cases of the ensure loops *)
(* ===================================================================== *)

Section LoopEdges.
Import Cluster.

(** X12.  A structural loop decides between Create and Update from the
    lister alone.  When the object a creator builds is missing from the
    lister but present on the server (the lister lags behind an earlier
    Create), the loop creates it again, the server answers AlreadyExists,
    and the pass ends there with [failed to create ...]: nothing is
    stored or counted, and the creators behind are not run. *)
Theorem stale_lister_makes_the_create_fail {T} `{Object T} (env : Env T) (kt : KindText)
    (cc : Controller) (c : ClusterT) (data : TemplateData)
    (pre post : list (Creator T)) (create : Creator T) (w0 w : World T) (obj : T) :
  getClusterTemplateData cc c = Ok data →
  reaches (ensureBody env kt c data) pre w0 = Some w →
  create data None = Ok obj →
  lister w !! GetName obj = None →
  is_Some (apiserver w !! GetName obj) →
  rejects env (Create obj) = None →
  let out := ensureAll env kt (pre ++ create :: post) cc c w0 in
  out.1 = Some (failedToCreate kt (GetName obj) (alreadyExists (GetName obj)))
  ∧ calls out.2 = calls w ++ [Create obj]
  ∧ apiserver out.2 = apiserver w
  ∧ counters out.2 = counters w.
Proof.
  intros Hdata Hpre Hobj Hmiss [live Hlive] Hrej out. subst out.
  unfold ensureAll. rewrite Hdata.
  rewrite (rangeLoop_returns _ pre post create w0 w (issue (Create obj) w)
             (Some (failedToCreate kt (GetName obj) (alreadyExists (GetName obj)))) Hpre).
  - done.
  - unfold ensureBody. rewrite Hobj. unfold lister_Get. rewrite Hmiss.
    cbn [notFound IsNotFound negb]. unfold createMissing, kubeClient_Create.
    rewrite Hrej. cbn [issue apiserver]. by rewrite Hlive.
Qed.

Lemma first_pass_creates_structural {T} `{Object T} (env : Env T) (kt : KindText)
    (c : ClusterT) (data : TemplateData) (creators : list (Creator T)) (objs : list T)
    (w : World T) :
  Forall2 (λ create obj, create data None = Ok obj) creators objs →
  NoDup (GetName <$> objs) →
  (∀ obj, obj ∈ objs →
     lister w !! GetName obj = None ∧ apiserver w !! GetName obj = None
     ∧ rejects env (Create obj) = None) →
  ∃ w', rangeLoop (ensureBody env kt c data) creators w = (None, w')
        ∧ calls w' = calls w ++ (Create <$> objs)
        ∧ (∀ obj, obj ∈ objs → apiserver w' !! GetName obj = Some obj)
        ∧ (∀ k, k ∉ GetName <$> objs → apiserver w' !! k = apiserver w !! k)
        ∧ lister w' = lister w
        ∧ counters w' = counters w.
Proof.
  intros Hbuilt. revert w. induction Hbuilt as [|create obj creators objs Hobj Hrest IH];
    intros w Hnodup Hfresh.
  - exists w. cbn. rewrite app_nil_r. repeat split; try done.
    intros obj Hin. by apply not_elem_of_nil in Hin.
  - rewrite fmap_cons in Hnodup. apply NoDup_cons in Hnodup as [Hnew Hnodup].
    destruct (Hfresh obj (list_elem_of_here _ _)) as (Hl & Ha & Hrej).
    cbn [rangeLoop]. unfold ensureBody at 1. rewrite Hobj. unfold lister_Get. rewrite Hl.
    cbn [notFound IsNotFound negb]. unfold createMissing, kubeClient_Create.
    rewrite Hrej. cbn [issue apiserver]. rewrite Ha.
    set (w1 := commit env (GetName obj) _ _).
    destruct (IH w1 Hnodup) as (w' & Hrun & Hcalls & Hall & Hother & Hlister & Hcount).
    { intros obj' Hin. destruct (Hfresh obj') as (Hl' & Ha' & Hrej'); [by right|].
      split; [done|]. split; [|done]. subst w1. cbn.
      rewrite lookup_insert_ne; [done|]. intros Heq. apply Hnew. rewrite Heq.
      apply list_elem_of_fmap. by exists obj'. }
    exists w'. split; [done|]. split.
    { rewrite Hcalls. subst w1. cbn. by rewrite <- app_assoc. }
    split; [|split; [|split]].
    + intros obj' Hin. apply elem_of_cons in Hin as [->|Hin]; [|by apply Hall].
      rewrite (Hother _ Hnew). subst w1. cbn. apply lookup_insert_eq.
    + intros k Hk. rewrite fmap_cons in Hk. apply not_elem_of_cons in Hk as [Hne Hk].
      rewrite (Hother _ Hk). subst w1. cbn. by apply lookup_insert_ne.
    + by rewrite Hlister.
    + by rewrite Hcount.
Qed.

Lemma first_pass_creates_workloads {T} `{Workload T} (env : Env T) (kt : KindText)
    (c : ClusterT) (data : TemplateData) (creators : list (Creator T)) (objs : list T)
    (w : World T) :
  Forall2 (λ create obj, create data None = Ok obj) creators objs →
  NoDup (GetName <$> objs) →
  (∀ obj, obj ∈ objs →
     lister w !! GetName obj = None ∧ apiserver w !! GetName obj = None
     ∧ rejects env (Create obj) = None) →
  ∃ w', rangeLoop (ensureWorkloadBody env kt c data) creators w = (None, w')
        ∧ calls w' = calls w ++ (Create <$> objs)
        ∧ (∀ obj, obj ∈ objs → apiserver w' !! GetName obj = Some obj)
        ∧ (∀ k, k ∉ GetName <$> objs → apiserver w' !! k = apiserver w !! k)
        ∧ lister w' = lister w
        ∧ counters w' = counters w.
Proof.
  intros Hbuilt. revert w. induction Hbuilt as [|create obj creators objs Hobj Hrest IH];
    intros w Hnodup Hfresh.
  - exists w. cbn. rewrite app_nil_r. repeat split; try done.
    intros obj Hin. by apply not_elem_of_nil in Hin.
  - rewrite fmap_cons in Hnodup. apply NoDup_cons in Hnodup as [Hnew Hnodup].
    destruct (Hfresh obj (list_elem_of_here _ _)) as (Hl & Ha & Hrej).
    cbn [rangeLoop]. unfold ensureWorkloadBody at 1. rewrite Hobj.
    unfold lister_Get. rewrite Hl.
    cbn [notFound IsNotFound negb]. unfold createMissing, kubeClient_Create.
    rewrite Hrej. cbn [issue apiserver]. rewrite Ha.
    set (w1 := commit env (GetName obj) _ _).
    destruct (IH w1 Hnodup) as (w' & Hrun & Hcalls & Hall & Hother & Hlister & Hcount).
    { intros obj' Hin. destruct (Hfresh obj') as (Hl' & Ha' & Hrej'); [by right|].
      split; [done|]. split; [|done]. subst w1. cbn.
      rewrite lookup_insert_ne; [done|]. intros Heq. apply Hnew. rewrite Heq.
      apply list_elem_of_fmap. by exists obj'. }
    exists w'. split; [done|]. split.
    { rewrite Hcalls. subst w1. cbn. by rewrite <- app_assoc. }
    split; [|split; [|split]].
    + intros obj' Hin. apply elem_of_cons in Hin as [->|Hin]; [|by apply Hall].
      rewrite (Hother _ Hnew). subst w1. cbn. apply lookup_insert_eq.
    + intros k Hk. rewrite fmap_cons in Hk. apply not_elem_of_cons in Hk as [Hne Hk].
      rewrite (Hother _ Hk). subst w1. cbn. by apply lookup_insert_ne.
    + by rewrite Hlister.
    + by rewrite Hcount.
Qed.

(** X13.  The first pass over a namespace that holds none of the
    objects: when every creator builds its object, the objects have
    distinct names, neither the lister nor the server holds any of them
    and the server accepts the Creates, a structural loop and a workload
    loop both return nil after exactly one Create per creator, in the
    order of the creators; afterwards the server holds every object as
    built, nothing else has changed on it, and nothing has been counted
    as an update. *)
Theorem first_pass_creates_every_object :
  (∀ T (HT : Object T) (env : Env T) kt creators cc c data (objs : list T) (w : World T),
     getClusterTemplateData cc c = Ok data →
     Forall2 (λ create obj, create data None = Ok obj) creators objs →
     NoDup (GetName <$> objs) →
     (∀ obj, obj ∈ objs →
        lister w !! GetName obj = None ∧ apiserver w !! GetName obj = None
        ∧ rejects env (Create obj) = None) →
     let out := ensureAll env kt creators cc c w in
     out.1 = None
     ∧ calls out.2 = calls w ++ (Create <$> objs)
     ∧ (∀ obj, obj ∈ objs → apiserver out.2 !! GetName obj = Some obj)
     ∧ (∀ k, k ∉ GetName <$> objs → apiserver out.2 !! k = apiserver w !! k)
     ∧ counters out.2 = counters w)
  ∧
  (∀ T (HT : Object T) (HW : Workload T) (env : Env T) kt creators cc c data
     (objs : list T) (w : World T),
     getClusterTemplateData cc c = Ok data →
     Forall2 (λ create obj, create data None = Ok obj) creators objs →
     NoDup (GetName <$> objs) →
     (∀ obj, obj ∈ objs →
        lister w !! GetName obj = None ∧ apiserver w !! GetName obj = None
        ∧ rejects env (Create obj) = None) →
     let out := ensureAllWorkloads env kt creators cc c w in
     out.1 = None
     ∧ calls out.2 = calls w ++ (Create <$> objs)
     ∧ (∀ obj, obj ∈ objs → apiserver out.2 !! GetName obj = Some obj)
     ∧ (∀ k, k ∉ GetName <$> objs → apiserver out.2 !! k = apiserver w !! k)
     ∧ counters out.2 = counters w).
Proof.
  split.
  - intros T HT env kt creators cc c data objs w Hdata Hbuilt Hnodup Hfresh out.
    subst out. unfold ensureAll. rewrite Hdata.
    destruct (first_pass_creates_structural env kt c data creators objs w Hbuilt Hnodup Hfresh)
      as (w' & -> & Hcalls & Hall & Hother & _ & Hcount). done.
  - intros T HT HW env kt creators cc c data objs w Hdata Hbuilt Hnodup Hfresh out.
    subst out. unfold ensureAllWorkloads. rewrite Hdata.
    destruct (first_pass_creates_workloads env kt c data creators objs w Hbuilt Hnodup Hfresh)
      as (w' & -> & Hcalls & Hall & Hother & _ & Hcount). done.
Qed.

Lemma ensureWorkloadBody_structural {T} `{Workload T} (env : Env T) (kt : KindText)
    (c : ClusterT) (data : TemplateData) (create : Creator T) (w : World T) :
  (∀ existing obj, create data (Some existing) = Ok obj →
     MatchLabels (Selector (GetSpec obj)) = MatchLabels (Selector (GetSpec existing))) →
  ensureWorkloadBody env kt c data create w = ensureBody env kt c data create w.
Proof.
  intros Hkept. unfold ensureWorkloadBody, ensureBody.
  destruct (create data None) as [dep0|]; [|done].
  destruct (lister_Get (GetName dep0) w) as [existing|]; [|done].
  unfold DeepCopy. destruct (create data (Some existing)) as [dep|] eqn:Hdep; [|done].
  destruct (DeepEqual dep existing); [done|].
  unfold DeepEqual at 1. by rewrite bool_decide_eq_true_2 by (by apply Hkept).
Qed.

(** X14.  The selector is the only thing that sets [ensureDeployments]
    and [ensureStatefulSets] apart from the structural loops: when every
    creator keeps the selector of the object it is given, a workload loop
    returns the same result, issues the same calls and leaves the same
    state as the structural loop over the same creators; in particular it
    never deletes. *)
Theorem workload_loop_is_structural_when_selectors_are_kept {T} `{Workload T}
    (env : Env T) (kt : KindText) (creators : list (Creator T)) (cc : Controller)
    (c : ClusterT) (w : World T) :
  (∀ data create existing obj,
     create ∈ creators → create data (Some existing) = Ok obj →
     MatchLabels (Selector (GetSpec obj)) = MatchLabels (Selector (GetSpec existing))) →
  ensureAllWorkloads env kt creators cc c w = ensureAll env kt creators cc c w
  ∧ ∀ n p, Delete n p ∉ issuedSince w (ensureAllWorkloads env kt creators cc c w).2.
Proof.
  intros Hkept.
  assert (Heq : ensureAllWorkloads env kt creators cc c w = ensureAll env kt creators cc c w).
  { unfold ensureAllWorkloads, ensureAll.
    destruct (getClusterTemplateData cc c) as [data|]; [|done].
    revert w. induction creators as [|create creators IH]; intros w; cbn [rangeLoop]; [done|].
    rewrite (ensureWorkloadBody_structural env kt c data create w)
      by (intros existing obj; apply Hkept; left).
    destruct (ensureBody env kt c data create w); [|done].
    apply IH. intros data' create' existing obj Hin. apply Hkept. by right. }
  split; [done|]. rewrite Heq. intros n p Hin.
  destruct (ensureAll_trace env kt creators cc c w) as (_ & l & Hc & _ & Hall & _).
  rewrite (issuedSince_app _ _ _ Hc) in Hin. rewrite Forall_forall in Hall.
  by destruct (Hall _ Hin) as (data & create & _ & _ & Hfalse).
Qed.

(** X15.  In [ensureDeployments] and [ensureStatefulSets] the error of
    the foreground Delete is returned as it is, without a message in
    front.  When the server refuses the Delete, the pass returns the
    server's error; when the lister still shows the object but the server
    no longer holds it (the lister lags behind an earlier Delete), the
    pass returns the server's NotFound.  In both cases the server's store
    stays as it is and the creators behind are not run. *)
Theorem selector_delete_error_is_returned_bare {T} `{Workload T} (env : Env T)
    (kt : KindText) (cc : Controller) (c : ClusterT) (data : TemplateData)
    (pre post : list (Creator T)) (create : Creator T) (w0 w : World T)
    (dep0 existing dep : T) :
  getClusterTemplateData cc c = Ok data →
  reaches (ensureWorkloadBody env kt c data) pre w0 = Some w →
  create data None = Ok dep0 →
  lister w !! GetName dep0 = Some existing →
  create data (Some existing) = Ok dep →
  dep ≠ existing →
  MatchLabels (Selector (GetSpec dep)) ≠ MatchLabels (Selector (GetSpec existing)) →
  let gone := Delete (GetName dep) (Some DeletePropagationForeground) in
  let out := ensureAllWorkloads env kt (pre ++ create :: post) cc c w0 in
  calls out.2 = calls w ++ [gone]
  ∧ (∀ err, rejects env gone = Some err →
       out.1 = Some err ∧ apiserver out.2 = apiserver w)
  ∧ (rejects env gone = None → apiserver w !! GetName dep = None →
       out.1 = Some (notFound (GetName dep))
       ∧ IsNotFound (notFound (GetName dep)) = true
       ∧ apiserver out.2 = apiserver w).
Proof.
  intros Hdata Hpre Hdep0 Hget Hdep Hne Hsel gone out. subst out.
  rewrite (ensureAllWorkloads_selector_mismatch env kt c data cc pre post create w0 w
             dep0 existing dep Hdata Hpre Hdep0 Hget Hdep Hne Hsel).
  split; [apply kubeClient_Delete_calls|]. fold gone. unfold kubeClient_Delete.
  fold gone. split.
  - intros err Hrej. by rewrite Hrej.
  - intros Hrej Hmiss. rewrite Hrej. cbn [issue apiserver]. by rewrite Hmiss.
Qed.

(** X16.  For an object the lister holds, [ensureConfigMaps] and
    [ensureSecretsV2] decide by the checksum annotation alone.  When the
    checksum stored on the lister's copy equals that of the data the
    creator builds, the iteration issues no call, whatever else differs
    between the two objects; when it is missing or differs, the iteration
    issues an Update that carries the object built, stamped with the
    checksum of its data. *)
Theorem checksum_annotation_alone_decides_the_update :
  (∀ env c data (create : Creator ConfigMap) w cm0 existing cm,
     create data None = Ok cm0 →
     lister w !! GetName cm0 = Some existing →
     create data (Some existing) = Ok cm →
     let out := ensureConfigMapsBody env c data create w in
     let fresh := checksumOfStrings (ConfigMap_Data cm) in
     (GetAnnotations existing !! checksumAnnotation = Some fresh → out = Continue w)
     ∧ (GetAnnotations existing !! checksumAnnotation ≠ Some fresh →
        calls (flowWorld out) = calls w ++ [Update (stampConfigMap cm)]))
  ∧
  (∀ env c data key (create : Creator Secret) w existing se,
     lister w !! key = Some existing →
     create data (Some existing) = Ok se →
     let out := ensureSecretsV2Body env c data (key, create) w in
     let fresh := checksumOfBytes (Secret_Data se) in
     (GetAnnotations existing !! checksumAnnotation = Some fresh → out = Continue w)
     ∧ (GetAnnotations existing !! checksumAnnotation ≠ Some fresh →
        calls (flowWorld out) = calls w ++ [Update (stampSecret se)])).
Proof.
  split.
  - intros env c data create w cm0 existing cm Hcm0 Hget Hcm out fresh. subst out fresh.
    unfold ensureConfigMapsBody. rewrite Hcm0. cbv zeta.
    change (GetName (stampConfigMap cm0)) with (GetName cm0).
    unfold lister_Get. rewrite Hget. unfold DeepCopy. rewrite Hcm.
    unfold index. rewrite stampConfigMap_checksum. cbn [default id]. split.
    + intros ->. by rewrite decide_True.
    + intros Hstale.
      assert (Hupd : calls (flowWorld (updateExisting env ConfigMapText c
                                         (stampConfigMap cm) w))
                     = calls w ++ [Update (stampConfigMap cm)]).
      { unfold updateExisting, kubeClient_Update. by repeat case_match; simplify_eq/=. }
      destruct (GetAnnotations existing !! checksumAnnotation) as [v|]; [|done].
      rewrite decide_False; [done|]. congruence.
  - intros env c data key create w existing se Hget Hse out fresh. subst out fresh.
    unfold ensureSecretsV2Body. unfold lister_Get. rewrite Hget. unfold DeepCopy.
    rewrite Hse. cbv zeta.
    unfold index. rewrite stampSecret_checksum. cbn [default id]. split.
    + intros ->. by rewrite decide_True.
    + intros Hstale.
      assert (Hupd : calls (flowWorld (updateExisting env SecretText c (stampSecret se) w))
                     = calls w ++ [Update (stampSecret se)]).
      { unfold updateExisting, kubeClient_Update. by repeat case_match; simplify_eq/=. }
      destruct (GetAnnotations existing !! checksumAnnotation) as [v|]; [|done].
      rewrite decide_False; [done|]. congruence.
Qed.

(** X17.  [ensureSecretsV2] looks a secret up in the lister under the
    key of its creator in the map, but writes it under the name the
    creator gives it.  Whenever the lister holds nothing under the key,
    the secret built is created, whether or not the lister and the server
    hold a secret of that name already; if the server does, the pass ends
    with [failed to create Secret ...] on AlreadyExists. *)
Theorem secret_is_looked_up_by_key_and_created_by_name (env : Env Secret)
    (cc : Controller) (c : ClusterT) (data : TemplateData)
    (pre post : list (string * Creator Secret)) (key : string) (create : Creator Secret)
    (w0 w : World Secret) (se : Secret) :
  getClusterTemplateData cc c = Ok data →
  reaches (ensureSecretsV2Body env c data) pre w0 = Some w →
  lister w !! key = None →
  create data None = Ok se →
  rejects env (Create (stampSecret se)) = None →
  is_Some (apiserver w !! GetName se) →
  let out := ensureSecretsV2 env (pre ++ (key, create) :: post) cc c w0 in
  out.1 = Some (failedToCreate SecretText (GetName se) (alreadyExists (GetName se)))
  ∧ calls out.2 = calls w ++ [Create (stampSecret se)]
  ∧ apiserver out.2 = apiserver w.
Proof.
  intros Hdata Hpre Hmiss Hse Hrej [live Hlive] out. subst out.
  unfold ensureSecretsV2. rewrite Hdata.
  rewrite (rangeLoop_returns _ pre post (key, create) w0 w
             (issue (Create (stampSecret se)) w)
             (Some (failedToCreate SecretText (GetName se) (alreadyExists (GetName se))))
             Hpre).
  - done.
  - unfold ensureSecretsV2Body, lister_Get. rewrite Hmiss.
    cbn [notFound IsNotFound negb]. rewrite Hse.
    unfold createMissing, kubeClient_Create. rewrite Hrej. cbn [issue apiserver].
    change (GetName (stampSecret se)) with (GetName se). by rewrite Hlive.
Qed.

End LoopEdges.

Section LoopEdgeExamples.
Import Cluster Fixtures PassFixtures EdgeFixtures.

(** The server holds the Service already, the lister does not show it
    yet. *)
Lemma stale_lister_makes_the_create_fail_witness :
  (ensureAll (accepting (λ o _, o)) ServiceText [constant (service "apiserver" "v1")]
             controller1 cluster1 (lagging {["apiserver" := service "apiserver" "v1"]})).1
  = Some (ErrorString "failed to create Service apiserver: 'apiserver' already exists").
Proof.
  refine (proj1 (stale_lister_makes_the_create_fail
                   (accepting (λ o _, o)) ServiceText controller1 cluster1 data1
                   [] [] (constant (service "apiserver" "v1"))
                   (lagging {["apiserver" := service "apiserver" "v1"]})
                   (lagging {["apiserver" := service "apiserver" "v1"]})
                   (service "apiserver" "v1") _ _ _ _ _ _)).
  - reflexivity.
  - reflexivity.
  - reflexivity.
  - reflexivity.
  - decide_by_computation.
  - reflexivity.
Defined.

(** Two Services in an empty namespace. *)
Lemma first_pass_creates_every_object_witness :
  calls (ensureAll (accepting (λ o _, o)) ServiceText
           [constant (service "apiserver" "v1"); constant (service "dns" "v1")]
           controller1 cluster1 (synced ∅)).2
  = [Create (service "apiserver" "v1"); Create (service "dns" "v1")].
Proof.
  refine (proj1 (proj2 (proj1 first_pass_creates_every_object Service _
                   (accepting (λ o _, o)) ServiceText
                   [constant (service "apiserver" "v1"); constant (service "dns" "v1")]
                   controller1 cluster1 data1
                   [service "apiserver" "v1"; service "dns" "v1"] (synced ∅) _ _ _ _))).
  - reflexivity.
  - repeat constructor.
  - decide_by_computation.
  - intros obj Hin. apply elem_of_cons in Hin as [->|Hin].
    { repeat split; reflexivity. }
    apply list_elem_of_singleton in Hin as ->. repeat split; reflexivity.
Defined.

(** A Deployment whose template changes while its selector stays. *)
Lemma workload_loop_is_structural_when_selectors_are_kept_witness :
  ensureAllWorkloads (accepting (λ o _, o)) DeploymentText [keepingSelector "dns" "v2"]
    controller1 cluster1 (synced {["dns" := deployment "dns" "old"]})
  = ensureAll (accepting (λ o _, o)) DeploymentText [keepingSelector "dns" "v2"]
      controller1 cluster1 (synced {["dns" := deployment "dns" "old"]}).
Proof.
  refine (proj1 (workload_loop_is_structural_when_selectors_are_kept
                   (accepting (λ o _, o)) DeploymentText [keepingSelector "dns" "v2"]
                   controller1 cluster1 (synced {["dns" := deployment "dns" "old"]}) _)).
  intros data create existing obj Hin Hobj.
  apply list_elem_of_singleton in Hin as ->. by injection Hobj as <-.
Defined.

(** The lister still shows the Deployment whose selector changed; the
    server has dropped it. *)
Lemma selector_delete_error_is_returned_bare_witness :
  (ensureAllWorkloads (accepting (λ o _, o)) DeploymentText
     [constant (deployment "dns" "b")] controller1 cluster1
     (outdated {["dns" := deployment "dns" "a"]})).1
  = Some (StatusError StatusReasonNotFound "'dns' not found").
Proof.
  refine (proj1 (proj2 (proj2 (selector_delete_error_is_returned_bare
                   (accepting (λ o _, o)) DeploymentText controller1 cluster1 data1
                   [] [] (constant (deployment "dns" "b"))
                   (outdated {["dns" := deployment "dns" "a"]})
                   (outdated {["dns" := deployment "dns" "a"]})
                   (deployment "dns" "b") (deployment "dns" "a") (deployment "dns" "b")
                   _ _ _ _ _ _ _)) _ _)).
  - reflexivity.
  - reflexivity.
  - reflexivity.
  - reflexivity.
  - reflexivity.
  - decide_by_computation.
  - decide_by_computation.
  - reflexivity.
  - reflexivity.
Defined.

(** A ConfigMap that carries the right checksum and an annotation added
    by hand: the loop leaves it alone. *)
Lemma checksum_annotation_alone_decides_the_update_witness :
  annotated (configMap "dns" {["Corefile" := "."]})
  ≠ stampConfigMap (configMap "dns" {["Corefile" := "."]})
  ∧ ensureConfigMapsBody (accepting (λ o _, o)) cluster1 data1
      (constant (configMap "dns" {["Corefile" := "."]}))
      (synced {["dns" := annotated (configMap "dns" {["Corefile" := "."]})]})
    = Continue (synced {["dns" := annotated (configMap "dns" {["Corefile" := "."]})]}).
Proof.
  split; [decide_by_computation|].
  refine (proj1 (proj1 checksum_annotation_alone_decides_the_update
                   (accepting (λ o _, o)) cluster1 data1
                   (constant (configMap "dns" {["Corefile" := "."]}))
                   (synced {["dns" := annotated (configMap "dns" {["Corefile" := "."]})]})
                   (configMap "dns" {["Corefile" := "."]})
                   (annotated (configMap "dns" {["Corefile" := "."]}))
                   (configMap "dns" {["Corefile" := "."]}) _ _ _) _).
  - reflexivity.
  - reflexivity.
  - reflexivity.
  - vm_compute. reflexivity.
Defined.

(** A creator registered under the key [etcd-tls] that names its secret
    [etcd-tls-certificate]: the secret exists, the lister shows it, and
    the pass tries to create it again. *)
Lemma secret_is_looked_up_by_key_and_created_by_name_witness :
  (ensureSecretsV2 (accepting (λ o _, o))
     [("etcd-tls", constant (secret "etcd-tls-certificate" {["tls.crt" := "PEM"]}))]
     controller1 cluster1
     (synced {["etcd-tls-certificate"
               := stampSecret (secret "etcd-tls-certificate" {["tls.crt" := "PEM"]})]})).1
  = Some (ErrorString ("failed to create Secret etcd-tls-certificate: "
                       +:+ "'etcd-tls-certificate' already exists")).
Proof.
  refine (proj1 (secret_is_looked_up_by_key_and_created_by_name
                   (accepting (λ o _, o)) controller1 cluster1 data1 [] []
                   "etcd-tls" (constant (secret "etcd-tls-certificate" {["tls.crt" := "PEM"]}))
                   _ _ (secret "etcd-tls-certificate" {["tls.crt" := "PEM"]})
                   _ _ _ _ _ _)).
  - reflexivity.
  - reflexivity.
  - reflexivity.
  - reflexivity.
  - reflexivity.
  - decide_by_computation.
Defined.

End LoopEdgeExamples.

(* ===================================================================== *)
(** * The cluster namespace *)
(* ===================================================================== *)

Section NamespaceProperties.
Import Cluster.
Variable env : Env NamespaceT.
Variable updateCluster : string → (ClusterT → ClusterT) → result ClusterT.
Variable getOwnerRefForCluster : ClusterT → string.

(** X18.  When the cluster has a namespace name and the namespace lister
    holds a namespace of that name, [ensureNamespaceExists] returns the
    cluster it was given and nil: the cluster is not updated, no call is
    issued and nothing is counted.  This is the state a successful call
    leaves behind: after a call that returned a cluster with a namespace
    name, from a lister in sync with the server, and once the informer
    has caught up, a second call for the returned cluster changes
    nothing. *)
Theorem namespace_in_the_lister_leaves_nothing_to_do :
  (∀ c (w : World NamespaceT),
     Status_NamespaceName c ≠ "" →
     is_Some (lister w !! Status_NamespaceName c) →
     ensureNamespaceExists env updateCluster getOwnerRefForCluster c w
     = ((Some c, None), w))
  ∧
  (∀ c c' (w w' : World NamespaceT),
     lister w = apiserver w →
     ensureNamespaceExists env updateCluster getOwnerRefForCluster c w
     = ((Some c', None), w') →
     Status_NamespaceName c' ≠ "" →
     ensureNamespaceExists env updateCluster getOwnerRefForCluster c' (resync w')
     = ((Some c', None), resync w')).
Proof.
  assert (Hnoop : ∀ c (w : World NamespaceT),
            Status_NamespaceName c ≠ "" →
            is_Some (lister w !! Status_NamespaceName c) →
            ensureNamespaceExists env updateCluster getOwnerRefForCluster c w
            = ((Some c, None), w)).
  { intros c w Hnamed [ns Hns]. unfold ensureNamespaceExists.
    rewrite decide_False by done. cbv beta iota. unfold lister_Get. by rewrite Hns. }
  split; [exact Hnoop|].
  intros c c' w w' Hsync Hfirst Hnamed. apply Hnoop; [done|].
  unfold ensureNamespaceExists in Hfirst.
  destruct (if decide (Status_NamespaceName c = "") then _ else _) as [c1|err]; [|done].
  unfold lister_Get in Hfirst.
  destruct (lister w !! Status_NamespaceName c1) as [ns|] eqn:Hget.
  - injection Hfirst as <- <-. cbn. rewrite <- Hsync. by exists ns.
  - cbn [notFound IsNotFound negb] in Hfirst. unfold kubeClient_Create in Hfirst.
    cbn [issue apiserver] in Hfirst.
    destruct (rejects env _); [done|].
    destruct (apiserver w !! _); [done|].
    injection Hfirst as <- <-. cbn. rewrite lookup_insert_eq. by eexists.
Qed.

(** X19.  A cluster without a namespace name gets the name
    [cluster-<name>], computed from the name of the cluster that
    [updateCluster] hands to the modification.  When neither the lister
    nor the server holds that namespace and the server accepts the
    Create, [ensureNamespaceExists] creates it, owned by the updated
    cluster, returns the updated cluster, and counts the creation as a
    seed resource update of kind [namespace]. *)
Theorem new_cluster_gets_its_namespace_created (c c0 : ClusterT) (w : World NamespaceT) :
  Status_NamespaceName c = "" →
  (∀ modify, updateCluster (Cluster_Name c) modify = Ok (modify c0)) →
  let n := "cluster-" +:+ Cluster_Name c0 in
  let c' := setNamespaceName n c0 in
  let ns := mkNamespace (mkObjectMeta n "" ∅) [getOwnerRefForCluster c'] in
  lister w !! n = None →
  apiserver w !! n = None →
  rejects env (Create ns) = None →
  let out := ensureNamespaceExists env updateCluster getOwnerRefForCluster c w in
  out.1 = (Some c', None)
  ∧ calls out.2 = calls w ++ [Create ns]
  ∧ apiserver out.2 = <[n := ns]> (apiserver w)
  ∧ counters out.2 = counters w ++ [("namespace", n)].
Proof.
  intros Hnew Hupd n c' ns Hl Ha Hrej out. subst out.
  unfold ensureNamespaceExists. rewrite decide_True by done. rewrite Hupd.
  cbv beta iota. fold n. fold c'. change (Status_NamespaceName c') with n.
  unfold lister_Get. rewrite Hl. cbn [notFound IsNotFound negb].
  fold ns. unfold kubeClient_Create. rewrite Hrej. cbn [issue apiserver].
  change (GetName ns) with n. by rewrite Ha.
Qed.


End NamespaceProperties.

Section NamespaceExamples.
Import Cluster Fixtures NamespaceFixtures.

Lemma namespace_in_the_lister_leaves_nothing_to_do_witness :
  ensureNamespaceExists (accepting (λ o _, o)) failingUpdate ownerRef cluster1
    (synced {["cluster-c1" := namespace "cluster-c1" "Cluster/c1"]})
  = ((Some cluster1, None), synced {["cluster-c1" := namespace "cluster-c1" "Cluster/c1"]}).
Proof.
  refine (proj1 (namespace_in_the_lister_leaves_nothing_to_do
                   (accepting (λ o _, o)) failingUpdate ownerRef) cluster1
                (synced {["cluster-c1" := namespace "cluster-c1" "Cluster/c1"]}) _ _).
  - discriminate.
  - decide_by_computation.
Defined.

Lemma new_cluster_gets_its_namespace_created_witness :
  (ensureNamespaceExists (accepting (λ o _, o)) updating ownerRef newCluster (synced ∅)).1
  = (Some cluster1, None)
  ∧ calls (ensureNamespaceExists (accepting (λ o _, o)) updating ownerRef newCluster
             (synced ∅)).2
    = [Create (namespace "cluster-c1" "Cluster/c1")]
  ∧ apiserver (ensureNamespaceExists (accepting (λ o _, o)) updating ownerRef newCluster
                 (synced ∅)).2
    = <["cluster-c1" := namespace "cluster-c1" "Cluster/c1"]> ∅
  ∧ counters (ensureNamespaceExists (accepting (λ o _, o)) updating ownerRef newCluster
                (synced ∅)).2
    = [("namespace", "cluster-c1")].
Proof.
  refine (new_cluster_gets_its_namespace_created
            (accepting (λ o _, o)) updating ownerRef newCluster newCluster (synced ∅)
            _ _ _ _ _).
  - reflexivity.
  - reflexivity.
  - reflexivity.
  - reflexivity.
  - reflexivity.
Defined.


End NamespaceExamples.

(* ===================================================================== *)
(** * Further properties of the Project synchronizer *)
(* ===================================================================== *)

Section ReconcilePaths.
Import ProjectSync.
Implicit Types (r : reconciler) (project : Project) (visit : list string) (cl : Client).
Variable finalizer : string.

(** X21.  [Reconcile] starts with a Get of the Project on the control
    plane and stops there when the Get fails: for a Project that does not
    exist, and for any other NotFound answer, it returns nil; any other
    error of the Get is returned as it is, without a message in front.
    In both cases the control plane has received nothing but the Get, no
    seed has been contacted and no event has been recorded. *)
Theorem reconcile_stops_at_a_failed_get visit (request : ReconcileRequest) r :
  let n := NamespacedName request in
  let out := Reconcile finalizer visit request r in
  let untouched :=
    masterClient out.2 = received (ReqGet n) (masterClient r)
    ∧ seedClients out.2 = seedClients r
    ∧ recorder out.2 = recorder r in
  (fails (masterClient r) (ReqGet n) = None → objects (masterClient r) !! n = None →
   out.1 = None ∧ untouched)
  ∧ (∀ err, fails (masterClient r) (ReqGet n) = Some err →
       out.1 = (if IsNotFound err then None else Some err) ∧ untouched).
Proof.
  intros n out untouched. subst out untouched. unfold Reconcile, Get.
  cbn [fails received objects]. fold n. split.
  - intros Hok Hmiss. rewrite Hok, Hmiss. done.
  - intros err Hfail. rewrite Hfail. done.
Qed.

(** X22.  For an active Project that lacks the cleanup finalizer,
    [Reconcile] first writes the Project with the finalizer added to the
    control plane.  When that Update fails, the reconcile returns [failed
    to add project finalizer ...] wrapping the error, and no seed has
    been contacted; when it is accepted, the control-plane copy carries
    the finalizer from then on, whatever happens on the seeds, and the
    control plane receives nothing but the Get and that Update. *)
Theorem finalizer_is_written_before_the_seeds_are_synced
    visit (request : ReconcileRequest) r project :
  fails (masterClient r) (ReqGet (NamespacedName request)) = None →
  objects (masterClient r) !! NamespacedName request = Some project →
  Name project = NamespacedName request →
  DeletionTimestamp project = None →
  finalizer ∉ Finalizers project →
  let marked := AddFinalizer project finalizer in
  let out := Reconcile finalizer visit request r in
  (∀ err, fails (masterClient r) (ReqUpdate marked) = Some err →
     out.1 = Some (Errorf_w ("failed to add project finalizer " +:+ Name project +:+ ": ") err)
     ∧ seedClients out.2 = seedClients r
     ∧ recorder out.2 = recorder r
     ∧ objects (masterClient out.2) = objects (masterClient r))
  ∧ (fails (masterClient r) (ReqUpdate marked) = None →
     newRequests (masterClient r) (masterClient out.2)
     = [ReqGet (NamespacedName request); ReqUpdate marked]
     ∧ finalizerInPlace (Name project) finalizer out.2).
Proof.
  intros Hget Hobj Hname Hact Hlacks marked out. subst out.
  unfold Reconcile. rewrite (Get_found _ _ _ Hget Hobj).
  rewrite Hact. rewrite bool_decide_eq_false_2 by (by intros [? ?]).
  unfold HasFinalizer. rewrite bool_decide_eq_false_2 by done. cbn [negb].
  fold marked. unfold Update. cbn [fails received objects masterClient withMaster].
  split.
  - intros err Hfail. rewrite Hfail. done.
  - intros Hok. rewrite Hok.
    change (Name marked) with (Name project). rewrite Hname, Hobj.
    set (r1 := withMaster (store _ _) _).
    pose proof (syncAllSeeds_master visit marked (syncOnSeed request marked) r1)
      as [Hmaster _].
    assert (Hfinal : ∀ r2 : reconciler,
              masterClient r2 = masterClient r1 →
              newRequests (masterClient r) (masterClient r2)
              = [ReqGet (NamespacedName request); ReqUpdate marked]
              ∧ finalizerInPlace (NamespacedName request) finalizer r2).
    { intros r2 Hr2. unfold finalizerInPlace. rewrite Hr2. subst r1.
      cbn [masterClient withMaster]. split.
      - unfold newRequests, store. cbn. by rewrite <- app_assoc, drop_app_length.
      - unfold store. cbn. rewrite Hact.
        rewrite decide_False by (by intros [[? ?] _]).
        eexists. rewrite lookup_insert_eq. split; [done|]. cbn.
        apply elem_of_union. left. by apply elem_of_singleton. }
    destruct (syncAllSeeds visit marked (syncOnSeed request marked) r1) as [[err|] r2];
      cbn [snd] in Hmaster; by apply Hfinal.
Qed.

(** The recorder over a whole reconcile. *)
Lemma Reconcile_recorder visit (request : ReconcileRequest) r :
  let out := Reconcile finalizer visit request r in
  recorder out.2 = recorder r
  ∨ ∃ project err,
      DeletionTimestamp project = None
      ∧ out.1 = Some (Errorf_w ("reconciled project: " +:+ Name project +:+ ": ") err)
      ∧ recorder out.2
        = recorder r ++ [mkEvent (Name project) "Warning" "ReconcilingError" (Error err)].
Proof.
  intros out. subst out. unfold Reconcile.
  destruct (Get (NamespacedName request) (masterClient r)) as [[project|err] cl];
    [|by left].
  case_bool_decide as Hdel.
  - left. unfold handleDeletion.
    pose proof (syncAllSeeds_master visit project deleteOnSeed (withMaster cl r))
      as [_ Hrec].
    destruct (syncAllSeeds visit project deleteOnSeed (withMaster cl r)) as [[err|] r2];
      cbn [snd] in Hrec; [done|].
    destruct (HasFinalizer project finalizer); [|done].
    destruct (Patch _ _ _) as [[err|] cl2]; cbn [IgnoreNotFound]; [|done].
    by destruct (IsNotFound err).
  - assert (Hact : DeletionTimestamp project = None).
    { destruct (DeletionTimestamp project); [|done]. exfalso. apply Hdel. by eexists. }
    assert (Hsync : ∀ p r1, recorder r1 = recorder r → Name p = Name project →
              DeletionTimestamp p = None →
              let out := match syncAllSeeds visit p (syncOnSeed request p) r1 with
                         | (Some err, r2) =>
                             (Some (Errorf_w ("reconciled project: " +:+ Name p +:+ ": ") err),
                              Eventf (Name p) EventTypeWarning "ReconcilingError" (Error err) r2)
                         | (None, r2) => (None, r2)
                         end in
              recorder out.2 = recorder r
              ∨ ∃ project err,
                  DeletionTimestamp project = None
                  ∧ out.1 = Some (Errorf_w ("reconciled project: " +:+ Name project +:+ ": ") err)
                  ∧ recorder out.2
                    = recorder r ++ [mkEvent (Name project) "Warning" "ReconcilingError"
                                             (Error err)]).
    { intros p r1 Hr1 Hp Hpa.
      pose proof (syncAllSeeds_master visit p (syncOnSeed request p) r1) as [_ Hrec].
      destruct (syncAllSeeds visit p (syncOnSeed request p) r1) as [[err|] r2];
        cbn [snd] in Hrec; cbn zeta.
      - right. exists p, err. split; [done|]. split; [done|]. cbn. by rewrite Hrec, Hr1.
      - left. cbn. by rewrite Hrec. }
    destruct (HasFinalizer project finalizer); cbn [negb].
    + by apply Hsync.
    + destruct (Update _ _) as [[err|] cl2]; [by left|]. by apply Hsync.
Qed.


(** X24.  A Project under deletion that does not carry the cleanup
    finalizer is still deleted on the seeds, but nothing is written to
    the control plane: when every seed's Delete returns success or
    NotFound, the reconcile returns nil and the control plane has
    received nothing but the Get. *)
Theorem deletion_without_finalizer_sends_no_patch
    visit (request : ReconcileRequest) r project :
  range_order visit r →
  fails (masterClient r) (ReqGet (NamespacedName request)) = None →
  objects (masterClient r) !! NamespacedName request = Some project →
  is_Some (DeletionTimestamp project) →
  finalizer ∉ Finalizers project →
  allSeedsDeleted project r →
  let out := Reconcile finalizer visit request r in
  out.1 = None
  ∧ newRequests (masterClient r) (masterClient out.2) = [ReqGet (NamespacedName request)]
  ∧ objects (masterClient out.2) = objects (masterClient r).
Proof.
  intros Hvisit Hget Hobj Hdel Hlacks Hall out. subst out.
  unfold Reconcile. rewrite (Get_found _ _ _ Hget Hobj).
  rewrite bool_decide_eq_true_2 by done. unfold handleDeletion.
  set (r1 := withMaster (received (ReqGet (NamespacedName request)) (masterClient r)) r).
  pose proof (syncAllSeeds_master visit project deleteOnSeed r1) as [Hmaster _].
  pose proof (syncAllSeeds_nil_iff visit project deleteOnSeed r1
                (range_order_NoDup _ _ Hvisit)) as Hnil.
  rewrite <- (allSeedsDeleted_visit visit r r1 project Hvisit eq_refl) in Hnil.
  apply Hnil in Hall.
  destruct (syncAllSeeds visit project deleteOnSeed r1) as [[err|] r2];
    cbn [fst snd] in *; [done|].
  unfold HasFinalizer. rewrite bool_decide_eq_false_2 by done. cbn [fst snd].
  rewrite Hmaster. split; [done|]. split; [|done].
  unfold newRequests. cbn. by rewrite drop_app_length.
Qed.

(** X25.  When the control plane answers the Patch that removes the
    finalizer with NotFound (on a shared master/seed system the Delete on
    the seed has removed the Project already), [handleDeletion] ignores
    the error: the reconcile returns nil. *)
Theorem not_found_on_finalizer_removal_is_ignored
    visit (request : ReconcileRequest) r project (err : error) :
  range_order visit r →
  fails (masterClient r) (ReqGet (NamespacedName request)) = None →
  objects (masterClient r) !! NamespacedName request = Some project →
  Name project = NamespacedName request →
  is_Some (DeletionTimestamp project) →
  finalizer ∈ Finalizers project →
  allSeedsDeleted project r →
  fails (masterClient r)
        (ReqPatch (Name project) (Some (Finalizers project ∖ {[finalizer]})) None)
  = Some err →
  IsNotFound err = true →
  (Reconcile finalizer visit request r).1 = None.
Proof.
  intros Hvisit Hget Hobj Hname Hdel Hfin Hall Hfail Hnf.
  destruct (Reconcile_deleting finalizer visit request r project
              Hvisit Hget Hobj Hname Hdel Hfin)
    as [(Hnot & _)|[(_ & (err' & Hfail' & Hout) & _)|(_ & Hok & _)]].
  - done.
  - rewrite Hfail in Hfail'. injection Hfail' as <-. by rewrite Hnf in Hout.
  - by rewrite Hfail in Hok.
Qed.

End ReconcilePaths.

Section SeedRequests.
Import ProjectSync.
Implicit Types (r : reconciler) (project : Project) (visit : list string) (cl : Client).
Implicit Types (action : Client → Project → option error * Client).

(** A fan-out on whose seeds the action succeeds leaves on every visited
    seed what one run of the action leaves. *)
Lemma syncAllSeeds_runs_through visit project action r :
  NoDup visit →
  (∀ n cl, n ∈ visit → seedClients r !! n = Some cl → (action cl project).1 = None) →
  ∀ n, seedClients (syncAllSeeds visit project action r).2 !! n
       = if decide (n ∈ visit)
         then (λ cl, (action cl project).2) <$> seedClients r !! n
         else seedClients r !! n.
Proof.
  revert r. induction visit as [|n0 rest IH]; intros r Hnodup Hok n; cbn [syncAllSeeds].
  - rewrite decide_False; [done|]. apply not_elem_of_nil.
  - apply NoDup_cons in Hnodup as [Hfresh Hnodup].
    destruct (seedClients r !! n0) as [cl0|] eqn:Hn0.
    + pose proof (Hok n0 cl0 (list_elem_of_here _ _) Hn0) as Hact.
      destruct (action cl0 project) as [[err|] cl0'] eqn:Hrun; [done|].
      rewrite IH; [|done|].
      2:{ intros m cl Hm Hlook. cbn in Hlook.
          assert (n0 ≠ m) by (by intros ->).
          rewrite lookup_insert_ne in Hlook by done.
          apply (Hok m cl); [by right|done]. }
      cbn [seedClients Debugw withSeed].
      destruct (decide (n = n0)) as [->|Hne].
      * rewrite decide_False by done. rewrite decide_True by left.
        rewrite lookup_insert_eq, Hn0. cbn. by rewrite Hrun.
      * rewrite lookup_insert_ne by done.
        destruct (decide (n ∈ rest)) as [Hin|Hnin].
        -- rewrite decide_True by (by right). done.
        -- rewrite decide_False; [done|]. by apply not_elem_of_cons.
    + rewrite IH; [|done|].
      2:{ intros m cl Hm Hlook. apply (Hok m cl); [by right|done]. }
      destruct (decide (n = n0)) as [->|Hne].
      * rewrite decide_False by done. rewrite decide_True by left. by rewrite Hn0.
      * destruct (decide (n ∈ rest)) as [Hin|Hnin].
        -- rewrite decide_True by (by right). done.
        -- rewrite decide_False; [done|]. by apply not_elem_of_cons.
Qed.

Lemma Delete_requests project cl :
  requests (Delete project cl).2 = requests cl ++ [ReqDelete (Name project)].
Proof. unfold Delete, store. by repeat case_match; simplify_eq/=. Qed.

Lemma Delete_absent project cl :
  objects cl !! Name project = None → objects (Delete project cl).2 = objects cl.
Proof. intros Habs. unfold Delete. cbn. rewrite Habs. by case_match. Qed.

Variable finalizer : string.

(** X26.  When every seed's Delete returns success or NotFound, the
    reconcile of a Project under deletion has sent exactly one request to
    every registered seed, the Delete of the Project; a seed that did not
    hold the Project is left as it was, and no seed is added or dropped. *)
Theorem deletion_pass_sends_one_delete_to_every_seed
    visit (request : ReconcileRequest) r project :
  range_order visit r →
  fails (masterClient r) (ReqGet (NamespacedName request)) = None →
  objects (masterClient r) !! NamespacedName request = Some project →
  is_Some (DeletionTimestamp project) →
  allSeedsDeleted project r →
  let out := Reconcile finalizer visit request r in
  (∀ seedName, seedClients r !! seedName = None → seedClients out.2 !! seedName = None)
  ∧ ∀ seedName seedClient,
      seedClients r !! seedName = Some seedClient →
      ∃ seedClient',
        seedClients out.2 !! seedName = Some seedClient'
        ∧ newRequests seedClient seedClient' = [ReqDelete (Name project)]
        ∧ (objects seedClient !! Name project = None →
           objects seedClient' = objects seedClient).
Proof.
  intros Hvisit Hget Hobj Hdel Hall out.
  assert (Hseeds : ∀ n, seedClients out.2 !! n
                        = (λ cl, (Delete project cl).2) <$> seedClients r !! n).
  { intros n. subst out. unfold Reconcile. rewrite (Get_found _ _ _ Hget Hobj).
    rewrite bool_decide_eq_true_2 by done. unfold handleDeletion.
    set (r1 := withMaster (received (ReqGet (NamespacedName request)) (masterClient r)) r).
    assert (Hok : ∀ m cl, m ∈ visit → seedClients r1 !! m = Some cl →
                          (deleteOnSeed cl project).1 = None).
    { by apply (allSeedsDeleted_visit visit r r1 project Hvisit eq_refl). }
    pose proof (syncAllSeeds_runs_through visit project deleteOnSeed r1
                  (range_order_NoDup _ _ Hvisit) Hok n) as Hrun.
    pose proof (proj2 (syncAllSeeds_nil_iff visit project deleteOnSeed r1
                         (range_order_NoDup _ _ Hvisit)) Hok) as Hnil.
    assert (Hthere : seedClients (syncAllSeeds visit project deleteOnSeed r1).2 !! n
                     = (λ cl, (Delete project cl).2) <$> seedClients r !! n).
    { rewrite Hrun. change (seedClients r1) with (seedClients r).
      destruct (decide (n ∈ visit)) as [Hin|Hnin].
      - destruct (seedClients r !! n) as [cl|]; [|done]. cbn. unfold deleteOnSeed.
        by destruct (Delete project cl).
      - destruct (seedClients r !! n) as [cl|] eqn:Hn; [|done]. exfalso. apply Hnin.
        apply (range_order_registered visit r); [done|]. by exists cl. }
    destruct (syncAllSeeds visit project deleteOnSeed r1) as [[err|] r2];
      cbn [fst snd] in *; [done|].
    destruct (HasFinalizer project finalizer); [|done].
    destruct (Patch _ _ _) as [[err|] cl2]; cbn [IgnoreNotFound]; [|done].
    by destruct (IsNotFound err). }
  split.
  - intros seedName Hnone. by rewrite Hseeds, Hnone.
  - intros seedName seedClient Hsome. exists (Delete project seedClient).2.
    rewrite Hseeds, Hsome. split; [done|]. split.
    + unfold newRequests. by rewrite Delete_requests, drop_app_length.
    + apply Delete_absent.
Qed.

(** X27.  When the listing succeeds, the map function of the seed watch
    returns exactly one request per Project the control plane holds,
    named after the Project; it only reads: the control plane receives
    the List and nothing else, and nothing is logged. *)
Theorem seed_watch_enqueues_one_request_per_project (a : string) r :
  fails (masterClient r) ReqList = None →
  (∀ k o, objects (masterClient r) !! k = Some o → Name o = k) →
  let out := enqueueAllProjects a r in
  (∀ n, mkRequest n ∈ out.1 ↔ is_Some (objects (masterClient r) !! n))
  ∧ NoDup out.1
  ∧ length out.1 = size (objects (masterClient r))
  ∧ newRequests (masterClient r) (masterClient out.2) = [ReqList]
  ∧ objects (masterClient out.2) = objects (masterClient r)
  ∧ seedClients out.2 = seedClients r
  ∧ log out.2 = log r.
Proof.
  intros Hok Hkeys out.
  assert (Hreqs : out.1 = mkRequest <$> (map_to_list (objects (masterClient r))).*1).
  { subst out. rewrite (seed_watch_enqueues_every_project a r Hok).
    rewrite <- list_fmap_compose. apply list_fmap_ext. intros i [k o] Hin. cbn.
    apply list_elem_of_lookup_2, elem_of_map_to_list in Hin. f_equal. by apply Hkeys. }
  split; [|split; [|split]].
  - intros n. rewrite Hreqs. rewrite list_elem_of_fmap. split.
    + intros (k & Hk & Hin). injection Hk as ->.
      apply list_elem_of_fmap in Hin as ([k' o] & -> & Hin).
      apply elem_of_map_to_list in Hin. by exists o.
    + intros [o Ho]. exists n. split; [done|]. apply list_elem_of_fmap.
      exists (n, o). split; [done|]. by apply elem_of_map_to_list.
  - rewrite Hreqs. apply NoDup_fmap_2; [|apply NoDup_fst_map_to_list].
    by intros x y [= ->].
  - rewrite Hreqs. by rewrite !length_fmap, length_map_to_list.
  - subst out. unfold enqueueAllProjects, List. cbn [fails received]. rewrite Hok.
    cbn. unfold newRequests. cbn. by rewrite drop_app_length.
Qed.

End SeedRequests.

Section ReconcilePathExamples.
Import ProjectSync SyncFixtures PathFixtures.

(** A reconcile request for a Project that is gone. *)
Lemma reconcile_stops_at_a_failed_get_witness :
  (Reconcile cleanup ["seed-a"] request
     (fleet (reliable ∅) {["seed-a" := reliable {["p1" := seedCopy]}]})).1 = None
  ∧ seedClients (Reconcile cleanup ["seed-a"] request
                   (fleet (reliable ∅) {["seed-a" := reliable {["p1" := seedCopy]}]})).2
    = {["seed-a" := reliable {["p1" := seedCopy]}]}.
Proof.
  pose proof (proj1 (reconcile_stops_at_a_failed_get cleanup ["seed-a"] request
                       (fleet (reliable ∅) {["seed-a" := reliable {["p1" := seedCopy]}]})))
    as Hstop.
  cbv zeta in Hstop. destruct Hstop as (Hnil & _ & Hseeds & _).
  - reflexivity.
  - apply lookup_empty.
  - exact (conj Hnil Hseeds).
Defined.

(** An active Project without the finalizer, on a control plane that
    cannot be written. *)
Lemma finalizer_is_written_before_the_seeds_are_synced_witness :
  seedClients (Reconcile cleanup ["seed-a"] request
                 (fleet (refusingUpdates {["p1" := seedCopy]})
                        {["seed-a" := reliable ∅]})).2
  = {["seed-a" := reliable ∅]}.
Proof.
  refine (proj1 (proj2 (proj1 (finalizer_is_written_before_the_seeds_are_synced
                   cleanup ["seed-a"] request
                   (fleet (refusingUpdates {["p1" := seedCopy]})
                          {["seed-a" := reliable ∅]})
                   seedCopy _ _ _ _ _) (StatusError StatusReasonConflict "conflict") _))).
  - reflexivity.
  - reflexivity.
  - reflexivity.
  - reflexivity.
  - apply not_elem_of_empty.
  - reflexivity.
Defined.


(** The finalizer is gone already; the seed still holds a copy. *)
Lemma deletion_without_finalizer_sends_no_patch_witness :
  let r := fleet (reliable {["p1" := releasedProject]})
                 {["seed-a" := reliable {["p1" := seedCopy]}]} in
  let out := Reconcile cleanup ["seed-a"] request r in
  out.1 = None
  ∧ newRequests (masterClient r) (masterClient out.2) = [ReqGet "p1"]
  ∧ objects (masterClient out.2) = objects (masterClient r).
Proof.
  intros r out.
  refine (deletion_without_finalizer_sends_no_patch cleanup ["seed-a"] request r
            releasedProject _ _ _ _ _ _).
  - unfold range_order. decide_by_computation.
  - reflexivity.
  - reflexivity.
  - by eexists.
  - apply not_elem_of_empty.
  - intros seedName seedClient Hlook. cbn [seedClients fleet r] in Hlook.
    apply lookup_singleton_Some in Hlook as [<- <-]. vm_compute. reflexivity.
Defined.

(** The control plane has lost the Project by the time the finalizer is
    to be removed. *)
Lemma not_found_on_finalizer_removal_is_ignored_witness :
  (Reconcile cleanup ["seed-a"] request
     (fleet (losingPatches {["p1" := deletingProject]})
            {["seed-a" := reliable {["p1" := seedCopy]}]})).1 = None.
Proof.
  refine (not_found_on_finalizer_removal_is_ignored cleanup ["seed-a"] request
            (fleet (losingPatches {["p1" := deletingProject]})
                   {["seed-a" := reliable {["p1" := seedCopy]}]})
            deletingProject (notFound "p1") _ _ _ _ _ _ _ _ _).
  - unfold range_order. decide_by_computation.
  - reflexivity.
  - reflexivity.
  - reflexivity.
  - by eexists.
  - change (cleanup ∈ ({[cleanup]} : gset string)). by apply elem_of_singleton_2.
  - intros seedName seedClient Hlook. cbn [seedClients fleet] in Hlook.
    apply lookup_singleton_Some in Hlook as [<- <-]. vm_compute. reflexivity.
  - reflexivity.
  - reflexivity.
Defined.

(** One seed that holds a copy of the Project, one that never had it. *)
Lemma deletion_pass_sends_one_delete_to_every_seed_witness :
  let r := fleet (reliable {["p1" := deletingProject]})
                 {["seed-a" := reliable {["p1" := seedCopy]}; "seed-b" := reliable ∅]} in
  let out := Reconcile cleanup ["seed-a"; "seed-b"] request r in
  ∃ seedClient',
    seedClients out.2 !! "seed-b" = Some seedClient'
    ∧ newRequests (reliable ∅) seedClient' = [ReqDelete "p1"]
    ∧ (objects (reliable ∅) !! "p1" = None → objects seedClient' = objects (reliable ∅)).
Proof.
  intros r out.
  refine (proj2 (deletion_pass_sends_one_delete_to_every_seed cleanup
                   ["seed-a"; "seed-b"] request r deletingProject _ _ _ _ _)
                "seed-b" (reliable ∅) _).
  - unfold range_order. decide_by_computation.
  - reflexivity.
  - reflexivity.
  - by eexists.
  - intros seedName seedClient Hlook. cbn [seedClients fleet r] in Hlook.
    apply lookup_insert_Some in Hlook as [[<- <-]|[_ Hlook]]; [vm_compute; reflexivity|].
    apply lookup_singleton_Some in Hlook as [<- <-]. vm_compute. reflexivity.
  - reflexivity.
Defined.

(** A control plane that holds two Projects. *)
Lemma seed_watch_enqueues_one_request_per_project_witness :
  let r := fleet (reliable {["p1" := activeProject;
                             "p2" := mkProject "p2" None ∅ "spec" "Active"]}) ∅ in
  length (enqueueAllProjects "seed-a" r).1 = 2
  ∧ newRequests (masterClient r) (masterClient (enqueueAllProjects "seed-a" r).2)
    = [ReqList].
Proof.
  intros r.
  pose proof (seed_watch_enqueues_one_request_per_project "seed-a" r) as Hwatch.
  cbv zeta in Hwatch. destruct Hwatch as (_ & _ & Hlen & Hreqs & _).
  - reflexivity.
  - intros k o Hlook. cbn [masterClient fleet r objects reliable] in Hlook.
    apply lookup_insert_Some in Hlook as [[<- <-]|[_ Hlook]]; [reflexivity|].
    apply lookup_singleton_Some in Hlook as [<- <-]. reflexivity.
  - split; [|exact Hreqs]. rewrite Hlen. vm_compute. reflexivity.
Defined.

End ReconcilePathExamples.

(* ===================================================================== *)
(** * Properties of the Hetzner size endpoints *)
(* ===================================================================== *)

Section HetznerProperties.
Import Hetzner.
Variable ServerType_List : string → result (list ServerType).

(** No name matches both patterns. *)
Lemma dedicated_is_not_standard (s : string) :
  reDedicatedSize_MatchString s = true → reStandardSize_MatchString s = false.
Proof.
  unfold reDedicatedSize_MatchString, reStandardSize_MatchString.
  destruct s as [|a [|b s]]; cbn [String.prefix]; try done.
  - by destruct (ascii_dec "c" a).
  - destruct (ascii_dec "c" a); [|done]. destruct (ascii_dec "c" b) as [<-|]; [|done].
    by destruct (ascii_dec "x" "c").
Qed.

Lemma classify_all (acc : HetznerSizeList) (sizes : list ServerType) :
  foldl classify acc sizes
  = mkHetznerSizeList
      (Standard acc
       ++ (sizeOf <$> filter (λ size, reStandardSize_MatchString (Name size) = true) sizes))
      (Dedicated acc
       ++ (sizeOf <$> filter (λ size, reDedicatedSize_MatchString (Name size) = true) sizes)).
Proof.
  revert acc. induction sizes as [|size sizes IH]; intros acc; cbn [foldl].
  - cbn. rewrite !app_nil_r. by destruct acc.
  - rewrite IH. unfold classify. rewrite !filter_cons.
    destruct (reStandardSize_MatchString (Name size)) eqn:Hstd.
    + destruct (reDedicatedSize_MatchString (Name size)) eqn:Hded.
      { apply dedicated_is_not_standard in Hded. congruence. }
      rewrite decide_True by done. rewrite decide_False by done.
      cbn [Standard Dedicated]. rewrite fmap_cons, <- app_assoc. done.
    + rewrite decide_False by done.
      destruct (reDedicatedSize_MatchString (Name size)) eqn:Hded.
      * rewrite decide_True by done. cbn [Standard Dedicated].
        rewrite fmap_cons, <- app_assoc. done.
      * rewrite decide_False by done. done.
Qed.

(** X28.  [hetznerSize] sorts the server types the Hetzner API lists
    into two lists by the start of their names: the standard sizes are
    those whose name begins with [cx], the dedicated sizes those whose
    name begins with [ccx], each in the order of the listing and with its
    fields copied; every other server type is left out, and no size
    appears in both lists.  When the listing fails, both lists are empty
    and the error is [failed to list sizes: ...]. *)
Theorem hetzner_sizes_are_split_by_name_prefix (token : string) :
  let out := hetznerSize ServerType_List token in
  (∀ sizes, ServerType_List token = Ok sizes →
     out.2 = None
     ∧ Standard out.1
       = sizeOf <$> filter (λ size, String.prefix "cx" (Name size) = true) sizes
     ∧ Dedicated out.1
       = sizeOf <$> filter (λ size, String.prefix "ccx" (Name size) = true) sizes
     ∧ (∀ s, s ∈ Standard out.1 → s ∉ Dedicated out.1))
  ∧ (∀ err, ServerType_List token = Err err →
       out = (mkHetznerSizeList [] [], Some (ErrorString ("failed to list sizes: "
                                                          +:+ Error err)))).
Proof.
  intros out. subst out. unfold hetznerSize. split.
  - intros sizes ->. rewrite classify_all. cbn [fst snd Standard Dedicated app].
    split; [done|]. split; [done|]. split; [done|].
    intros s Hstd Hded.
    apply list_elem_of_fmap in Hstd as (size1 & -> & H1).
    apply list_elem_of_fmap in Hded as (size2 & Heq & H2).
    apply list_elem_of_filter in H1 as [H1 _]. apply list_elem_of_filter in H2 as [H2 _].
    assert (Hname : Name size1 = Name size2) by (by injection Heq).
    rewrite <- Hname in H2. apply dedicated_is_not_standard in H2.
    unfold reStandardSize_MatchString in *. congruence.
  - by intros err ->.
Qed.

(** X29.  [HetznerSizeEndpoint] queries Hetzner with the token of the
    first preset credential whose name is the one the request asks for.
    When the request names no credential, or names one that is not among
    the presets, the token of the request itself is used, and nothing
    tells the caller that the name was unknown. *)
Theorem hetzner_token_comes_from_the_first_matching_preset
    (credentials : list HetznerCredential) (req : HetznerSizesReq) :
  let out := HetznerSizeEndpoint ServerType_List credentials req in
  (Credential req = "" → out = hetznerSize ServerType_List (HetznerToken req))
  ∧ ((∀ credential, credential ∈ credentials →
        Credential_Name credential ≠ Credential req) →
     out = hetznerSize ServerType_List (HetznerToken req))
  ∧ (∀ pre credential post,
       Credential req ≠ "" →
       credentials = pre ++ credential :: post →
       (∀ earlier, earlier ∈ pre → Credential_Name earlier ≠ Credential req) →
       Credential_Name credential = Credential req →
       out = hetznerSize ServerType_List (Credential_Token credential)).
Proof.
  intros out. subst out. unfold HetznerSizeEndpoint.
  assert (Hmiss : ∀ l token,
            (∀ credential, credential ∈ l → Credential_Name credential ≠ Credential req) →
            tokenOf l (Credential req) token = token).
  { induction l as [|credential l IH]; intros token Hall; cbn [tokenOf]; [done|].
    rewrite decide_False by (apply Hall; left). apply IH.
    intros credential' Hin. apply Hall. by right. }
  split; [|split].
  - intros ->. cbn. done.
  - intros Hall. destruct (decide _); [|done]. by rewrite Hmiss.
  - intros pre credential post Hnamed -> Hpre Hname.
    rewrite decide_True.
    2:{ destruct (Credential req); [done|]. cbn. lia. }
    f_equal. induction pre as [|earlier pre IH]; cbn [app tokenOf].
    + by rewrite decide_True.
    + rewrite decide_False by (apply Hpre; left). apply IH.
      intros earlier' Hin. apply Hpre. by right.
Qed.

(** X30.  [HetznerSizeWithClusterCredentialsEndpoint] checks the user's
    access to the project, then to the cluster, then that the cluster has
    a Hetzner cloud spec, in that order, and only then queries Hetzner,
    with the token of the cluster.  Each failed check ends the request
    with its own error and no list; in those cases the Hetzner API plays
    no part in the answer. *)
Theorem hetzner_sizes_of_a_cluster_need_access_and_a_hetzner_spec
    (access : Access) (req : HetznerSizesNoCredentialsReq) :
  let out := HetznerSizeWithClusterCredentialsEndpoint ServerType_List access req in
  let refused (answer : option HetznerSizeList * option error) :=
    out = answer
    ∧ ∀ List', HetznerSizeWithClusterCredentialsEndpoint List' access req = answer in
  (∀ err, projectProvider_Get access (ProjectID req) = Some err →
     refused (None, Some (KubernetesErrorToHTTPError access err)))
  ∧ (projectProvider_Get access (ProjectID req) = None →
     (∀ err, clusterProvider_Get access (ClusterID req) = Err err →
        refused (None, Some (KubernetesErrorToHTTPError access err)))
     ∧ (clusterProvider_Get access (ClusterID req) = Ok None →
        refused (None, Some (NewNotFound access "cloud spec for " (ClusterID req))))
     ∧ (∀ hetznerToken, clusterProvider_Get access (ClusterID req) = Ok (Some hetznerToken) →
          out = (Some (hetznerSize ServerType_List hetznerToken).1,
                 (hetznerSize ServerType_List hetznerToken).2))).
Proof.
  intros out refused. subst out refused. unfold HetznerSizeWithClusterCredentialsEndpoint.
  split.
  - intros err ->. done.
  - intros ->. split; [|split].
    + intros err ->. done.
    + intros ->. done.
    + intros hetznerToken ->. by destruct (hetznerSize ServerType_List hetznerToken).
Qed.

End HetznerProperties.

Section HetznerExamples.
Import Hetzner HetznerFixtures.

Lemma hetzner_sizes_are_split_by_name_prefix_witness :
  hetznerSize hetznerAPI "good"
  = (mkHetznerSizeList [sizeOf (serverType 1 "cx11"); sizeOf (serverType 4 "cx21")]
                       [sizeOf (serverType 2 "ccx11")], None).
Proof.
  pose proof (proj1 (hetzner_sizes_are_split_by_name_prefix hetznerAPI "good")
                _ eq_refl) as (Herr & Hstd & Hded & _).
  destruct (hetznerSize hetznerAPI "good") as [[std ded] err].
  cbn [fst snd Standard Dedicated] in *. by rewrite Herr, Hstd, Hded.
Defined.

(** The request names [team-b], which two presets carry: the first one
    counts. *)
Lemma hetzner_token_comes_from_the_first_matching_preset_witness :
  HetznerSizeEndpoint hetznerAPI presets (mkHetznerSizesReq "bad" "team-b")
  = hetznerSize hetznerAPI "good"
  ∧ HetznerSizeEndpoint hetznerAPI presets (mkHetznerSizesReq "good" "team-c")
    = hetznerSize hetznerAPI "good".
Proof.
  split.
  - refine (proj2 (proj2 (hetzner_token_comes_from_the_first_matching_preset hetznerAPI
                            presets (mkHetznerSizesReq "bad" "team-b")))
                  [mkHetznerCredential "team-a" "bad"] (mkHetznerCredential "team-b" "good")
                  [mkHetznerCredential "team-b" "other"] _ _ _ _).
    + discriminate.
    + reflexivity.
    + intros earlier Hin. apply list_elem_of_singleton in Hin as ->. discriminate.
    + reflexivity.
  - refine (proj1 (proj2 (hetzner_token_comes_from_the_first_matching_preset hetznerAPI
                            presets (mkHetznerSizesReq "good" "team-c"))) _).
    intros credential Hin. unfold presets in Hin.
    repeat (apply elem_of_cons in Hin as [->|Hin]; [discriminate|]).
    by apply not_elem_of_nil in Hin.
Defined.

(** A cluster of another provider: the request ends with NotFound. *)
Lemma hetzner_sizes_of_a_cluster_need_access_and_a_hetzner_spec_witness :
  HetznerSizeWithClusterCredentialsEndpoint hetznerAPI granted
    (mkHetznerSizesNoCredentialsReq "project" "c9")
  = (None, Some (ErrorString "cloud spec for  c9 not found"))
  ∧ HetznerSizeWithClusterCredentialsEndpoint hetznerAPI denied
      (mkHetznerSizesNoCredentialsReq "project" "c1")
    = (None, Some (StatusError StatusReasonOther "forbidden")).
Proof.
  split.
  - exact (proj1 (proj1 (proj2 (proj2 (hetzner_sizes_of_a_cluster_need_access_and_a_hetzner_spec
                     hetznerAPI granted (mkHetznerSizesNoCredentialsReq "project" "c9"))
                     eq_refl)) eq_refl)).
  - exact (proj1 (proj1 (hetzner_sizes_of_a_cluster_need_access_and_a_hetzner_spec
                     hetznerAPI denied (mkHetznerSizesNoCredentialsReq "project" "c1"))
                   (StatusError StatusReasonOther "forbidden") eq_refl)).
Defined.

End HetznerExamples.

(* ===================================================================== *)
(** * Two consecutive passes over every kind *)
(* ===================================================================== *)

Section SecretsTwice.
Import Cluster.
Variables (env : Env Secret) (js : JSONLib Secret) (c : ClusterT) (data : TemplateData).
Hypothesis patch_records : patchRecordsLastApplied env js.

Lemma reaches_app {T A} (body : A → World T → Flow T) (l1 l2 : list A) (w w1 w2 : World T) :
  reaches body l1 w = Some w1 → reaches body l2 w1 = Some w2 →
  reaches body (l1 ++ l2) w = Some w2.
Proof.
  revert w. induction l1 as [|a l1 IH]; intros w; cbn [reaches app].
  - by intros [= ->].
  - destruct (body a w); [apply IH|done].
Qed.

Lemma reaches_ops (ops : list secretOp) (w : World Secret) :
  reaches (secretItemBody env js c data) (inl <$> ops) w
  = reaches (ensureSecretsBody env js c) ops w.
Proof.
  revert w. induction ops as [|op ops IH]; intros w; cbn [reaches fmap list_fmap]; [done|].
  cbn [secretItemBody]. by destruct (ensureSecretsBody env js c op w).
Qed.

Lemma reaches_entries (visit : list (string * Creator Secret)) (w : World Secret) :
  reaches (secretItemBody env js c data) (inr <$> visit) w
  = reaches (ensureSecretsV2Body env c data) visit w.
Proof.
  revert w. induction visit as [|e visit IH]; intros w; cbn [reaches fmap list_fmap]; [done|].
  cbn [secretItemBody]. by destruct (ensureSecretsV2Body env c data e w).
Qed.

(** The two loops over Secrets, run one after the other and twice. *)
Lemma secrets_second_pass (res : Resources) (cc : Controller)
    (visit1 visit2 : list (string * Creator Secret)) (w0 wA wB : World Secret) :
  getClusterTemplateData cc c = Ok data →
  lister w0 = apiserver w0 →
  visit1 ≡ₚ map_to_list (GetSecretCreators res) →
  visit2 ≡ₚ map_to_list (GetSecretCreators res) →
  (∀ key create, GetSecretCreators res !! key = Some create →
     namedCreator data create key
     ∧ reproducesPayload stampSecret Secret_Data data create) →
  NoDup (name <$> secretOpsFor res c) →
  (∀ op, op ∈ secretOpsFor res c → reproducesJSON c op) →
  (∀ op, op ∈ secretOpsFor res c → GetSecretCreators res !! name op = None) →
  ensureSecrets env js res c w0 = (None, wA) →
  ensureSecretsV2 env visit1 cc c wA = (None, wB) →
  ensureSecrets env js res c (resync wB) = (None, resync wB)
  ∧ ensureSecretsV2 env visit2 cc c (resync wB) = (None, resync wB).
Proof.
  intros Hdata Hsync Hv1 Hv2 Hentries Hnodup Hops Hapart HpassA HpassB.
  unfold ensureSecrets, ensureSecretsV2 in *. rewrite Hdata in *.
  set (items := (inl <$> secretOpsFor res c) ++ (inr <$> visit1) : list secretItem).
  assert (Hbehaves : ∀ visit entry, visit ≡ₚ map_to_list (GetSecretCreators res) →
                     entry ∈ visit → secretBehaves data entry).
  { intros visit [key create] Hv Hin. rewrite Hv in Hin.
    apply elem_of_map_to_list in Hin. by apply Hentries. }
  assert (HreachA : reaches (ensureSecretsBody env js c) (secretOpsFor res c) w0 = Some wA).
  { apply rangeLoop_nil_reaches; [|done]. intros a w w'.
    apply ensureSecretsBody_never_returns_nil. }
  assert (HreachB : reaches (ensureSecretsV2Body env c data) visit1 wA = Some wB).
  { apply rangeLoop_nil_reaches; [|done]. intros a w w'.
    apply ensureSecretsV2Body_never_returns_nil. }
  assert (Hreach : reaches (secretItemBody env js c data) items w0 = Some wB).
  { apply (reaches_app _ _ _ w0 wA wB); [by rewrite reaches_ops|by rewrite reaches_entries]. }
  destruct (reaches_settles (secretItemBody env js c data) secretItemKey
              (secretItemBehaves c data) (secretItemSettled c data)) with
    (items := items) (w := w0) (w' := wB) as [_ Hall].
  - intros [op|entry] w w1 Hgood Hbody Hin; cbn in *.
    + by apply (ensureSecretsBody_settles env js c patch_records).
    + by apply (ensureSecretsV2Body_settles c data env).
  - subst items. rewrite fmap_app, <- !list_fmap_compose. apply NoDup_app.
    split; [done|]. split.
    + intros k Hk1 Hk2. apply list_elem_of_fmap in Hk1 as (op & -> & Hop).
      apply list_elem_of_fmap in Hk2 as ([key create] & Hkey & Hin). cbn in Hkey.
      rewrite Hv1 in Hin. apply elem_of_map_to_list in Hin.
      rewrite <- Hkey, (Hapart op Hop) in Hin. done.
    + change (secretItemKey ∘ inr) with (fst : string * Creator Secret → string).
      rewrite Hv1. apply NoDup_fst_map_to_list.
  - intros item Hin. subst items. apply elem_of_app in Hin as [Hin|Hin].
    + apply list_elem_of_fmap in Hin as (op & -> & Hop).
      split; [by apply Hops|]. unfold inSync. by rewrite Hsync.
    + apply list_elem_of_fmap in Hin as (entry & -> & Hentry).
      split; [by apply (Hbehaves visit1)|]. unfold inSync. by rewrite Hsync.
  - done.
  - split.
    + apply (settled_pass_is_noop (ensureSecretsBody env js c) name (reproducesJSON c)
               (secretApplied c) (λ a w x _, ensureSecretsBody_noop env js c a w x)).
      intros op Hop. split; [by apply Hops|].
      apply (Hall (inl op)). subst items. apply elem_of_app. left.
      apply list_elem_of_fmap. by exists op.
    + apply (settled_pass_is_noop (ensureSecretsV2Body env c data) fst (secretBehaves data)
               (secretUpToDate data) (λ a w x _, ensureSecretsV2Body_noop c data env a w x)).
      intros entry Hentry. split; [by apply (Hbehaves visit2)|].
      apply (Hall (inr entry)). subst items. apply elem_of_app. right.
      apply list_elem_of_fmap. exists entry. split; [done|]. by rewrite Hv1, <- Hv2.
Qed.

End SecretsTwice.

Section WholePassTwice.
Import Cluster.

Lemma issuedSince_same {T} (w : World T) : issuedSince w w = [].
Proof. unfold issuedSince. apply drop_all. Qed.

(** The next check of a pass that has returned nil has returned nil. *)
Ltac next_check E w :=
  match goal with
  | Hpass : orReturn _ _ _ = _ |- _ =>
      unfold orReturn at 1 in Hpass; unfold on at 1 in Hpass;
      cbn [ServiceAccounts Roles RoleBindings ClusterRoleBindings Services Secrets
           ConfigMaps Deployments StatefulSets PodDisruptionBudgets
           withServiceAccounts withRoles withRoleBindings withClusterRoleBindings
           withServices withSecrets withConfigMaps withDeployments withStatefulSets
           withPodDisruptionBudgets] in Hpass;
      match type of Hpass with
      | context [let '(_, _) := (let '(_, _) := ?run in _) in _] =>
          destruct run as [[?|] w] eqn:E; cbv beta iota in Hpass; [discriminate Hpass|]
      end
  end.

(** The next check of the second pass is a check that changes nothing. *)
Ltac quiet_check H :=
  unfold orReturn at 1; unfold on at 1;
  cbn [ServiceAccounts Roles RoleBindings ClusterRoleBindings Services Secrets
       ConfigMaps Deployments StatefulSets PodDisruptionBudgets resyncSeed
       withServiceAccounts withRoles withRoleBindings withClusterRoleBindings
       withServices withSecrets withConfigMaps withDeployments withStatefulSets
       withPodDisruptionBudgets];
  rewrite H.


End WholePassTwice.

Section WholePassTwiceExample.
Import Cluster Fixtures PassFixtures TwiceFixtures.

Lemma constant_reproducing {T} `{Object T} (data : TemplateData) (x : T) :
  reproducing data [constant x].
Proof.
  split; [apply NoDup_singleton|]. intros create Hin.
  apply list_elem_of_singleton in Hin as ->. split.
  - by intros existing obj [= <-].
  - by intros existing obj [= <-].
Qed.

Lemma smallCluster_reproduces : buildersReproduce data1 smallCluster cluster1.
Proof.
  unfold buildersReproduce. split_and!.
  - exact (constant_reproducing data1 (mkServiceAccount (meta "prometheus") "")).
  - apply constant_reproducing.
  - apply constant_reproducing.
  - apply constant_reproducing.
  - split; [apply NoDup_nil_2|]. by intros create Hin%not_elem_of_nil.
  - split; [apply NoDup_nil_2|]. by intros create Hin%not_elem_of_nil.
  - split; [apply NoDup_nil_2|]. by intros create Hin%not_elem_of_nil.
  - split; [apply NoDup_nil_2|]. by intros create Hin%not_elem_of_nil.
  - intros key create Hkey.
    cbn [GetSecretCreators SecretCreators smallCluster] in Hkey.
    apply lookup_singleton_Some in Hkey as [<- <-]. split.
    + by intros existing obj [= <-].
    + intros existing obj [= <-]. by eexists.
  - apply NoDup_singleton.
  - intros op Hin. apply list_elem_of_singleton in Hin as ->.
    intros secrets existing generated currentJSON [= <- <-] secrets' stored _.
    by eexists.
  - intros op Hin. apply list_elem_of_singleton in Hin as ->. reflexivity.
Qed.


End WholePassTwiceExample.
